(** * Shallow embedding of the core of react-sdk-manager

    Covered sources: [src/src/core/PluginManager.ts] (the plugin registry),
    [src/src/core/StateManager.ts] (the reactive store),
    [src/src/core/LifecycleManager.ts] (the hook bus),
    [src/src/core/SDKManager.ts] (the coordinator's [initialize], [destroy]
    and [reset]) and [src/src/utils/pluginHelpers.ts] (the plugin helpers).

    JavaScript objects that the code mutates in place (plugin descriptors)
    live in an explicit heap indexed by references, so that the aliasing
    between the caller's descriptor and the registry's stored copy is
    visible.  A [Map] is an association list kept in insertion order
    ([set] on an existing key keeps its position, [delete] removes it), as
    [Map.prototype.values] and [Map.prototype.keys] iterate in that order. *)

From Stdlib Require Import String List Bool Arith Lia Relations.
Import ListNotations.
Open Scope string_scope.
Open Scope list_scope.

(** ** JavaScript [Map<string, V>] as an insertion-ordered association list *)
Module JsMap.
Section Ops.
Context {V : Type}.

Fixpoint get (m : list (string * V)) (k : string) : option V :=
  match m with
  | [] => None
  | (k', v) :: m' => if String.eqb k k' then Some v else get m' k
  end.

Definition has (m : list (string * V)) (k : string) : bool :=
  match get m k with Some _ => true | None => false end.

Fixpoint replace (m : list (string * V)) (k : string) (v : V)
  : list (string * V) :=
  match m with
  | [] => []
  | (k', v') :: m' =>
      if String.eqb k k' then (k', v) :: m' else (k', v') :: replace m' k v
  end.

(** [m.set(k, v)]: in place when [k] is present, appended otherwise. *)
Definition set (m : list (string * V)) (k : string) (v : V)
  : list (string * V) :=
  if has m k then replace m k v else m ++ [(k, v)].

(** [m.delete(k)] *)
Fixpoint delete (m : list (string * V)) (k : string) : list (string * V) :=
  match m with
  | [] => []
  | (k', v') :: m' => if String.eqb k k' then m' else (k', v') :: delete m' k
  end.

Definition values (m : list (string * V)) : list V := map snd m.
End Ops.
End JsMap.

(** [set.add(x)] on a JavaScript [Set<string>] that is never iterated
    concurrently with its mutation: a list without duplicates. *)
Definition set_add (s : list string) (x : string) : list string :=
  if existsb (String.eqb x) s then s else s ++ [x].

Definition set_has (s : list string) (x : string) : bool :=
  existsb (String.eqb x) s.

Definition set_delete (s : list string) (x : string) : list string :=
  filter (fun y => negb (String.eqb x y)) s.

(** ** Errors (src/src/types/index.ts, class [SDKError]) *)

#[local] Set Warnings "-register-all".

(** A thrown value: an [SDKError] with its [code] and optional [details]
    (the wrapped cause), or an error raised by a plugin's own callback.
    Messages are not modelled. *)
Inductive error : Type :=
| SDKError (code : string) (details : option error)
| PluginThrew (msg : string)
| JsTypeError.

Definition error_code (e : error) : option string :=
  match e with SDKError c _ => Some c | _ => None end.

Definition error_details (e : error) : option error :=
  match e with SDKError _ d => d | _ => None end.

(** ** Plugin descriptors (src/src/types/index.ts, interface [Plugin]) *)

(** What a user-supplied [initialize]/[destroy] callback does when awaited:
    it completes or it throws. *)
Inductive outcome : Type :=
| Completes
| Throws (msg : string).

Record Plugin : Type := mkPlugin {
  name : string;
  version : string;
  enabled : bool;
  dependencies : option (list string);
  initialize : option outcome;
  destroy : option outcome
}.

Definition set_enabled (p : Plugin) (b : bool) : Plugin :=
  {| name := name p; version := version p; enabled := b;
     dependencies := dependencies p; initialize := initialize p;
     destroy := destroy p |}.

(** The object heap: a reference is a [nat]; [next] is the next fresh one. *)
Record Heap : Type := mkHeap {
  objs : nat -> option Plugin;
  next : nat
}.

Definition heap_write (h : Heap) (r : nat) (p : Plugin) : Heap :=
  {| objs := fun q => if Nat.eqb q r then Some p else objs h q;
     next := next h |}.

(** [{ ...plugin }]: a shallow copy at a fresh reference. *)
Definition heap_alloc (h : Heap) (p : Plugin) : Heap * nat :=
  ({| objs := fun q => if Nat.eqb q (next h) then Some p else objs h q;
      next := S (next h) |}, next h).

(** ** The registry (class [PluginManager]) *)

(** [plugins: Map<string, Plugin>] holds references to the stored copies;
    [dependencyGraph: Map<string, Set<string>>] maps a name to the names
    of the plugins registered with it as a dependency. *)
Record Registry : Type := mkRegistry {
  plugins : list (string * nat);
  dependencyGraph : list (string * list string);
  heap : Heap
}.

Definition empty_registry (h : Heap) : Registry :=
  {| plugins := []; dependencyGraph := []; heap := h |}.

(** A state and exception monad: an async method of the registry that
    either resolves or rejects; mutations made before a throw persist. *)
Definition RM (A : Type) : Type := Registry -> Registry * (error + A).

Definition ret {A} (a : A) : RM A := fun s => (s, inr a).
Definition throw {A} (e : error) : RM A := fun s => (s, inl e).
Definition bind {A B} (m : RM A) (k : A -> RM B) : RM B :=
  fun s => match m s with
           | (s', inl e) => (s', inl e)
           | (s', inr a) => k a s'
           end.
Definition try_catch {A} (m : RM A) (h : error -> RM A) : RM A :=
  fun s => match m s with
           | (s', inl e) => h e s'
           | r => r
           end.
Definition get_reg : RM Registry := fun s => (s, inr s).
Definition put_reg (s' : Registry) : RM unit := fun _ => (s', inr tt).

Notation "x <- m ;; k" := (bind m (fun x => k))
  (at level 61, m at next level, right associativity).
Notation "m ;;; k" := (bind m (fun _ => k))
  (at level 61, right associativity).

Fixpoint for_each {A} (xs : list A) (f : A -> RM unit) : RM unit :=
  match xs with
  | [] => ret tt
  | x :: xs' => f x ;;; for_each xs' f
  end.

(** Awaiting an optional user callback. *)
Definition run_callback (c : option outcome) : RM unit :=
  match c with
  | None | Some Completes => ret tt
  | Some (Throws m) => throw (PluginThrew m)
  end.

(** [this.plugins.get(name)], dereferenced. *)
Definition lookup_plugin (s : Registry) (n : string) : option (nat * Plugin) :=
  match JsMap.get (plugins s) n with
  | Some r => match objs (heap s) r with
              | Some p => Some (r, p)
              | None => None
              end
  | None => None
  end.

Definition write_plugin (r : nat) (p : Plugin) : RM unit :=
  s <- get_reg ;;
  put_reg {| plugins := plugins s; dependencyGraph := dependencyGraph s;
             heap := heap_write (heap s) r p |}.

Definition deps_or_nil (o : option (list string)) : list string :=
  match o with Some l => l | None => [] end.

(** [getDependents(pluginName)] *)
Definition getDependents (s : Registry) (n : string) : list string :=
  match JsMap.get (dependencyGraph s) n with Some d => d | None => [] end.

(** [plugin.enabled = b] on the object at reference [r]. *)
Definition set_enabled_at (r : nat) (b : bool) : RM unit :=
  s <- get_reg ;;
  match objs (heap s) r with
  | Some p => write_plugin r (set_enabled p b)
  | None => ret tt
  end.

(** [getAll()]: the stored objects, in registration order. *)
Definition getAll (s : Registry) : list nat := JsMap.values (plugins s).

(** [getEnabled()] *)
Definition getEnabled (s : Registry) : list nat :=
  filter (fun r => match objs (heap s) r with
                   | Some p => enabled p
                   | None => false
                   end) (getAll s).

(** The [hasCycle] closure of [validateDependencies]: returns the verdict
    and the [visited] and [recursionStack] sets.  Every nested call is on a
    name not yet visited, which it then marks, so the depth is bounded by
    the number of names plus one; [fuel] is that bound. *)
Fixpoint hasCycle (fuel : nat) (plugin : Plugin) (s : Registry)
    (pluginName : string) (visited recursionStack : list string)
  : bool * list string * list string :=
  match fuel with
  | 0 => (false, visited, recursionStack)
  | S fuel' =>
      let visited := set_add visited pluginName in
      let recursionStack := set_add recursionStack pluginName in
      let pluginDeps :=
        if String.eqb pluginName (name plugin)
        then deps_or_nil (dependencies plugin)
        else match lookup_plugin s pluginName with
             | Some (_, q) => deps_or_nil (dependencies q)
             | None => []
             end in
      (fix loop (ds : list string) (visited recursionStack : list string) :=
         match ds with
         | [] => (false, visited, set_delete recursionStack pluginName)
         | dep :: ds' =>
             if negb (set_has visited dep) then
               match hasCycle fuel' plugin s dep visited recursionStack with
               | (true, v, st) => (true, v, st)
               | (false, v, st) => loop ds' v st
               end
             else if set_has recursionStack dep then
               (true, visited, recursionStack)
             else loop ds' visited recursionStack
         end) pluginDeps visited recursionStack
  end.

(** [validateDependencies(plugin)] *)
Definition validateDependencies (plugin : Plugin) : RM unit :=
  match dependencies plugin with
  | None => ret tt
  | Some ds =>
      for_each ds (fun dep =>
        s <- get_reg ;;
        if JsMap.has (plugins s) dep then ret tt
        else throw (SDKError "DEPENDENCY_NOT_FOUND" None)) ;;;
      s <- get_reg ;;
      match hasCycle (S (S (length (plugins s)))) plugin s (name plugin) [] [] with
      | (true, _, _) => throw (SDKError "CIRCULAR_DEPENDENCY" None)
      | (false, _, _) => ret tt
      end
  end.

(** [updateDependencyGraph(plugin)] *)
Definition updateDependencyGraph (plugin : Plugin) : RM unit :=
  match dependencies plugin with
  | None => ret tt
  | Some ds =>
      for_each ds (fun dep =>
        s <- get_reg ;;
        let g := if JsMap.has (dependencyGraph s) dep then dependencyGraph s
                 else JsMap.set (dependencyGraph s) dep [] in
        let cur := match JsMap.get g dep with Some d => d | None => [] end in
        put_reg {| plugins := plugins s;
                   dependencyGraph := JsMap.set g dep (set_add cur (name plugin));
                   heap := heap s |})
  end.

(** [register(plugin)], the caller's descriptor being the object at [r]. *)
Definition register (r : nat) : RM unit :=
  s0 <- get_reg ;;
  match objs (heap s0) r with
  | None => throw JsTypeError
  | Some plugin =>
      try_catch
        (s <- get_reg ;;
         (if JsMap.has (plugins s) (name plugin)
          then throw (SDKError "PLUGIN_ALREADY_EXISTS" None)
          else ret tt) ;;;
         validateDependencies plugin ;;;
         s <- get_reg ;;
         let '(h', q) := heap_alloc (heap s) plugin in
         put_reg {| plugins := JsMap.set (plugins s) (name plugin) q;
                    dependencyGraph := dependencyGraph s;
                    heap := h' |} ;;;
         updateDependencyGraph plugin ;;;
         (if enabled plugin then run_callback (initialize plugin) else ret tt))
        (fun e => throw (SDKError "PLUGIN_REGISTRATION_FAILED" (Some e)))
  end.

(** [unregister(name)] *)
Definition unregister (n : string) : RM unit :=
  s0 <- get_reg ;;
  match lookup_plugin s0 n with
  | None => throw (SDKError "PLUGIN_NOT_FOUND" None)
  | Some (_, plugin) =>
      try_catch
        (s <- get_reg ;;
         (match getDependents s n with
          | [] => ret tt
          | _ :: _ => throw (SDKError "PLUGIN_HAS_DEPENDENTS" None)
          end) ;;;
         (if enabled plugin then run_callback (destroy plugin) else ret tt) ;;;
         s <- get_reg ;;
         put_reg {| plugins := JsMap.delete (plugins s) n;
                    dependencyGraph := JsMap.delete (dependencyGraph s) n;
                    heap := heap s |})
        (fun e => throw (SDKError "PLUGIN_UNREGISTRATION_FAILED" (Some e)))
  end.

(** [enable(name)] *)
Definition enable (n : string) : RM unit :=
  s0 <- get_reg ;;
  match lookup_plugin s0 n with
  | None => throw (SDKError "PLUGIN_NOT_FOUND" None)
  | Some (r, plugin) =>
      if enabled plugin then ret tt else
      try_catch
        ((match dependencies plugin with
          | None => ret tt
          | Some ds =>
              for_each ds (fun dep =>
                s <- get_reg ;;
                match lookup_plugin s dep with
                | Some (_, depPlugin) =>
                    if enabled depPlugin then ret tt
                    else throw (SDKError "DEPENDENCY_NOT_ENABLED" None)
                | None => throw (SDKError "DEPENDENCY_NOT_ENABLED" None)
                end)
          end) ;;;
         run_callback (initialize plugin) ;;;
         set_enabled_at r true)
        (fun e => throw (SDKError "PLUGIN_ENABLE_FAILED" (Some e)))
  end.

(** [disable(name)] *)
Definition disable (n : string) : RM unit :=
  s0 <- get_reg ;;
  match lookup_plugin s0 n with
  | None => throw (SDKError "PLUGIN_NOT_FOUND" None)
  | Some (r, plugin) =>
      if negb (enabled plugin) then ret tt else
      try_catch
        (s <- get_reg ;;
         let enabledDependents :=
           filter (fun dep => match lookup_plugin s dep with
                              | Some (_, depPlugin) => enabled depPlugin
                              | None => false
                              end) (getDependents s n) in
         (match enabledDependents with
          | [] => ret tt
          | _ :: _ => throw (SDKError "PLUGIN_HAS_ENABLED_DEPENDENTS" None)
          end) ;;;
         run_callback (destroy plugin) ;;;
         set_enabled_at r false)
        (fun e => throw (SDKError "PLUGIN_DISABLE_FAILED" (Some e)))
  end.

(** ** The hook bus (class [LifecycleManager]) *)

(** Values passed to hook callbacks: strings (such as the hook name passed
    as context), thrown errors, and other values as references. *)
Inductive arg : Type :=
| AStr (s : string)
| AErr (e : error)
| ARef (r : nat).

(** One invocation [callback(...args)] of callback [cb] emitted for [hook]. *)
Inductive call : Type :=
| Call (cb : nat) (hook : string) (args : list arg).

(** [hooks: Map<LifecycleHook, Set<LifecycleCallback>>]; a callback is
    identified by a number, a [Set] of them by a duplicate-free list in
    insertion order.  [calls] records the invocations, oldest first. *)
Record Bus : Type := mkBus {
  hooks : list (string * list nat);
  calls : list call
}.

Definition hookTypes : list string :=
  ["beforeMount"; "afterMount"; "beforeUnmount"; "afterUnmount";
   "stateChange"; "error"].

Definition cb_set_add (s : list nat) (x : nat) : list nat :=
  if existsb (Nat.eqb x) s then s else s ++ [x].

Definition cb_set_delete (s : list nat) (x : nat) : list nat :=
  filter (fun y => negb (Nat.eqb x y)) s.

(** [initializeHooks()] *)
Definition initializeHooks (m : list (string * list nat)) : list (string * list nat) :=
  fold_left (fun m hook => if JsMap.has m hook then m else JsMap.set m hook [])
            hookTypes m.

(** [new LifecycleManager(debug)]: the debug flag only drives logging. *)
Definition new_bus : Bus := {| hooks := initializeHooks []; calls := [] |}.

(** [on(hook, callback)] *)
Definition on (hook : string) (cb : nat) (b : Bus) : Bus :=
  let m := if JsMap.has (hooks b) hook then hooks b
           else JsMap.set (hooks b) hook [] in
  let cur := match JsMap.get m hook with Some c => c | None => [] end in
  {| hooks := JsMap.set m hook (cb_set_add cur cb); calls := calls b |}.

(** [off(hook, callback)] *)
Definition off (hook : string) (cb : nat) (b : Bus) : Bus :=
  match JsMap.get (hooks b) hook with
  | Some cur => {| hooks := JsMap.set (hooks b) hook (cb_set_delete cur cb);
                   calls := calls b |}
  | None => b
  end.

(** [clear(hook?)] *)
Definition clear (hook : option string) (b : Bus) : Bus :=
  match hook with
  | Some h => {| hooks := JsMap.delete (hooks b) h; calls := calls b |}
  | None => {| hooks := initializeHooks []; calls := calls b |}
  end.

(** [getCallbackCount(hook)] *)
Definition getCallbackCount (b : Bus) (hook : string) : nat :=
  match JsMap.get (hooks b) hook with Some c => length c | None => 0 end.

(** [hasCallbacks(hook)] *)
Definition hasCallbacks (b : Bus) (hook : string) : bool :=
  match JsMap.get (hooks b) hook with Some c => Nat.ltb 0 (length c) | None => false end.

(** [getRegisteredHooks()] *)
Definition getRegisteredHooks (b : Bus) : list string :=
  map fst (filter (fun kv => Nat.ltb 0 (length (snd kv))) (hooks b)).

Section Emit.
(** What callback [cb] does when invoked for [hook] with [args]: returns
    normally ([None]) or throws ([Some e]).  Callbacks are modelled by
    this outcome only; they do not touch the bus. *)
Variable callback_outcome : nat -> string -> list arg -> option error.

(** [callback(...args)]: records the invocation, then returns or throws. *)
Definition invoke (cb : nat) (hook : string) (args : list arg) (b : Bus)
  : Bus * option error :=
  ({| hooks := hooks b; calls := calls b ++ [Call cb hook args] |},
   callback_outcome cb hook args).

(** The [callbackArray.forEach] loop of [emit(hook, ...args)]; [nested]
    is the [emit] used by the [catch] handler. *)
Fixpoint each_callback (nested : string -> list arg -> Bus -> Bus * option error)
    (hook : string) (args : list arg) (cbArray : list nat) (b : Bus)
  : Bus * option error :=
  match cbArray with
  | [] => (b, None)
  | cb :: rest =>
      match invoke cb hook args b with
      | (b', None) => each_callback nested hook args rest b'
      | (b', Some err) =>
          (* catch (error) *)
          if negb (String.eqb hook "error") then
            match nested "error" [AErr err; AStr hook] b' with
            | (b'', None) => each_callback nested hook args rest b''
            | (b'', Some e') => (b'', Some e')
            end
          else each_callback nested hook args rest b'
      end
  end.

(** [emit(hook, ...args)]; the result's second component is the
    exception [emit] itself throws, if any.  The nested [emit('error', ...)]
    of the handler runs with [hook = 'error'] and so never nests again:
    a depth of 2 covers every run. *)
Fixpoint emit_depth (depth : nat) (hook : string) (args : list arg) (b : Bus)
  : Bus * option error :=
  match depth with
  | 0 => (b, None)
  | S depth' =>
      match JsMap.get (hooks b) hook with
      | Some ((_ :: _) as callbacks) =>
          (* const callbackArray = Array.from(callbacks) *)
          each_callback (emit_depth depth') hook args callbacks b
      | _ => (b, None)
      end
  end.

Definition emit (hook : string) (args : list arg) (b : Bus) : Bus * option error :=
  emit_depth 2 hook args b.
End Emit.

(** ** The reactive store (class [StateManager]) *)

(** A state object's own enumerable properties, in order. *)
Definition fields : Type := list (string * nat).

(** What a listener does when called, in order: subscribe or unsubscribe a
    listener through the store's [subscribe] and unsubscribe closures, or
    throw (which ends the callback; [notifyListeners] catches it). *)
Inductive action : Type :=
| Subscribe (l : nat)
| Unsubscribe (l : nat)
| Throw.

(** [listeners] is the entry list of the JavaScript [Set]: [Set.prototype.add]
    appends an entry for a value not present, [delete] empties the value's
    entry in place, and an ongoing [forEach] walks the entry list by index,
    skipping emptied entries and reaching entries appended meanwhile.
    State values are references into [sheap] ([snext] is the next fresh
    one); [notified] records each [listener(state, prevState)] call as
    (listener, state, prevState) and [writes] each
    [localStorage.setItem(persistKey, JSON.stringify(state))]. *)
Record Store : Type := mkStore {
  sheap : nat -> option fields;
  snext : nat;
  state : nat;
  listeners : list (option nat);
  persist : bool;
  persistKey : option string;
  notified : list (nat * nat * nat);
  writes : list (string * fields)
}.

(** What a functional update [(prev) => next] returns, given the heap and
    the reference [prev]: an existing object, or a newly built one. *)
Inductive fresult : Type :=
| ReturnRef (r : nat)
| ReturnNew (f : fields).

Inductive update : Type :=
| Partial (p : fields)
| Functional (f : (nat -> option fields) -> nat -> fresult).

Definition with_listeners (st : Store) (ls : list (option nat)) : Store :=
  {| sheap := sheap st; snext := snext st; state := state st; listeners := ls;
     persist := persist st; persistKey := persistKey st;
     notified := notified st; writes := writes st |}.

Definition with_state (st : Store) (h : nat -> option fields) (nx r : nat) : Store :=
  {| sheap := h; snext := nx; state := r; listeners := listeners st;
     persist := persist st; persistKey := persistKey st;
     notified := notified st; writes := writes st |}.

(** [this.listeners.add(l)] *)
Definition listeners_add (ls : list (option nat)) (l : nat) : list (option nat) :=
  if existsb (fun e => match e with Some x => Nat.eqb x l | None => false end) ls
  then ls else ls ++ [Some l].

(** [this.listeners.delete(l)] *)
Definition listeners_delete (ls : list (option nat)) (l : nat) : list (option nat) :=
  map (fun e => match e with
                | Some x => if Nat.eqb x l then None else Some x
                | None => None
                end) ls.

(** [subscribe(listener)] *)
Definition subscribe (l : nat) (st : Store) : Store :=
  with_listeners st (listeners_add (listeners st) l).

(** [getListenerCount()] *)
Definition getListenerCount (st : Store) : nat :=
  length (filter (fun e => match e with Some _ => true | None => false end)
                 (listeners st)).

(** [clearListeners()] *)
Definition clearListeners (st : Store) : Store :=
  with_listeners st (map (fun _ => None) (listeners st)).

(** [{ ...base, ...patch }] *)
Definition spread (base patch : fields) : fields :=
  fold_left (fun m kv => JsMap.set m (fst kv) (snd kv)) patch base.

Definition deref_state (st : Store) (r : nat) : fields :=
  match sheap st r with Some f => f | None => [] end.

Definition alloc_state (st : Store) (f : fields) : Store :=
  with_state st (fun q => if Nat.eqb q (snext st) then Some f else sheap st q)
             (S (snext st)) (snext st).

Section StoreOps.
Variable listener_actions : nat -> list action.

(** The subscription changes a listener makes, up to a [throw]. *)
Fixpoint run_actions (acts : list action) (st : Store) : Store :=
  match acts with
  | [] => st
  | Subscribe x :: acts' => run_actions acts' (with_listeners st (listeners_add (listeners st) x))
  | Unsubscribe x :: acts' => run_actions acts' (with_listeners st (listeners_delete (listeners st) x))
  | Throw :: _ => st
  end.

(** A call [listener(state, prevState)] inside the [try] of
    [notifyListeners]. *)
Definition run_listener (l stt prev : nat) (st : Store) : Store :=
  run_actions (listener_actions l)
    {| sheap := sheap st; snext := snext st; state := state st;
       listeners := listeners st; persist := persist st;
       persistKey := persistKey st;
       notified := notified st ++ [(l, stt, prev)];
       writes := writes st |}.

(** [this.listeners.forEach(...)] from entry index [i] on.  A listener
    that keeps re-adding itself makes the JavaScript loop run forever;
    [fuel] bounds the number of entries visited. *)
Fixpoint forEach_from (fuel : nat) (i : nat) (stt prev : nat) (st : Store) : Store :=
  match fuel with
  | 0 => st
  | S fuel' =>
      match nth_error (listeners st) i with
      | None => st
      | Some None => forEach_from fuel' (S i) stt prev st
      | Some (Some l) => forEach_from fuel' (S i) stt prev (run_listener l stt prev st)
      end
  end.

(** [notifyListeners(state, prevState)] *)
Definition notifyListeners (fuel : nat) (stt prev : nat) (st : Store) : Store :=
  forEach_from fuel 0 stt prev st.

(** [persistState()]: a no-op unless [persistKey] is a non-empty string. *)
Definition persistState (st : Store) : Store :=
  match persistKey st with
  | Some k =>
      if String.eqb k "" then st else
      {| sheap := sheap st; snext := snext st; state := state st;
         listeners := listeners st; persist := persist st;
         persistKey := persistKey st; notified := notified st;
         writes := writes st ++ [(k, deref_state st (state st))] |}
  | None => st
  end.

(** [setState(newState)] *)
Definition setState (fuel : nat) (u : update) (st : Store) : Store :=
  let prevState := state st in
  let st := match u with
            | Functional f =>
                match f (sheap st) (state st) with
                | ReturnRef r => with_state st (sheap st) (snext st) r
                | ReturnNew v => alloc_state st v
                end
            | Partial p => alloc_state st (spread (deref_state st (state st)) p)
            end in
  if negb (Nat.eqb (state st) prevState) then
    let st := notifyListeners fuel (state st) prevState st in
    if persist st then persistState st else st
  else st.
End StoreOps.

(** ** The coordinator (class [SDKManager]) *)

(** [sortPluginsByDependenciesReverse(plugins)]: the [visit] closure, with
    its [visited], [visiting] and [sorted] threaded through.  A nested call
    either returns at once or adds a new name to [visiting], so the depth is
    bounded by the number of names plus one; [fuel] is that bound. *)
Fixpoint visit (fuel : nat) (plugins : list nat) (h : Heap) (plugin : nat)
    (visited visiting : list string) (sorted : list nat)
  : list string * list string * list nat :=
  match fuel with
  | 0 => (visited, visiting, sorted)
  | S fuel' =>
      match objs h plugin with
      | None => (visited, visiting, sorted)
      | Some p =>
          if set_has visiting (name p) then (visited, visiting, sorted)
          else if set_has visited (name p) then (visited, visiting, sorted)
          else
            let visiting := set_add visiting (name p) in
            let '(visited, visiting, sorted) :=
              fold_left
                (fun acc otherPlugin =>
                   let '(vd, vg, so) := acc in
                   match objs h otherPlugin with
                   | Some o =>
                       if existsb (String.eqb (name p)) (deps_or_nil (dependencies o))
                       then visit fuel' plugins h otherPlugin vd vg so
                       else acc
                   | None => acc
                   end)
                plugins (visited, visiting, sorted) in
            (set_add visited (name p), set_delete visiting (name p), sorted ++ [plugin])
      end
  end.

Definition sortPluginsByDependenciesReverse (plugins : list nat) (h : Heap) : list nat :=
  let '(_, _, sorted) :=
    fold_left (fun acc plugin =>
                 let '(vd, vg, so) := acc in
                 visit (S (S (length plugins))) plugins h plugin vd vg so)
              plugins ([], [], []) in
  sorted.

Record SDK : Type := mkSDK {
  reg : Registry;
  bus : Bus;
  store : Store;
  isInitialized : bool;
  isDestroyed : bool
}.

(** The object returned by [getInfo()] (name and version left out). *)
Record Info : Type := mkInfo {
  info_isInitialized : bool;
  info_isDestroyed : bool;
  pluginCount : nat;
  enabledPluginCount : nat;
  stateListenerCount : nat;
  registeredHooks : list string
}.

Definition getInfo (sdk : SDK) : Info :=
  {| info_isInitialized := isInitialized sdk;
     info_isDestroyed := isDestroyed sdk;
     pluginCount := length (getAll (reg sdk));
     enabledPluginCount := length (getEnabled (reg sdk));
     stateListenerCount := getListenerCount (store sdk);
     registeredHooks := getRegisteredHooks (bus sdk) |}.

(** [new SDKManager(config)] with the default configuration, over an object
    heap [h] that holds the caller's descriptors.  The store subscription
    forwarding to [stateChange] is listener [0] of the store, and the
    internal [error] listener is callback [0] of the bus. *)
Definition new_sdk (h : Heap) : SDK :=
  {| reg := empty_registry h;
     bus := on "error" 0 new_bus;
     store := {| sheap := fun q => if Nat.eqb q 0 then Some [] else None;
                 snext := 1; state := 0; listeners := [Some 0];
                 persist := false; persistKey := Some "react-sdk-manager-state";
                 notified := []; writes := [] |};
     isInitialized := false;
     isDestroyed := false |}.

(** [sdk.plugins.<op>(...)] *)
Definition with_plugins (m : RM unit) (sdk : SDK) : SDK * (error + unit) :=
  let '(r', res) := m (reg sdk) in
  ({| reg := r'; bus := bus sdk; store := store sdk;
      isInitialized := isInitialized sdk; isDestroyed := isDestroyed sdk |}, res).

Definition with_bus (sdk : SDK) (b : Bus) : SDK :=
  {| reg := reg sdk; bus := b; store := store sdk;
     isInitialized := isInitialized sdk; isDestroyed := isDestroyed sdk |}.

Section Coordinator.
Variable callback_outcome : nat -> string -> list arg -> option error.

(** [emitAsync(hook)]: with callbacks that settle at once, it invokes
    them in the same order as [emit], with the same error routing. *)
Definition emitAsync (hook : string) (args : list arg) (b : Bus) : Bus * option error :=
  emit callback_outcome hook args b.

(** The two plugin passes of [destroy()]: disable in the computed order,
    forcing [enabled = false] when [disable] fails, then unregister every
    plugin of [allPlugins], ignoring failures. *)
Definition destroy_plugins (allPlugins sortedPlugins : list nat) : RM unit :=
  for_each sortedPlugins (fun r =>
    s <- get_reg ;;
    match objs (heap s) r with
    | Some plugin =>
        if enabled plugin then
          try_catch (disable (name plugin))
            (fun _ => run_callback (destroy plugin) ;;; set_enabled_at r false)
        else ret tt
    | None => ret tt
    end) ;;;
  for_each allPlugins (fun r =>
    s <- get_reg ;;
    match objs (heap s) r with
    | Some plugin => try_catch (unregister (name plugin)) (fun _ => ret tt)
    | None => ret tt
    end).

(** [destroy()] *)
Definition destroy_sdk (sdk : SDK) : SDK * (error + unit) :=
  if isDestroyed sdk then (sdk, inr tt) else
  let fail (sdk : SDK) (e : error) : SDK * (error + unit) :=
    let sdkError := match e with
                    | SDKError _ _ => e
                    | _ => SDKError "DESTRUCTION_FAILED" (Some e)
                    end in
    let '(b, _) := emit callback_outcome "error" [AErr sdkError; AStr "destruction"] (bus sdk) in
    (with_bus sdk b, inl sdkError) in
  match emitAsync "beforeUnmount" [] (bus sdk) with
  | (b1, Some e) => fail (with_bus sdk b1) e
  | (b1, None) =>
      let sdk := with_bus sdk b1 in
      let allPlugins := getAll (reg sdk) in
      let sortedPlugins := sortPluginsByDependenciesReverse allPlugins (heap (reg sdk)) in
      match with_plugins (destroy_plugins allPlugins sortedPlugins) sdk with
      | (sdk, inl e) => fail sdk e
      | (sdk, inr _) =>
          let sdk := {| reg := reg sdk; bus := clear None (bus sdk);
                        store := clearListeners (store sdk);
                        isInitialized := false; isDestroyed := true |} in
          match emitAsync "afterUnmount" [] (bus sdk) with
          | (b2, Some e) => fail (with_bus sdk b2) e
          | (b2, None) => (with_bus sdk b2, inr tt)
          end
      end
  end.
End Coordinator.

(** ** The rest of the store: the unsubscribe closure and [reset] *)

(** The closure returned by [subscribe(listener)]:
    [() => { this.listeners.delete(listener) }]. *)
Definition unsubscribe (l : nat) (st : Store) : Store :=
  with_listeners st (listeners_delete (listeners st) l).

Section StoreReset.
Variable listener_actions : nat -> list action.

(** [reset()], the configuration's [initialState] being the object at
    reference [initialState].  The second component is the key passed to
    [localStorage.removeItem] by [clearPersistedState()], when it is
    called (only for [persist] with a non-empty [persistKey]). *)
Definition reset (fuel : nat) (initialState : nat) (st : Store) : Store * option string :=
  let prevState := state st in
  let st := with_state st (sheap st) (snext st) initialState in
  let st := notifyListeners listener_actions fuel (state st) prevState st in
  (st, if persist st then
         match persistKey st with
         | Some k => if String.eqb k "" then None else Some k
         | None => None
         end
       else None).
End StoreReset.

(** ** The rest of the coordinator: [initialize()] and [reset()] *)

Section SDKOps.
Variable callback_outcome : nat -> string -> list arg -> option error.
Variable listener_actions : nat -> list action.
Variable fuel : nat.
(** The object [config.initialState] the store was built with. *)
Variable initialState : nat.

(** The [catch] of [initialize()] and [reset()]: an [SDKError] is kept as
    it is, anything else is wrapped with [code]; ['error'] is emitted with
    the error and [context], then the error is rethrown. *)
Definition sdk_fail (code context : string) (sdk : SDK) (e : error)
  : SDK * (error + unit) :=
  let sdkError := match e with
                  | SDKError _ _ => e
                  | _ => SDKError code (Some e)
                  end in
  let '(b, _) := emit callback_outcome "error" [AErr sdkError; AStr context] (bus sdk) in
  (with_bus sdk b, inl sdkError).

(** [initialize()], [config.plugins] being the caller's descriptors at the
    references [config_plugins]. *)
Definition initialize_sdk (config_plugins : list nat) (sdk : SDK) : SDK * (error + unit) :=
  if isInitialized sdk then (sdk, inl (SDKError "ALREADY_INITIALIZED" None)) else
  if isDestroyed sdk then (sdk, inl (SDKError "SDK_DESTROYED" None)) else
  match emitAsync callback_outcome "beforeMount" [] (bus sdk) with
  | (b1, Some e) => sdk_fail "INITIALIZATION_FAILED" "initialization" (with_bus sdk b1) e
  | (b1, None) =>
      match with_plugins (for_each config_plugins register) (with_bus sdk b1) with
      | (sdk, inl e) => sdk_fail "INITIALIZATION_FAILED" "initialization" sdk e
      | (sdk, inr _) =>
          let sdk := {| reg := reg sdk; bus := bus sdk; store := store sdk;
                        isInitialized := true; isDestroyed := isDestroyed sdk |} in
          match emitAsync callback_outcome "afterMount" [] (bus sdk) with
          | (b2, Some e) => sdk_fail "INITIALIZATION_FAILED" "initialization" (with_bus sdk b2) e
          | (b2, None) => (with_bus sdk b2, inr tt)
          end
      end
  end.

(** The store subscription made by the constructor (listener [0]): each of
    its calls [(newState, prevState)] emits ['stateChange'] with them. *)
Definition forward_state_changes (ns : list (nat * nat * nat)) (b : Bus) : Bus :=
  fold_left (fun b n =>
               let '(l, stt, prev) := n in
               if Nat.eqb l 0
               then fst (emit callback_outcome "stateChange" [ARef stt; ARef prev] b)
               else b) ns b.

(** [reset()] *)
Definition reset_sdk (sdk : SDK) : SDK * (error + unit) :=
  if negb (isInitialized sdk) then (sdk, inl (SDKError "NOT_INITIALIZED" None)) else
  let '(st, _) := reset listener_actions fuel initialState (store sdk) in
  let b := forward_state_changes (skipn (length (notified (store sdk))) (notified st)) (bus sdk) in
  let sdk := {| reg := reg sdk; bus := b; store := st;
                isInitialized := isInitialized sdk; isDestroyed := isDestroyed sdk |} in
  let allPlugins := getAll (reg sdk) in
  match with_plugins
          (for_each allPlugins (fun r =>
             s <- get_reg ;;
             match objs (heap s) r with
             | Some plugin =>
                 if enabled plugin then disable (name plugin) ;;; enable (name plugin)
                 else ret tt
             | None => ret tt
             end)) sdk with
  | (sdk, inl e) => sdk_fail "RESET_FAILED" "reset" sdk e
  | (sdk, inr _) => (sdk, inr tt)
  end.
End SDKOps.

(** ** Plugin helpers (src/src/utils/pluginHelpers.ts)

    These functions take and return plain descriptors; they never mutate
    them, so descriptors are values here. *)
Module PluginHelpers.

(** The argument of [createPlugin] ([component] and [hooks] not modelled). *)
Record PluginConfig : Type := mkPluginConfig {
  cfg_name : string;
  cfg_version : string;
  cfg_enabled : option bool;
  cfg_dependencies : option (list string);
  cfg_initialize : option outcome;
  cfg_destroy : option outcome
}.

(** [createPlugin(config)] *)
Definition createPlugin (config : PluginConfig) : Plugin :=
  {| name := cfg_name config;
     version := cfg_version config;
     enabled := match cfg_enabled config with Some b => b | None => true end;
     dependencies := cfg_dependencies config;
     initialize := cfg_initialize config;
     destroy := cfg_destroy config |}.

(** [validatePlugin(plugin)]: [!s] holds for the empty string; a
    [dependencies] that is present is a list, so [Array.isArray] holds. *)
Definition validatePlugin (plugin : Plugin) : list string :=
  (if String.eqb (name plugin) "" then ["Plugin name is required"] else []) ++
  (if String.eqb (version plugin) "" then ["Plugin version is required"] else []) ++
  (match dependencies plugin with
   | Some _ => [] (* Array.isArray(plugin.dependencies) *)
   | None => []
   end).

(** [plugins.find(p => p.name === n)] *)
Definition find_plugin (plugins : list Plugin) (n : string) : option Plugin :=
  find (fun p => String.eqb (name p) n) plugins.

Record Compatibility : Type := mkCompatibility {
  compatible : bool;
  missingDependencies : list string
}.

(** [checkPluginCompatibility(plugin, availablePlugins)] *)
Definition checkPluginCompatibility (plugin : Plugin) (availablePlugins : list Plugin)
  : Compatibility :=
  let missingDependencies :=
    match dependencies plugin with
    | Some ds =>
        fold_left (fun acc dep =>
                     match find_plugin availablePlugins dep with
                     | Some _ => acc
                     | None => acc ++ [dep]
                     end) ds []
    | None => []
    end in
  {| compatible := Nat.eqb (length missingDependencies) 0;
     missingDependencies := missingDependencies |}.

(** The [visit] closure of [sortPluginsByDependencies] returns normally with
    its [visited], [visiting] and [sorted] sets, or throws the
    [Circular dependency detected] error for a plugin name.  A nested call
    either returns at once or adds a new name to [visiting], so the depth is
    at most the number of names plus one; [VOutOfFuel] (when [fuel] runs
    out) is never reached with the bound used below. *)
Inductive visit_result : Type :=
| VOk (visited visiting : list string) (sorted : list Plugin)
| VCircular (n : string)
| VOutOfFuel.

Fixpoint sort_visit (fuel : nat) (plugins : list Plugin) (plugin : Plugin)
    (visited visiting : list string) (sorted : list Plugin) : visit_result :=
  match fuel with
  | 0 => VOutOfFuel
  | S fuel' =>
      if set_has visiting (name plugin) then VCircular (name plugin)
      else if set_has visited (name plugin) then VOk visited visiting sorted
      else
        let visiting := set_add visiting (name plugin) in
        match (fix loop (ds : list string) (vd vg : list string) (so : list Plugin) :=
                 match ds with
                 | [] => VOk vd vg so
                 | depName :: ds' =>
                     match find_plugin plugins depName with
                     | Some depPlugin =>
                         match sort_visit fuel' plugins depPlugin vd vg so with
                         | VOk vd' vg' so' => loop ds' vd' vg' so'
                         | res => res
                         end
                     | None => loop ds' vd vg so
                     end
                 end) (deps_or_nil (dependencies plugin)) visited visiting sorted with
        | VOk vd vg so =>
            VOk (set_add vd (name plugin)) (set_delete vg (name plugin)) (so ++ [plugin])
        | res => res
        end
  end.

(** The [for (const plugin of plugins) visit(plugin)] loop. *)
Fixpoint sort_loop (fuel : nat) (plugins ps : list Plugin)
    (visited visiting : list string) (sorted : list Plugin) : visit_result :=
  match ps with
  | [] => VOk visited visiting sorted
  | p :: ps' =>
      match sort_visit fuel plugins p visited visiting sorted with
      | VOk vd vg so => sort_loop fuel plugins ps' vd vg so
      | res => res
      end
  end.

(** [sortPluginsByDependencies(plugins)]: the sorted list, or the name in
    the thrown [Circular dependency detected] error. *)
Inductive sort_outcome : Type :=
| Sorted (l : list Plugin)
| CircularDependency (n : string)
| SortOutOfFuel.

Definition sortPluginsByDependencies (plugins : list Plugin) : sort_outcome :=
  match sort_loop (S (length plugins)) plugins plugins [] [] [] with
  | VOk _ _ sorted => Sorted sorted
  | VCircular n => CircularDependency n
  | VOutOfFuel => SortOutOfFuel
  end.

(** The [visit] closure of [getPluginDependencyChain], with [visited] and
    [chain] threaded through.  Every nested call that goes on marks a new
    name, among [pluginName] and the declared dependencies, so [fuel]
    (one more than their number) never runs out. *)
Fixpoint chain_visit (fuel : nat) (plugins : list Plugin) (n : string)
    (visited chain : list string) : list string * list string :=
  match fuel with
  | 0 => (visited, chain)
  | S fuel' =>
      if set_has visited n then (visited, chain) else
      let visited := set_add visited n in
      match find_plugin plugins n with
      | Some plugin =>
          match dependencies plugin with
          | Some ds =>
              (fix loop (ds : list string) (vd ch : list string) :=
                 match ds with
                 | [] => (vd, ch)
                 | dep :: ds' =>
                     let '(vd', ch') := chain_visit fuel' plugins dep vd ch in
                     loop ds' vd' (ch' ++ [dep])
                 end) ds visited chain
          | None => (visited, chain)
          end
      | None => (visited, chain)
      end
  end.

(** [getPluginDependencyChain(pluginName, plugins)] *)
Definition getPluginDependencyChain (pluginName : string) (plugins : list Plugin)
  : list string :=
  snd (chain_visit (S (S (length (flat_map (fun p => deps_or_nil (dependencies p)) plugins))))
                   plugins pluginName [] []).

Record UnloadCheck : Type := mkUnloadCheck {
  canUnload : bool;
  dependents : list string
}.

(** [canUnloadPlugin(pluginName, plugins)] *)
Definition canUnloadPlugin (pluginName : string) (plugins : list Plugin) : UnloadCheck :=
  let dependents :=
    fold_left (fun acc plugin =>
                 if existsb (String.eqb pluginName) (deps_or_nil (dependencies plugin))
                 then acc ++ [name plugin] else acc) plugins [] in
  {| canUnload := Nat.eqb (length dependents) 0; dependents := dependents |}.
End PluginHelpers.

(** ** Concrete inputs *)

Definition plugin_A (en : bool) : Plugin :=
  {| name := "A"; version := "1.0.0"; enabled := en; dependencies := None;
     initialize := None; destroy := None |}.

Definition plugin_B (en : bool) : Plugin :=
  {| name := "B"; version := "1.0.0"; enabled := en; dependencies := Some ["A"];
     initialize := None; destroy := None |}.

(** The caller's descriptors A (reference 0) and B (reference 1). *)
Definition heap_AB (en : bool) : Heap :=
  {| objs := fun q => match q with
                      | 0 => Some (plugin_A en)
                      | 1 => Some (plugin_B en)
                      | _ => None
                      end;
     next := 2 |}.

(** [register(A)] then [register(B)] on an empty registry. *)
Definition registry_AB (en : bool) : Registry :=
  fst ((register 0 ;;; register 1) (empty_registry (heap_AB en))).

Definition no_throw : nat -> string -> list arg -> option error :=
  fun _ _ _ => None.

(** * Properties *)

(** ** Registry *)

Definition wrapped (outer inner : string) : error :=
  SDKError outer (Some (SDKError inner None)).

(** C4 (as amended).  Registering a descriptor whose name is already
    registered rejects with [PLUGIN_REGISTRATION_FAILED], whose [details]
    is the [PLUGIN_ALREADY_EXISTS] error, and leaves the whole registry
    (map, dependency graph and heap) unchanged. *)
Theorem register_duplicate_rejected (s : Registry) (r : nat) (p : Plugin)
    (Hp : objs (heap s) r = Some p)
    (Hdup : JsMap.has (plugins s) (name p) = true) :
  register r s = (s, inl (wrapped "PLUGIN_REGISTRATION_FAILED" "PLUGIN_ALREADY_EXISTS")).
Proof.
  unfold register, bind, get_reg, try_catch, throw.
  rewrite Hp, Hdup. reflexivity.
Qed.

Lemma register_duplicate_rejected_witness :
  objs (heap (registry_AB true)) 0 = Some (plugin_A true) /\
  JsMap.has (plugins (registry_AB true)) (name (plugin_A true)) = true /\
  register 0 (registry_AB true)
  = (registry_AB true, inl (wrapped "PLUGIN_REGISTRATION_FAILED" "PLUGIN_ALREADY_EXISTS")).
Proof.
  split; [reflexivity | split; [reflexivity |]].
  apply (register_duplicate_rejected (registry_AB true) 0 (plugin_A true));
    reflexivity.
Defined.

(** C4 counterexample.  Registering A a second time does not reject with
    the code [PLUGIN_ALREADY_EXISTS]: the code the caller sees is
    [PLUGIN_REGISTRATION_FAILED]. *)
Lemma register_duplicate_code_is_wrapped :
  exists e, snd (register 0 (registry_AB true)) = inl e /\
            error_code e = Some "PLUGIN_REGISTRATION_FAILED" /\
            error_code e <> Some "PLUGIN_ALREADY_EXISTS".
Proof.
  eexists. split; [vm_compute; reflexivity |].
  split; [reflexivity | discriminate].
Qed.

(** C1 (as amended).  With A (no dependencies) and B (dependencies [A])
    registered, [unregister('A')] rejects with
    [PLUGIN_UNREGISTRATION_FAILED], whose [details] is the
    [PLUGIN_HAS_DEPENDENTS] error, and leaves the registry unchanged,
    B included; [unregister('B')] then resolves and removes B, A staying
    registered. *)
Theorem unregister_blocked_by_dependent (en : bool) :
  unregister "A" (registry_AB en)
    = (registry_AB en, inl (wrapped "PLUGIN_UNREGISTRATION_FAILED" "PLUGIN_HAS_DEPENDENTS")) /\
  JsMap.has (plugins (registry_AB en)) "B" = true /\
  snd (unregister "B" (registry_AB en)) = inr tt /\
  JsMap.has (plugins (fst (unregister "B" (registry_AB en)))) "B" = false /\
  JsMap.has (plugins (fst (unregister "B" (registry_AB en)))) "A" = true.
Proof.
  destruct en; vm_compute; repeat split; reflexivity.
Qed.

(** C1 counterexample.  The rejection of [unregister('A')] does not carry
    the code [PLUGIN_HAS_DEPENDENTS]. *)
Lemma unregister_dependent_code_is_wrapped :
  exists e, snd (unregister "A" (registry_AB true)) = inl e /\
            error_code e <> Some "PLUGIN_HAS_DEPENDENTS".
Proof.
  eexists. split; [vm_compute; reflexivity | discriminate].
Qed.

(** C5 (as amended).  With A and B (dependencies [A]) registered
    disabled, [enable('B')] rejects with [PLUGIN_ENABLE_FAILED], whose
    [details] is the [DEPENDENCY_NOT_ENABLED] error, and leaves the
    registry unchanged (B disabled); after [enable('A')] resolves,
    [enable('B')] resolves and B's stored [enabled] flag is [true]. *)
Theorem enable_requires_enabled_dependency :
  enable "B" (registry_AB false)
    = (registry_AB false, inl (wrapped "PLUGIN_ENABLE_FAILED" "DEPENDENCY_NOT_ENABLED")) /\
  option_map (fun rp => enabled (snd rp)) (lookup_plugin (registry_AB false) "B") = Some false /\
  snd (enable "A" (registry_AB false)) = inr tt /\
  snd (enable "B" (fst (enable "A" (registry_AB false)))) = inr tt /\
  option_map (fun rp => enabled (snd rp))
    (lookup_plugin (fst (enable "B" (fst (enable "A" (registry_AB false))))) "B")
    = Some true.
Proof.
  vm_compute; repeat split; reflexivity.
Qed.

(** C5 counterexample.  The rejection of [enable('B')] does not carry the
    code [DEPENDENCY_NOT_ENABLED]. *)
Lemma enable_dependency_code_is_wrapped :
  exists e, snd (enable "B" (registry_AB false)) = inl e /\
            error_code e <> Some "DEPENDENCY_NOT_ENABLED".
Proof.
  eexists. split; [vm_compute; reflexivity | discriminate].
Qed.

(** ** Coordinator teardown *)

(** A coordinator on which the caller registered A and then B. *)
Definition sdk_AB (en : bool) : SDK :=
  fst (with_plugins (register 0 ;;; register 1) (new_sdk (heap_AB en))).

(** C2 (code at the failing input).  With A and B (dependencies [A])
    registered, enabled or not, [destroy()] resolves and sets [isDestroyed],
    but A is still registered: its unregistration runs first, in
    registration order rather than the computed order [B; A], is blocked by
    B, and B's later removal does not clear B from A's dependents. *)
Theorem destroy_leaves_dependency_registered (en : bool) :
  getAll (reg (sdk_AB en)) = [2; 3] /\
  sortPluginsByDependenciesReverse (getAll (reg (sdk_AB en))) (heap (reg (sdk_AB en)))
    = [3; 2] /\
  snd (destroy_sdk no_throw (sdk_AB en)) = inr tt /\
  info_isDestroyed (getInfo (fst (destroy_sdk no_throw (sdk_AB en)))) = true /\
  pluginCount (getInfo (fst (destroy_sdk no_throw (sdk_AB en)))) = 1 /\
  getDependents (reg (fst (destroy_sdk no_throw (sdk_AB en)))) "A" = ["B"].
Proof.
  destruct en; vm_compute; repeat split; reflexivity.
Qed.

(** ** Store notification *)

(** A store holding the empty object at reference 0, not persisted. *)
Definition store_with (ls : list (option nat)) : Store :=
  {| sheap := fun q => if Nat.eqb q 0 then Some [] else None;
     snext := 1; state := 0; listeners := ls;
     persist := false; persistKey := None; notified := []; writes := [] |}.

(** Listener 1 subscribes listener 3 and unsubscribes listener 2. *)
Definition meddler : nat -> list action :=
  fun l => if Nat.eqb l 1 then [Subscribe 3; Unsubscribe 2] else [].

(** C3 (code at the failing input).  Listeners 1 and 2 subscribed;
    [setState({count: 1})] with listener 1 subscribing 3 and unsubscribing
    2 during its call: 3 is notified in the same pass and 2 is not. *)
Theorem store_notification_is_live :
  map (fun n => let '(l, _, _) := n in l)
      (notified (setState meddler 10 (Partial [("count", 1)]) (store_with [Some 1; Some 2])))
    = [1; 3] /\
  notified (setState meddler 10 (Partial [("count", 1)]) (store_with [Some 1; Some 2]))
    = [(1, 1, 0); (3, 1, 0)].
Proof.
  vm_compute. split; reflexivity.
Qed.

(** C8.  A functional update returning the identical reference notifies no
    listener, writes nothing to storage, and leaves the store as it was. *)
Theorem setState_identity_short_circuit (listener_actions : nat -> list action)
    (fuel : nat) (st : Store) (f : (nat -> option fields) -> nat -> fresult)
    (Hf : f (sheap st) (state st) = ReturnRef (state st)) :
  let st' := setState listener_actions fuel (Functional f) st in
  notified st' = notified st /\ writes st' = writes st /\
  state st' = state st /\ st' = st.
Proof.
  unfold setState; rewrite Hf.
  destruct st as [h nx r ls pe pk nt wr]; cbn.
  rewrite Nat.eqb_refl. cbn. repeat split; reflexivity.
Qed.

Lemma setState_identity_short_circuit_witness :
  (fun (_ : nat -> option fields) (r : nat) => ReturnRef r) (sheap (store_with [Some 1]))
      (state (store_with [Some 1])) = ReturnRef (state (store_with [Some 1])) /\
  let st' := setState meddler 10 (Functional (fun _ r => ReturnRef r)) (store_with [Some 1]) in
  notified st' = notified (store_with [Some 1]) /\ writes st' = writes (store_with [Some 1]) /\
  state st' = state (store_with [Some 1]) /\ st' = store_with [Some 1].
Proof.
  split; [reflexivity |].
  apply (setState_identity_short_circuit meddler 10 (store_with [Some 1])
           (fun _ r => ReturnRef r)).
  reflexivity.
Defined.

(** The listeners of a [Set]'s entry list that are still present. *)
Definition live (ls : list (option nat)) : list nat :=
  flat_map (fun e => match e with Some x => [x] | None => [] end) ls.

Definition add_notified (st : Store) (ns : list (nat * nat * nat)) : Store :=
  {| sheap := sheap st; snext := snext st; state := state st;
     listeners := listeners st; persist := persist st;
     persistKey := persistKey st; notified := notified st ++ ns;
     writes := writes st |}.

Lemma add_notified_add (st : Store) (a b : list (nat * nat * nat)) :
  add_notified (add_notified st a) b = add_notified st (a ++ b).
Proof. unfold add_notified; cbn; rewrite app_assoc; reflexivity. Qed.

Lemma add_notified_nil (st : Store) : add_notified st [] = st.
Proof. destruct st; unfold add_notified; cbn; rewrite app_nil_r; reflexivity. Qed.

Lemma skipn_nth_error {A} (l : list A) (i : nat) (x : A) :
  nth_error l i = Some x -> skipn i l = x :: skipn (S i) l.
Proof.
  revert l; induction i as [|i IH]; intros [|y l] H; cbn in *; try discriminate.
  - now injection H as ->.
  - now apply IH.
Qed.

Section Passive.
Variable listener_actions : nat -> list action.
Hypothesis passive : forall l, listener_actions l = [].

Lemma run_listener_passive (l stt prev : nat) (st : Store) :
  run_listener listener_actions l stt prev st = add_notified st [(l, stt, prev)].
Proof. unfold run_listener; rewrite passive; reflexivity. Qed.

Lemma forEach_from_passive (fuel i stt prev : nat) (st : Store) :
  length (listeners st) <= i + fuel ->
  forEach_from listener_actions fuel i stt prev st
    = add_notified st (map (fun l => (l, stt, prev)) (live (skipn i (listeners st)))).
Proof.
  revert i st; induction fuel as [|fuel IH]; intros i st Hlen; cbn.
  - rewrite skipn_all2 by lia; cbn. now rewrite add_notified_nil.
  - destruct (nth_error (listeners st) i) as [[l|]|] eqn:Hi.
    + rewrite run_listener_passive, IH by (cbn; lia).
      rewrite add_notified_add. cbn.
      rewrite (skipn_nth_error _ _ _ Hi). reflexivity.
    + rewrite IH by lia.
      rewrite (skipn_nth_error _ _ _ Hi). reflexivity.
    + apply nth_error_None in Hi.
      rewrite skipn_all2 by lia; cbn. now rewrite add_notified_nil.
Qed.
End Passive.

(** What a notification pass leaves alone. *)
Definition same_value (st st' : Store) : Prop :=
  state st' = state st /\ sheap st' = sheap st /\ snext st' = snext st /\
  persist st' = persist st /\ persistKey st' = persistKey st.

Lemma same_value_trans (a b c : Store) :
  same_value a b -> same_value b c -> same_value a c.
Proof. unfold same_value; intuition congruence. Qed.

Lemma run_actions_same_value (acts : list action) (st : Store) :
  same_value st (run_actions acts st).
Proof.
  revert st; induction acts as [|[x|x|] acts IH]; intro st; cbn;
    try (repeat split; reflexivity).
  - eapply same_value_trans; [| apply IH]. repeat split; reflexivity.
  - eapply same_value_trans; [| apply IH]. repeat split; reflexivity.
Qed.

Lemma forEach_from_same_value (listener_actions : nat -> list action)
    (fuel i stt prev : nat) (st : Store) :
  same_value st (forEach_from listener_actions fuel i stt prev st).
Proof.
  revert i st; induction fuel as [|fuel IH]; intros i st; cbn;
    try (repeat split; reflexivity).
  destruct (nth_error (listeners st) i) as [[l|]|]; try apply IH;
    try (repeat split; reflexivity).
  eapply same_value_trans; [| apply IH].
  unfold run_listener.
  eapply same_value_trans; [| apply run_actions_same_value].
  repeat split; reflexivity.
Qed.

(** C10.  For every object-form update and every store whose current
    object was allocated before ([state < snext]), [setState] installs the
    freshly built merge [{ ...state, ...partial }], a reference different
    from the previous one, so the notification pass always runs; with
    listeners that do not change the subscriptions, each present listener
    is called exactly once, with (new state, previous state), even for an
    empty partial. *)
Theorem setState_partial_always_notifies (listener_actions : nat -> list action)
    (fuel : nat) (st : Store) (p : fields)
    (Hwf : state st < snext st) :
  let st' := setState listener_actions fuel (Partial p) st in
  state st' = snext st /\ state st' <> state st /\
  sheap st' (state st') = Some (spread (deref_state st (state st)) p) /\
  ((forall l, listener_actions l = []) -> length (listeners st) <= fuel ->
   notified st' = notified st ++ map (fun l => (l, snext st, state st)) (live (listeners st))).
Proof.
  cbv zeta. unfold setState.
  assert (Hne : Nat.eqb (state (alloc_state st (spread (deref_state st (state st)) p))) (state st) = false)
    by (cbn; apply Nat.eqb_neq; lia).
  rewrite Hne; cbn [negb].
  set (st1 := alloc_state st (spread (deref_state st (state st)) p)).
  set (st2 := notifyListeners listener_actions fuel (state st1) (state st) st1).
  assert (H2 : same_value st1 st2) by apply forEach_from_same_value.
  assert (Hp : forall st0, same_value st0 (persistState st0)).
  { intro st0; unfold persistState.
    destruct (persistKey st0) as [k|] eqn:E; [destruct (String.eqb k "")|];
      repeat split; cbn; congruence. }
  assert (Hn : forall st0, notified (persistState st0) = notified st0).
  { intro st0; unfold persistState.
    destruct (persistKey st0) as [k|]; [destruct (String.eqb k "")|]; reflexivity. }
  assert (H3 : same_value st1 (if persist st2 then persistState st2 else st2)).
  { destruct (persist st2); [eapply same_value_trans; [exact H2 | apply Hp] | exact H2]. }
  destruct H3 as (Hs & Hh & _).
  assert (Hs1 : state st1 = snext st) by reflexivity.
  repeat split.
  - congruence.
  - rewrite Hs, Hs1; lia.
  - rewrite Hs, Hh, Hs1; cbn; rewrite Nat.eqb_refl; reflexivity.
  - intros Hpas Hlen.
    assert (Hn2 : notified (if persist st2 then persistState st2 else st2) = notified st2)
      by (destruct (persist st2); [apply Hn | reflexivity]).
    rewrite Hn2. unfold st2, notifyListeners.
    rewrite forEach_from_passive by (cbn; auto).
    reflexivity.
Qed.

Lemma setState_partial_always_notifies_witness :
  state (store_with [Some 1; Some 2]) < snext (store_with [Some 1; Some 2]) /\
  let st' := setState (fun _ => []) 10 (Partial []) (store_with [Some 1; Some 2]) in
  state st' = snext (store_with [Some 1; Some 2]) /\
  state st' <> state (store_with [Some 1; Some 2]) /\
  sheap st' (state st') = Some (spread (deref_state (store_with [Some 1; Some 2])
                                                   (state (store_with [Some 1; Some 2]))) []) /\
  ((forall l, (fun _ : nat => @nil action) l = []) ->
   length (listeners (store_with [Some 1; Some 2])) <= 10 ->
   notified st' = notified (store_with [Some 1; Some 2]) ++
     map (fun l => (l, snext (store_with [Some 1; Some 2]), state (store_with [Some 1; Some 2])))
         (live (listeners (store_with [Some 1; Some 2])))).
Proof.
  split; [cbn; lia |].
  apply (setState_partial_always_notifies (fun _ => []) 10 (store_with [Some 1; Some 2]) []).
  cbn; lia.
Defined.

(** ** Hook bus *)

Definition error_eq_dec : forall x y : error, {x = y} + {x <> y}.
Proof.
  fix IH 1. intros [c d|m|] [c' d'|m'|]; try (right; discriminate).
  - destruct (string_dec c c') as [<-|Hc]; [| right; congruence].
    destruct d as [d|], d' as [d'|]; try (right; discriminate).
    + destruct (IH d d') as [<-|Hd]; [left; reflexivity | right; congruence].
    + left; reflexivity.
  - destruct (string_dec m m') as [<-|Hm]; [left; reflexivity | right; congruence].
  - left; reflexivity.
Defined.

Definition arg_eq_dec : forall x y : arg, {x = y} + {x <> y}.
Proof.
  decide equality; [apply string_dec | apply error_eq_dec | apply Nat.eq_dec].
Defined.

Definition call_eq_dec : forall x y : call, {x = y} + {x <> y}.
Proof.
  decide equality; [apply (list_eq_dec arg_eq_dec) | apply string_dec | apply Nat.eq_dec].
Defined.

(** The callbacks registered for [h] (none when [h] is not a key). *)
Definition cbs_of (m : list (string * list nat)) (h : string) : list nat :=
  match JsMap.get m h with Some c => c | None => [] end.

(** The invocations [emit(hook, ...args)] makes for callback [c] of the
    snapshot: its own call, then, when it throws and [hook] is not
    ['error'], the calls of [emit('error', thrownError, hook)]. *)
Definition emit_step (co : nat -> string -> list arg -> option error)
    (m : list (string * list nat)) (hook : string) (args : list arg) (c : nat)
  : list call :=
  Call c hook args ::
  match co c hook args with
  | Some err =>
      if String.eqb hook "error" then []
      else map (fun d => Call d "error" [AErr err; AStr hook]) (cbs_of m "error")
  | None => []
  end.

Lemma each_callback_error (co : nat -> string -> list arg -> option error)
    (nested : string -> list arg -> Bus -> Bus * option error)
    (args : list arg) (cbs : list nat) (b : Bus) :
  each_callback co nested "error" args cbs b
    = ({| hooks := hooks b; calls := calls b ++ map (fun c => Call c "error" args) cbs |}, None).
Proof.
  revert b; induction cbs as [|c cbs IH]; intro b; cbn.
  - destruct b; cbn; rewrite app_nil_r; reflexivity.
  - destruct (co c "error" args); cbn; rewrite IH; cbn; rewrite <- app_assoc; reflexivity.
Qed.

Lemma emit_depth_error (co : nat -> string -> list arg -> option error)
    (d : nat) (args : list arg) (b : Bus) :
  emit_depth co (S d) "error" args b
    = ({| hooks := hooks b;
          calls := calls b ++ map (fun c => Call c "error" args) (cbs_of (hooks b) "error") |},
       None).
Proof.
  cbn [emit_depth]; unfold cbs_of.
  destruct (JsMap.get (hooks b) "error") as [[|c cbs]|].
  - destruct b; cbn; rewrite app_nil_r; reflexivity.
  - apply each_callback_error.
  - destruct b; cbn; rewrite app_nil_r; reflexivity.
Qed.

Lemma each_callback_trace (co : nat -> string -> list arg -> option error)
    (hook : string) (args : list arg) (cbs : list nat) (b : Bus) :
  each_callback co (emit_depth co 1) hook args cbs b
    = ({| hooks := hooks b;
          calls := calls b ++ concat (map (emit_step co (hooks b) hook args) cbs) |}, None).
Proof.
  revert b; induction cbs as [|c cbs IH]; intro b; cbn [each_callback map concat].
  - destruct b; cbn; rewrite app_nil_r; reflexivity.
  - unfold emit_step at 1. unfold invoke.
    destruct (co c hook args) as [err|].
    + destruct (String.eqb hook "error") eqn:He; cbn [negb].
      * rewrite IH; cbn [hooks calls]. rewrite <- app_assoc. reflexivity.
      * rewrite emit_depth_error; cbn [hooks calls]. rewrite IH; cbn [hooks calls].
        rewrite <- !app_assoc. reflexivity.
    + rewrite IH; cbn [hooks calls]. rewrite <- app_assoc. reflexivity.
Qed.

(** [emit] never throws; it leaves the registrations alone and makes
    exactly the invocations of [emit_step] for each callback of the
    snapshot, in order. *)
Lemma emit_calls (co : nat -> string -> list arg -> option error)
    (hook : string) (args : list arg) (b : Bus) :
  emit co hook args b
    = ({| hooks := hooks b;
          calls := calls b ++ concat (map (emit_step co (hooks b) hook args)
                                          (cbs_of (hooks b) hook)) |}, None).
Proof.
  unfold emit; cbn [emit_depth]; unfold cbs_of.
  destruct (JsMap.get (hooks b) hook) as [[|c cbs]|].
  - destruct b; cbn; rewrite app_nil_r; reflexivity.
  - apply each_callback_trace.
  - destruct b; cbn; rewrite app_nil_r; reflexivity.
Qed.

Lemma count_emit_steps (co : nat -> string -> list arg -> option error)
    (m : list (string * list nat)) (hook : string) (args : list arg)
    (cbs : list nat) (c2 : nat) :
  NoDup cbs -> In c2 cbs ->
  count_occ call_eq_dec (concat (map (emit_step co m hook args) cbs)) (Call c2 hook args) = 1.
Proof.
  assert (Hstep : forall c, count_occ call_eq_dec (emit_step co m hook args c) (Call c2 hook args)
                            = if Nat.eqb c c2 then 1 else 0).
  { intro c. unfold emit_step.
    assert (Htail : count_occ call_eq_dec
                      (match co c hook args with
                       | Some err =>
                           if String.eqb hook "error" then []
                           else map (fun d => Call d "error" [AErr err; AStr hook]) (cbs_of m "error")
                       | None => []
                       end) (Call c2 hook args) = 0).
    { destruct (co c hook args) as [err|]; [| reflexivity].
      destruct (String.eqb hook "error") eqn:He; [reflexivity |].
      apply count_occ_not_In. intro Hin. apply in_map_iff in Hin.
      destruct Hin as (d & Heq & _). injection Heq as _ Hh _.
      subst hook. rewrite String.eqb_refl in He. discriminate. }
    destruct (Nat.eqb c c2) eqn:Hc.
    - apply Nat.eqb_eq in Hc; subst.
      rewrite count_occ_cons_eq by reflexivity. rewrite Htail. reflexivity.
    - apply Nat.eqb_neq in Hc.
      rewrite count_occ_cons_neq by congruence. exact Htail. }
  induction cbs as [|c cbs IH]; intros Hnd Hin; [destruct Hin |].
  cbn [map concat]. rewrite count_occ_app, Hstep.
  inversion Hnd as [|? ? Hnotin Hnd']; subst.
  destruct Hin as [->|Hin].
  - rewrite Nat.eqb_refl.
    assert (H0 : count_occ call_eq_dec (concat (map (emit_step co m hook args) cbs))
                           (Call c2 hook args) = 0).
    { clear IH Hnd Hnd'. induction cbs as [|c cbs IH']; [reflexivity |].
      cbn [map concat]. rewrite count_occ_app, Hstep.
      destruct (Nat.eqb c c2) eqn:Hc.
      - apply Nat.eqb_eq in Hc; subst. exfalso; apply Hnotin; left; reflexivity.
      - cbn. apply IH'. intro; apply Hnotin; right; assumption. }
    rewrite H0; reflexivity.
  - destruct (Nat.eqb c c2) eqn:Hc.
    + apply Nat.eqb_eq in Hc; subst. contradiction.
    + cbn. apply IH; assumption.
Qed.

(** C6.  When one callback [c1] registered for [e] throws [err] and another
    [c2] does not: [emit] returns normally (its exception channel is empty),
    [c2] is invoked exactly once with [args], and, if [e] is not ['error'],
    [c1]'s invocation is directly followed by the invocations of
    [emit('error', err, e)]; if [e] is ['error'] the invocations are just
    the snapshot's callbacks, called with [args], with no re-emission. *)
Theorem emit_error_isolation (co : nat -> string -> list arg -> option error)
    (b : Bus) (e : string) (args : list arg) (cbs : list nat)
    (c1 c2 : nat) (err : error)
    (Hcbs : JsMap.get (hooks b) e = Some cbs) (Hnd : NoDup cbs)
    (Hin1 : In c1 cbs) (Hin2 : In c2 cbs)
    (Hthrow : co c1 e args = Some err) (Hok : co c2 e args = None) :
  let '(b', thrown) := emit co e args b in
  thrown = None /\ hooks b' = hooks b /\
  count_occ call_eq_dec (calls b') (Call c2 e args)
    = S (count_occ call_eq_dec (calls b) (Call c2 e args)) /\
  (e <> "error" ->
   exists pre post,
     calls b' = calls b ++ pre ++ Call c1 e args ::
                map (fun d => Call d "error" [AErr err; AStr e]) (cbs_of (hooks b) "error")
                ++ post) /\
  (e = "error" -> calls b' = calls b ++ map (fun c => Call c "error" args) cbs).
Proof.
  assert (Hc : cbs_of (hooks b) e = cbs) by (unfold cbs_of; rewrite Hcbs; reflexivity).
  rewrite emit_calls, Hc. cbn [hooks calls].
  split; [reflexivity | split; [reflexivity | split; [| split]]].
  - rewrite count_occ_app, count_emit_steps by assumption. lia.
  - intro Hne. apply in_split in Hin1. destruct Hin1 as (l1 & l2 & ->).
    exists (concat (map (emit_step co (hooks b) e args) l1)),
           (concat (map (emit_step co (hooks b) e args) l2)).
    rewrite map_app, concat_app. cbn [map concat].
    unfold emit_step at 2. rewrite Hthrow.
    apply String.eqb_neq in Hne. rewrite Hne.
    cbn [app]. rewrite <- ?app_assoc. reflexivity.
  - intros ->. f_equal. clear Hc Hcbs Hnd Hin1 Hin2.
    induction cbs as [|c cbs IH]; [reflexivity |].
    cbn [map concat]. rewrite IH. unfold emit_step.
    destruct (co c "error" args); reflexivity.
Qed.

(** Callback 1 throws on ['stateChange'], callback 2 returns. *)
Definition first_throws : nat -> string -> list arg -> option error :=
  fun c h _ => if andb (Nat.eqb c 1) (String.eqb h "stateChange")
               then Some (PluginThrew "boom") else None.

Definition bus_12 : Bus := on "stateChange" 2 (on "stateChange" 1 (on "error" 0 new_bus)).

Lemma emit_error_isolation_witness :
  JsMap.get (hooks bus_12) "stateChange" = Some [1; 2] /\
  let '(b', thrown) := emit first_throws "stateChange" [ARef 1; ARef 0] bus_12 in
  thrown = None /\ hooks b' = hooks bus_12 /\
  count_occ call_eq_dec (calls b') (Call 2 "stateChange" [ARef 1; ARef 0])
    = S (count_occ call_eq_dec (calls bus_12) (Call 2 "stateChange" [ARef 1; ARef 0])) /\
  ("stateChange" <> "error" ->
   exists pre post,
     calls b' = calls bus_12 ++ pre ++ Call 1 "stateChange" [ARef 1; ARef 0] ::
                map (fun d => Call d "error" [AErr (PluginThrew "boom"); AStr "stateChange"])
                    (cbs_of (hooks bus_12) "error") ++ post) /\
  ("stateChange" = "error" ->
   calls b' = calls bus_12 ++ map (fun c => Call c "error" [ARef 1; ARef 0]) [1; 2]).
Proof.
  split; [vm_compute; reflexivity |].
  apply (emit_error_isolation first_throws bus_12 "stateChange" [ARef 1; ARef 0] [1; 2]
           1 2 (PluginThrew "boom")).
  - vm_compute; reflexivity.
  - repeat constructor; cbn; intuition discriminate.
  - cbn; auto.
  - cbn; auto.
  - reflexivity.
  - reflexivity.
Defined.

Section JsMapFacts.
Context {V : Type}.

Lemma get_none_not_in (m : list (string * V)) (k : string) :
  ~ In k (map fst m) -> JsMap.get m k = None.
Proof.
  induction m as [|[k' v] m IH]; intro Hn; cbn; [reflexivity |].
  destruct (String.eqb k k') eqn:E.
  - apply String.eqb_eq in E; subst. exfalso; apply Hn; left; reflexivity.
  - apply IH. intro; apply Hn; right; assumption.
Qed.

Lemma keys_delete (m : list (string * V)) (k : string) :
  NoDup (map fst m) -> ~ In k (map fst (JsMap.delete m k)).
Proof.
  induction m as [|[k' v] m IH]; intro Hnd; cbn; [auto |].
  inversion Hnd as [|? ? Hnotin Hnd']; subst.
  destruct (String.eqb k k') eqn:E.
  - apply String.eqb_eq in E; subst. exact Hnotin.
  - cbn. intros [Heq|Hin]; [subst; rewrite String.eqb_refl in E; discriminate |].
    exact (IH Hnd' Hin).
Qed.

Lemma get_delete_same (m : list (string * V)) (k : string) :
  NoDup (map fst m) -> JsMap.get (JsMap.delete m k) k = None.
Proof. intro Hnd. apply get_none_not_in, keys_delete, Hnd. Qed.

Lemma get_delete_other (m : list (string * V)) (k k' : string) :
  k' <> k -> JsMap.get (JsMap.delete m k) k' = JsMap.get m k'.
Proof.
  intro Hne. induction m as [|[k0 v] m IH]; cbn; [reflexivity |].
  destruct (String.eqb k k0) eqn:E.
  - apply String.eqb_eq in E; subst.
    apply String.eqb_neq in Hne. rewrite Hne. reflexivity.
  - cbn. rewrite IH. reflexivity.
Qed.

Lemma get_app_none (m : list (string * V)) (k : string) (v : V) :
  JsMap.get m k = None -> JsMap.get (m ++ [(k, v)]) k = Some v.
Proof.
  induction m as [|[k0 v0] m IH]; cbn; intro H.
  - rewrite String.eqb_refl. reflexivity.
  - destruct (String.eqb k k0); [discriminate | apply IH, H].
Qed.

Lemma get_replace_same (m : list (string * V)) (k : string) (v : V) :
  JsMap.has m k = true -> JsMap.get (JsMap.replace m k v) k = Some v.
Proof.
  unfold JsMap.has. induction m as [|[k0 v0] m IH]; cbn; intro H; [discriminate |].
  destruct (String.eqb k k0) eqn:E; cbn; rewrite E; [reflexivity | apply IH, H].
Qed.

Lemma get_set_same (m : list (string * V)) (k : string) (v : V) :
  JsMap.get (JsMap.set m k v) k = Some v.
Proof.
  unfold JsMap.set. destruct (JsMap.has m k) eqn:H.
  - apply get_replace_same, H.
  - apply get_app_none. unfold JsMap.has in H.
    destruct (JsMap.get m k); [discriminate | reflexivity].
Qed.
End JsMapFacts.

(** C7 counterexample.  On a freshly constructed bus, [clear('stateChange')]
    removes ['stateChange'] from the hook registry instead of leaving it
    mapped to an empty set. *)
Lemma clear_event_forgets_key :
  JsMap.get (hooks new_bus) "stateChange" = Some [] /\
  JsMap.get (hooks (clear (Some "stateChange") new_bus)) "stateChange" = None /\
  JsMap.get (hooks (clear (Some "stateChange") new_bus)) "stateChange" <> Some [].
Proof. vm_compute. split; [reflexivity | split; [reflexivity | discriminate]]. Qed.

(** C7 (as amended).  On a bus whose registry has distinct keys,
    [clear(e)] leaves [e] without callbacks ([getCallbackCount(e) = 0],
    [hasCallbacks(e) = false], [e] not among [getRegisteredHooks()]) by
    deleting its key, leaves every other event's entry as it was, and a
    later [on(e, cb)] recreates the entry with just [cb].  Only [clear()]
    without an argument restores the six enumerated events, each with an
    empty set (and nothing else). *)
Theorem clear_event_drops_callbacks (b : Bus) (e : string) (cb : nat)
    (Hkeys : NoDup (map fst (hooks b))) :
  let b' := clear (Some e) b in
  JsMap.get (hooks b') e = None /\
  getCallbackCount b' e = 0 /\ hasCallbacks b' e = false /\
  ~ In e (getRegisteredHooks b') /\
  (forall e', e' <> e -> JsMap.get (hooks b') e' = JsMap.get (hooks b) e') /\
  JsMap.get (hooks (on e cb b')) e = Some [cb] /\
  hooks (clear None b) = map (fun h => (h, [])) hookTypes /\
  (forall h, In h hookTypes -> JsMap.get (hooks (clear None b)) h = Some []).
Proof.
  cbv zeta. cbn [clear hooks].
  assert (Hnone : JsMap.get (JsMap.delete (hooks b) e) e = None)
    by (apply get_delete_same, Hkeys).
  split; [exact Hnone |].
  unfold getCallbackCount, hasCallbacks, getRegisteredHooks; cbn [hooks].
  rewrite Hnone.
  split; [reflexivity | split; [reflexivity | split; [| split; [| split; [| split]]]]].
  - intro Hin. apply (keys_delete (hooks b) e Hkeys).
    apply in_map_iff in Hin. destruct Hin as (kv & Hk & Hf).
    apply filter_In in Hf. apply in_map_iff. exists kv. tauto.
  - intros e' Hne. apply get_delete_other, Hne.
  - assert (Hh : JsMap.has (JsMap.delete (hooks b) e) e = false)
      by (unfold JsMap.has; rewrite Hnone; reflexivity).
    unfold on; cbn [hooks].
    rewrite get_set_same, Hh, get_set_same. reflexivity.
  - vm_compute. reflexivity.
  - intros h Hh. vm_compute in Hh.
    repeat (destruct Hh as [<-|Hh]; [vm_compute; reflexivity |]). destruct Hh.
Qed.

Lemma clear_event_drops_callbacks_witness :
  NoDup (map fst (hooks bus_12)) /\
  let b' := clear (Some "stateChange") bus_12 in
  JsMap.get (hooks b') "stateChange" = None /\
  getCallbackCount b' "stateChange" = 0 /\ hasCallbacks b' "stateChange" = false /\
  ~ In "stateChange" (getRegisteredHooks b') /\
  (forall e', e' <> "stateChange" -> JsMap.get (hooks b') e' = JsMap.get (hooks bus_12) e') /\
  JsMap.get (hooks (on "stateChange" 7 b')) "stateChange" = Some [7] /\
  hooks (clear None bus_12) = map (fun h => (h, [])) hookTypes /\
  (forall h, In h hookTypes -> JsMap.get (hooks (clear None bus_12)) h = Some []).
Proof.
  assert (Hk : NoDup (map fst (hooks bus_12))).
  { vm_compute. repeat constructor; cbn; intuition discriminate. }
  split; [exact Hk |].
  apply (clear_event_drops_callbacks bus_12 "stateChange" 7 Hk).
Defined.

(** ** The caller's descriptors are never mutated *)

(** The registry operations a caller (or [destroy()]) performs. *)
Inductive reg_op : Type :=
| OpRegister (r : nat)
| OpUnregister (n : string)
| OpEnable (n : string)
| OpDisable (n : string)
| OpDestroyPasses.

(** One operation; [OpDestroyPasses] is the plugin part of [destroy()]. *)
Definition run_op (op : reg_op) : RM unit :=
  match op with
  | OpRegister r => register r
  | OpUnregister n => unregister n
  | OpEnable n => enable n
  | OpDisable n => disable n
  | OpDestroyPasses =>
      s <- get_reg ;;
      destroy_plugins (getAll s) (sortPluginsByDependenciesReverse (getAll s) (heap s))
  end.

(** A sequence of operations; a rejected one keeps its effects so far and
    the caller carries on. *)
Fixpoint run_ops (ops : list reg_op) (s : Registry) : Registry :=
  match ops with
  | [] => s
  | op :: ops' => run_ops ops' (fst (run_op op s))
  end.

Lemma in_values_set {V} (m : list (string * V)) (k : string) (v x : V) :
  In x (JsMap.values (JsMap.set m k v)) -> In x (JsMap.values m) \/ x = v.
Proof.
  unfold JsMap.set, JsMap.values. destruct (JsMap.has m k).
  - clear. induction m as [|[k0 v0] m IH]; cbn; [tauto |].
    destruct (String.eqb k k0); cbn; intros [H|H]; subst; try tauto.
    all: destruct (IH H); tauto.
  - rewrite map_app. intro H. apply in_app_or in H. cbn in H. intuition.
Qed.

Lemma in_values_delete {V} (m : list (string * V)) (k : string) (x : V) :
  In x (JsMap.values (JsMap.delete m k)) -> In x (JsMap.values m).
Proof.
  unfold JsMap.values. induction m as [|[k0 v0] m IH]; cbn; [tauto |].
  destruct (String.eqb k k0); cbn; [tauto |]. intros [H|H]; [tauto | right; auto].
Qed.

Lemma get_in_values {V} (m : list (string * V)) (k : string) (v : V) :
  JsMap.get m k = Some v -> In v (JsMap.values m).
Proof.
  unfold JsMap.values. induction m as [|[k0 v0] m IH]; cbn; [discriminate |].
  destruct (String.eqb k k0); [intro H; injection H as ->; left; reflexivity |].
  intro H; right; auto.
Qed.

Lemma lookup_plugin_in (s : Registry) (n : string) (r : nat) (p : Plugin) :
  lookup_plugin s n = Some (r, p) -> In r (getAll s).
Proof.
  unfold lookup_plugin, getAll. destruct (JsMap.get (plugins s) n) as [r'|] eqn:E;
    [| discriminate].
  destruct (objs (heap s) r'); [| discriminate].
  intro H; injection H as -> _. eapply get_in_values; eassumption.
Qed.

Lemma fold_left_inv {A B} (P : A -> Prop) (f : A -> B -> A) (l : list B) (a : A) :
  P a -> (forall a b, In b l -> P a -> P (f a b)) -> P (fold_left f l a).
Proof.
  revert a; induction l as [|b l IH]; intros a Ha Hf; cbn; [exact Ha |].
  apply IH; [apply Hf; [left; reflexivity | exact Ha] |].
  intros a' b' Hin; apply Hf; right; exact Hin.
Qed.

Lemma visit_sorted_incl (fuel : nat) (plugins : list nat) (h : Heap) (plugin : nat)
    (vd vg : list string) (so : list nat) :
  In plugin plugins ->
  forall x, In x (snd (visit fuel plugins h plugin vd vg so)) -> In x so \/ In x plugins.
Proof.
  revert plugin vd vg so; induction fuel as [|fuel IH]; intros plugin vd vg so Hp x; cbn;
    [tauto |].
  destruct (objs h plugin) as [p|]; cbn; [| tauto].
  destruct (set_has vg (name p)); cbn; [tauto |].
  destruct (set_has vd (name p)); cbn; [tauto |].
  match goal with
  | |- context [fold_left ?step plugins ?a0] =>
      assert (Hf : forall y, In y (snd (fold_left step plugins a0)) -> In y so \/ In y plugins);
      [ apply (fold_left_inv (fun acc => forall y, In y (snd acc) -> In y so \/ In y plugins));
        [ cbn; tauto
        | intros [[vd0 vg0] so0] b Hb Hacc y; cbn beta iota;
          destruct (objs h b) as [o|]; [| exact (Hacc y)];
          destruct (existsb (String.eqb (name p)) (deps_or_nil (dependencies o)));
          [| exact (Hacc y)];
          intro Hy; destruct (IH b vd0 vg0 so0 Hb y Hy) as [H|H];
          [exact (Hacc y H) | tauto] ]
      | destruct (fold_left step plugins a0) as [[vd1 vg1] so1] eqn:E ]
  end.
  cbn. intro Hx. apply in_app_or in Hx. destruct Hx as [Hx|[<-|[]]]; [| tauto].
  apply Hf. exact Hx.
Qed.

Lemma sort_incl (plugins : list nat) (h : Heap) (x : nat) :
  In x (sortPluginsByDependenciesReverse plugins h) -> In x plugins.
Proof.
  unfold sortPluginsByDependenciesReverse.
  assert (H : forall y, In y (snd (fold_left
     (fun (acc : list string * list string * list nat) plugin =>
        let '(vd, vg, so) := acc in
        visit (S (S (length plugins))) plugins h plugin vd vg so)
     plugins ([], [], []))) -> In y plugins).
  { apply (fold_left_inv (fun acc => forall y, In y (snd acc) -> In y plugins)).
    - cbn; tauto.
    - intros [[vd vg] so] b Hb Hacc y Hy.
      destruct (visit_sorted_incl _ plugins h b vd vg so Hb y Hy); auto. }
  destruct (fold_left _ plugins ([], [], [])) as [[vd vg] so] eqn:E.
  intro Hx. apply H. exact Hx.
Qed.

Section CallerObject.
(** A descriptor object [q] held by the caller, with contents [p]: it was
    allocated ([q < next]) and is not one of the registry's objects. *)
Variable q : nat.
Variable p : Plugin.

Definition caller_owned (s : Registry) : Prop :=
  objs (heap s) q = Some p /\ q < next (heap s) /\
  (forall r, In r (getAll s) -> r <> q).

Definition keeps {A} (m : RM A) : Prop :=
  forall s, caller_owned s -> caller_owned (fst (m s)).

Lemma keeps_ret {A} (a : A) : keeps (ret a).
Proof. intros s H; exact H. Qed.

Lemma keeps_throw {A} (e : error) : keeps (@throw A e).
Proof. intros s H; exact H. Qed.

Lemma keeps_bind {A B} (m : RM A) (k : A -> RM B) :
  keeps m -> (forall a, keeps (k a)) -> keeps (bind m k).
Proof.
  intros Hm Hk s H. unfold bind.
  specialize (Hm s H). destruct (m s) as [s' [e|a]]; [exact Hm | apply Hk, Hm].
Qed.

Lemma keeps_get {B} (k : Registry -> RM B) :
  (forall s, caller_owned s -> keeps (k s)) -> keeps (bind get_reg k).
Proof. intros Hk s H. unfold bind, get_reg. apply Hk; assumption. Qed.

Lemma keeps_put (s' : Registry) : caller_owned s' -> keeps (put_reg s').
Proof. intros H s _; exact H. Qed.

Lemma keeps_try {A} (m : RM A) (h : error -> RM A) :
  keeps m -> (forall e, keeps (h e)) -> keeps (try_catch m h).
Proof.
  intros Hm Hh s H. unfold try_catch.
  specialize (Hm s H). destruct (m s) as [s' [e|a]]; [apply Hh, Hm | exact Hm].
Qed.

Lemma keeps_for_each {A} (xs : list A) (f : A -> RM unit) :
  (forall x, In x xs -> keeps (f x)) -> keeps (for_each xs f).
Proof.
  induction xs as [|x xs IH]; intro Hf; cbn; [apply keeps_ret |].
  apply keeps_bind; [apply Hf; left; reflexivity |].
  intros _; apply IH; intros y Hy; apply Hf; right; exact Hy.
Qed.

Lemma keeps_run_callback (c : option outcome) : keeps (run_callback c).
Proof. destruct c as [[|m]|]; cbn; [apply keeps_ret | apply keeps_throw | apply keeps_ret]. Qed.

Lemma keeps_set_enabled_at (r : nat) (b : bool) : r <> q -> keeps (set_enabled_at r b).
Proof.
  intro Hr. unfold set_enabled_at. apply keeps_get; intros s Hs.
  destruct (objs (heap s) r) as [p'|]; [| apply keeps_ret].
  unfold write_plugin. apply keeps_get; intros s' (Hq & Hn & Hall).
  apply keeps_put. split; [| split]; cbn.
  - destruct (Nat.eqb q r) eqn:E; [apply Nat.eqb_eq in E; congruence | exact Hq].
  - exact Hn.
  - exact Hall.
Qed.

(** Only the dependency graph changes. *)
Lemma keeps_graph_update (s : Registry) (g : list (string * list string)) :
  caller_owned s ->
  caller_owned {| plugins := plugins s; dependencyGraph := g; heap := heap s |}.
Proof. intro H; exact H. Qed.

Ltac keeps_step :=
  match goal with
  | |- keeps (bind get_reg _) => apply keeps_get; intros ? ?
  | |- keeps (bind _ _) => apply keeps_bind; [| intros ?]
  | |- keeps (try_catch _ _) => apply keeps_try; [| intros ?]
  | |- keeps (ret _) => apply keeps_ret
  | |- keeps (throw _) => apply keeps_throw
  | |- keeps (run_callback _) => apply keeps_run_callback
  | |- keeps (for_each _ _) => apply keeps_for_each; intros ? ?
  | |- keeps (if ?c then _ else _) => destruct c
  | |- keeps (match ?c with _ => _ end) => destruct c
  end.

Lemma keeps_validateDependencies (plugin : Plugin) : keeps (validateDependencies plugin).
Proof.
  unfold validateDependencies. destruct (dependencies plugin); repeat keeps_step.
Qed.

Lemma keeps_updateDependencyGraph (plugin : Plugin) : keeps (updateDependencyGraph plugin).
Proof.
  unfold updateDependencyGraph. destruct (dependencies plugin); repeat keeps_step.
  apply keeps_put, keeps_graph_update; assumption.
Qed.

Lemma keeps_register (r : nat) : keeps (register r).
Proof.
  unfold register. apply keeps_get; intros s0 _.
  destruct (objs (heap s0) r) as [plugin|]; [| apply keeps_throw].
  apply keeps_try; [| intros; apply keeps_throw].
  apply keeps_get; intros s1 _.
  apply keeps_bind; [destruct (JsMap.has _ _); repeat keeps_step | intros _].
  apply keeps_bind; [apply keeps_validateDependencies | intros _].
  apply keeps_get; intros s (Hq & Hn & Hall).
  cbn [heap_alloc].
  apply keeps_bind; [| intros _].
  - apply keeps_put. split; [| split]; cbn.
    + destruct (Nat.eqb q (next (heap s))) eqn:E; [apply Nat.eqb_eq in E; lia | exact Hq].
    + lia.
    + intros r' Hr'. unfold getAll in Hr'. cbn in Hr'.
      destruct (in_values_set _ _ _ _ Hr') as [H|H]; [apply Hall, H | lia].
  - apply keeps_bind; [apply keeps_updateDependencyGraph | intros _].
    destruct (enabled plugin); repeat keeps_step.
Qed.

Lemma keeps_unregister (n : string) : keeps (unregister n).
Proof.
  unfold unregister. apply keeps_get; intros s0 _.
  destruct (lookup_plugin s0 n) as [[r plugin]|]; [| apply keeps_throw].
  apply keeps_try; [| intros; apply keeps_throw].
  apply keeps_get; intros s1 _.
  apply keeps_bind; [destruct (getDependents _ _); repeat keeps_step | intros _].
  apply keeps_bind; [destruct (enabled plugin); repeat keeps_step | intros _].
  apply keeps_get; intros s (Hq & Hn & Hall).
  apply keeps_put. split; [| split]; cbn; [exact Hq | exact Hn |].
  intros r' Hr'. apply Hall. unfold getAll. eapply in_values_delete; exact Hr'.
Qed.

Lemma keeps_enable (n : string) : keeps (enable n).
Proof.
  unfold enable. apply keeps_get; intros s0 (Hq0 & Hn0 & Hall0).
  destruct (lookup_plugin s0 n) as [[r plugin]|] eqn:Hl; [| apply keeps_throw].
  assert (Hr : r <> q) by (apply Hall0; eapply lookup_plugin_in; exact Hl).
  destruct (enabled plugin); [apply keeps_ret |].
  apply keeps_try; [| intros; apply keeps_throw].
  apply keeps_bind; [destruct (dependencies plugin); repeat keeps_step | intros _].
  apply keeps_bind; [apply keeps_run_callback | intros _].
  apply keeps_set_enabled_at, Hr.
Qed.

Lemma keeps_disable (n : string) : keeps (disable n).
Proof.
  unfold disable. apply keeps_get; intros s0 (Hq0 & Hn0 & Hall0).
  destruct (lookup_plugin s0 n) as [[r plugin]|] eqn:Hl; [| apply keeps_throw].
  assert (Hr : r <> q) by (apply Hall0; eapply lookup_plugin_in; exact Hl).
  destruct (negb (enabled plugin)); [apply keeps_ret |].
  apply keeps_try; [| intros; apply keeps_throw].
  apply keeps_get; intros s1 _.
  apply keeps_bind; [destruct (filter _ _); repeat keeps_step | intros _].
  apply keeps_bind; [apply keeps_run_callback | intros _].
  apply keeps_set_enabled_at, Hr.
Qed.

Lemma keeps_destroy_plugins (allPlugins sortedPlugins : list nat) :
  (forall r, In r sortedPlugins -> r <> q) -> keeps (destroy_plugins allPlugins sortedPlugins).
Proof.
  intro Hsorted. unfold destroy_plugins.
  apply keeps_bind; [| intros _].
  - apply keeps_for_each; intros r Hin. apply keeps_get; intros s1 _.
    destruct (objs (heap s1) r) as [plugin|]; [| apply keeps_ret].
    destruct (enabled plugin); [| apply keeps_ret].
    apply keeps_try; [apply keeps_disable | ].
    intros _. apply keeps_bind; [apply keeps_run_callback | intros _].
    apply keeps_set_enabled_at, Hsorted, Hin.
  - apply keeps_for_each; intros r Hin. apply keeps_get; intros s1 _.
    destruct (objs (heap s1) r) as [plugin|]; [| apply keeps_ret].
    apply keeps_try; [apply keeps_unregister | intros _; apply keeps_ret].
Qed.

Lemma keeps_run_op (op : reg_op) : keeps (run_op op).
Proof.
  destruct op as [r|n|n|n|]; cbn [run_op].
  - apply keeps_register.
  - apply keeps_unregister.
  - apply keeps_enable.
  - apply keeps_disable.
  - apply keeps_get; intros s (_ & _ & Hall).
    apply keeps_destroy_plugins. intros r Hr. apply Hall. eapply sort_incl; exact Hr.
Qed.

Lemma run_ops_caller_owned (ops : list reg_op) (s : Registry) :
  caller_owned s -> caller_owned (run_ops ops s).
Proof.
  revert s; induction ops as [|op ops IH]; intros s H; cbn; [exact H |].
  apply IH, keeps_run_op, H.
Qed.
End CallerObject.

(** C9.  [register] stores a shallow copy: for a descriptor object [q] of
    the caller (allocated, with contents [p], and not one of the registry's
    stored objects), every sequence of registry operations, [register] of
    [q] itself, [enable], [disable], [unregister] and the plugin passes of
    [destroy()] (with their forced [enabled = false]) included, leaves the
    object [q] exactly as it was. *)
Theorem caller_descriptor_never_mutated (ops : list reg_op) (s : Registry)
    (q : nat) (p : Plugin)
    (Hq : objs (heap s) q = Some p) (Halloc : q < next (heap s))
    (Hnot : forall r, In r (getAll s) -> r <> q) :
  objs (heap (run_ops ops s)) q = Some p.
Proof.
  destruct (run_ops_caller_owned q p ops s (conj Hq (conj Halloc Hnot))) as [H _].
  exact H.
Qed.

(** Register A, enable it, register B, enable it, then the destroy passes:
    the stored copies are enabled and then forced off, and A's descriptor
    stays as the caller built it, disabled. *)
Definition c9_ops : list reg_op :=
  [OpRegister 0; OpEnable "A"; OpRegister 1; OpEnable "B"; OpDisable "A"; OpDestroyPasses].

Lemma caller_descriptor_never_mutated_witness :
  objs (heap (empty_registry (heap_AB false))) 0 = Some (plugin_A false) /\
  0 < next (heap (empty_registry (heap_AB false))) /\
  option_map enabled (objs (heap (run_ops [OpRegister 0; OpEnable "A"] (empty_registry (heap_AB false)))) 2)
    = Some true /\
  objs (heap (run_ops c9_ops (empty_registry (heap_AB false)))) 0 = Some (plugin_A false).
Proof.
  split; [reflexivity | split; [cbn; lia | split; [vm_compute; reflexivity |]]].
  apply (caller_descriptor_never_mutated c9_ops (empty_registry (heap_AB false)) 0 (plugin_A false)).
  - reflexivity.
  - cbn; lia.
  - intros r [].
Defined.

(** * Further properties of the code *)
(** ** Further facts: maps, sets and the monad *)

Section JsMapMore.
Context {V : Type}.

Lemma has_in_keys (m : list (string * V)) (k : string) :
  JsMap.has m k = true <-> In k (map fst m).
Proof.
  unfold JsMap.has. induction m as [|[k' v] m IH]; cbn; [split; [discriminate | tauto] |].
  destruct (String.eqb k k') eqn:E.
  - apply String.eqb_eq in E; subst. split; [left; reflexivity | reflexivity].
  - apply String.eqb_neq in E. rewrite IH.
    split; [right; assumption | intros [H|H]; [congruence | assumption]].
Qed.

Lemma has_false_not_in (m : list (string * V)) (k : string) :
  JsMap.has m k = false <-> ~ In k (map fst m).
Proof.
  rewrite <- has_in_keys. destruct (JsMap.has m k); split; congruence.
Qed.

Lemma get_some_in (m : list (string * V)) (k : string) (v : V) :
  JsMap.get m k = Some v -> In (k, v) m.
Proof.
  induction m as [|[k' v'] m IH]; cbn; [discriminate |].
  destruct (String.eqb k k') eqn:E; intro H.
  - injection H as ->. apply String.eqb_eq in E; subst. left; reflexivity.
  - right; auto.
Qed.

Lemma in_get_nodup (m : list (string * V)) (k : string) (v : V) :
  NoDup (map fst m) -> In (k, v) m -> JsMap.get m k = Some v.
Proof.
  induction m as [|[k' v'] m IH]; cbn; intros Hnd Hin; [destruct Hin |].
  inversion Hnd as [|? ? Hn Hnd']; subst.
  destruct Hin as [Heq|Hin].
  - injection Heq as -> ->. rewrite String.eqb_refl. reflexivity.
  - destruct (String.eqb k k') eqn:E.
    + apply String.eqb_eq in E; subst. exfalso; apply Hn.
      apply in_map_iff. exists (k', v); auto.
    + auto.
Qed.

Lemma get_keys_some (m : list (string * V)) (k : string) :
  In k (map fst m) -> exists v, JsMap.get m k = Some v.
Proof.
  intro H. apply has_in_keys in H. unfold JsMap.has in H.
  destruct (JsMap.get m k) as [v|]; [exists v; reflexivity | discriminate].
Qed.

Lemma get_replace_other (m : list (string * V)) (k k' : string) (v : V) :
  k' <> k -> JsMap.get (JsMap.replace m k v) k' = JsMap.get m k'.
Proof.
  intro Hne. induction m as [|[k0 v0] m IH]; cbn; [reflexivity |].
  destruct (String.eqb k k0) eqn:E; cbn.
  - apply String.eqb_eq in E; subst.
    destruct (String.eqb k' k0) eqn:E'; [apply String.eqb_eq in E'; congruence | reflexivity].
  - destruct (String.eqb k' k0); [reflexivity | exact IH].
Qed.

Lemma get_app_other (m : list (string * V)) (k k' : string) (v : V) :
  k' <> k -> JsMap.get (m ++ [(k, v)]) k' = JsMap.get m k'.
Proof.
  intro Hne. induction m as [|[k0 v0] m IH]; cbn.
  - destruct (String.eqb k' k) eqn:E; [apply String.eqb_eq in E; congruence | reflexivity].
  - destruct (String.eqb k' k0); [reflexivity | exact IH].
Qed.

Lemma get_set_other (m : list (string * V)) (k k' : string) (v : V) :
  k' <> k -> JsMap.get (JsMap.set m k v) k' = JsMap.get m k'.
Proof.
  intro Hne. unfold JsMap.set. destruct (JsMap.has m k).
  - apply get_replace_other, Hne.
  - apply get_app_other, Hne.
Qed.

Lemma set_absent (m : list (string * V)) (k : string) (v : V) :
  JsMap.has m k = false -> JsMap.set m k v = m ++ [(k, v)].
Proof. intro H. unfold JsMap.set. rewrite H. reflexivity. Qed.

Lemma in_delete (m : list (string * V)) (k : string) (kv : string * V) :
  In kv (JsMap.delete m k) -> In kv m.
Proof.
  induction m as [|[k0 v0] m IH]; cbn; [tauto |].
  destruct (String.eqb k k0); cbn; [tauto |]. intros [H|H]; [left; exact H | right; auto].
Qed.

Lemma keys_of_delete (m : list (string * V)) (k x : string) :
  In x (map fst (JsMap.delete m k)) -> In x (map fst m).
Proof.
  intro H. apply in_map_iff in H. destruct H as (kv & <- & H).
  apply in_map, (in_delete m k), H.
Qed.

Lemma nodup_delete (m : list (string * V)) (k : string) :
  NoDup (map fst m) -> NoDup (map fst (JsMap.delete m k)).
Proof.
  induction m as [|[k0 v0] m IH]; cbn; intro Hnd; [constructor |].
  inversion Hnd as [|? ? Hn Hnd']; subst.
  destruct (String.eqb k k0); [assumption |].
  cbn. constructor; [| auto]. intro Hin. apply Hn. eapply keys_of_delete; exact Hin.
Qed.

Lemma keys_delete_other (m : list (string * V)) (k x : string) :
  In x (map fst m) -> x <> k -> In x (map fst (JsMap.delete m k)).
Proof.
  induction m as [|[k0 v0] m IH]; cbn; [tauto |]. intros [H|H] Hne.
  - subst. destruct (String.eqb k x) eqn:E;
      [apply String.eqb_eq in E; congruence | left; reflexivity].
  - destruct (String.eqb k k0); [exact H | right; auto].
Qed.

Lemma in_delete_neq (m : list (string * V)) (k x : string) (v : V) :
  NoDup (map fst m) -> In (x, v) (JsMap.delete m k) -> x <> k.
Proof.
  intros Hnd Hin ->. apply (keys_delete m k Hnd).
  apply in_map_iff. exists (k, v). auto.
Qed.

Lemma nodup_app_key (m : list (string * V)) (k : string) (v : V) :
  NoDup (map fst m) -> ~ In k (map fst m) -> NoDup (map fst (m ++ [(k, v)])).
Proof.
  intros Hnd Hn. rewrite map_app. cbn.
  apply NoDup_app; [exact Hnd | constructor; [tauto | constructor] |].
  intros x Hx [<-|[]]. exact (Hn Hx).
Qed.
End JsMapMore.

Lemma set_add_in (s : list string) (x y : string) : In y (set_add s x) <-> In y s \/ y = x.
Proof.
  unfold set_add. destruct (existsb (String.eqb x) s) eqn:E.
  - split; [tauto |]. intros [H| ->]; [exact H |].
    apply existsb_exists in E. destruct E as (z & Hz & Heq).
    apply String.eqb_eq in Heq; subst; exact Hz.
  - rewrite in_app_iff; cbn. intuition.
Qed.

Lemma set_has_in (s : list string) (x : string) : set_has s x = true <-> In x s.
Proof.
  unfold set_has. rewrite existsb_exists. split.
  - intros (y & Hy & Heq). apply String.eqb_eq in Heq; subst; exact Hy.
  - intro H. exists x. split; [exact H | apply String.eqb_refl].
Qed.

(** Running a bound or guarded computation whose first part has settled. *)
Lemma bind_inr {A B} (m : RM A) (k : A -> RM B) (s s' : Registry) (a : A) :
  m s = (s', inr a) -> bind m k s = k a s'.
Proof. intro H. unfold bind. rewrite H. reflexivity. Qed.

Lemma bind_inl {A B} (m : RM A) (k : A -> RM B) (s s' : Registry) (e : error) :
  m s = (s', inl e) -> bind m k s = (s', inl e).
Proof. intro H. unfold bind. rewrite H. reflexivity. Qed.

Lemma try_inr {A} (m : RM A) (h : error -> RM A) (s s' : Registry) (a : A) :
  m s = (s', inr a) -> try_catch m h s = (s', inr a).
Proof. intro H. unfold try_catch. rewrite H. reflexivity. Qed.

Lemma try_inl {A} (m : RM A) (h : error -> RM A) (s s' : Registry) (e : error) :
  m s = (s', inl e) -> try_catch m h s = h e s'.
Proof. intro H. unfold try_catch. rewrite H. reflexivity. Qed.

(** A loop of checks that read the registry: it stops at the first failing
    one and never changes the registry. *)
Lemma for_each_check {A} (xs : list A) (f : A -> RM unit) (ok : A -> bool) (e : error)
    (s : Registry) :
  (forall x, In x xs -> f x s = (s, if ok x then inr tt else inl e)) ->
  for_each xs f s = (s, if forallb ok xs then inr tt else inl e).
Proof.
  induction xs as [|x xs IH]; intro Hf; cbn [for_each forallb]; [reflexivity |].
  destruct (ok x) eqn:Hx.
  - rewrite (bind_inr _ _ s s tt) by (rewrite Hf, Hx by (left; reflexivity); reflexivity).
    apply IH. intros y Hy. apply Hf. right; exact Hy.
  - rewrite (bind_inl _ _ s s e) by (rewrite Hf, Hx by (left; reflexivity); reflexivity).
    reflexivity.
Qed.

Lemma run_callback_spec (c : option outcome) (s : Registry) :
  run_callback c s = (s, match c with Some (Throws m) => inl (PluginThrew m) | _ => inr tt end).
Proof. destruct c as [[|m]|]; reflexivity. Qed.

Lemma validate_check (ds : list string) (s : Registry) :
  for_each ds (fun dep =>
    s <- get_reg ;;
    if JsMap.has (plugins s) dep then ret tt
    else throw (SDKError "DEPENDENCY_NOT_FOUND" None)) s
  = (s, if forallb (fun d => JsMap.has (plugins s) d) ds then inr tt
        else inl (SDKError "DEPENDENCY_NOT_FOUND" None)).
Proof.
  apply for_each_check. intros d _. unfold bind, get_reg.
  destruct (JsMap.has (plugins s) d); reflexivity.
Qed.

(** [validateDependencies] only reads the registry; it resolves only when
    every declared dependency is registered, and a missing one makes it
    reject with [DEPENDENCY_NOT_FOUND]. *)
Lemma validateDependencies_spec (p : Plugin) (s : Registry) :
  exists res, validateDependencies p s = (s, res) /\
    (res = inr tt -> forall d, In d (deps_or_nil (dependencies p)) ->
                      JsMap.has (plugins s) d = true) /\
    ((exists d, In d (deps_or_nil (dependencies p)) /\ JsMap.has (plugins s) d = false) ->
     res = inl (SDKError "DEPENDENCY_NOT_FOUND" None)).
Proof.
  unfold validateDependencies. destruct (dependencies p) as [ds|]; cbn [deps_or_nil].
  2: { eexists; split; [reflexivity | split; [intros _ d [] | intros (d & [] & _)]]. }
  destruct (forallb (fun d => JsMap.has (plugins s) d) ds) eqn:Hall.
  - rewrite (bind_inr _ _ s s tt) by (rewrite validate_check, Hall; reflexivity).
    rewrite forallb_forall in Hall.
    unfold bind, get_reg.
    destruct (hasCycle _ _ _ _ _ _) as [[[|] ?] ?];
      (eexists; split; [reflexivity | split]);
      try (intros _; exact Hall);
      try (intros (d & Hd & Hf); rewrite Hall in Hf by exact Hd; discriminate).
  - rewrite (bind_inl _ _ s s (SDKError "DEPENDENCY_NOT_FOUND" None))
      by (rewrite validate_check, Hall; reflexivity).
    eexists; split; [reflexivity | split; [discriminate | reflexivity]].
Qed.

(** One step of the loop of [updateDependencyGraph] on the graph [g]. *)
Lemma graph_step (g : list (string * list string)) (d n : string) :
  let g0 := if JsMap.has g d then g else JsMap.set g d [] in
  let cur := match JsMap.get g0 d with Some l => l | None => [] end in
  let g' := JsMap.set g0 d (set_add cur n) in
  (forall k x, In x (match JsMap.get g k with Some l => l | None => [] end) ->
               In x (match JsMap.get g' k with Some l => l | None => [] end)) /\
  In n (match JsMap.get g' d with Some l => l | None => [] end).
Proof.
  cbv zeta. split.
  - intros k x Hx. destruct (String.eqb k d) eqn:E.
    + apply String.eqb_eq in E; subst k. rewrite get_set_same. apply set_add_in. left.
      destruct (JsMap.has g d) eqn:Hh; [exact Hx |].
      unfold JsMap.has in Hh. destruct (JsMap.get g d); [discriminate | destruct Hx].
    + apply String.eqb_neq in E. rewrite get_set_other by exact E.
      destruct (JsMap.has g d); [exact Hx |]. rewrite get_set_other by exact E. exact Hx.
  - rewrite get_set_same. apply set_add_in. right; reflexivity.
Qed.

Lemma graph_loop (p : Plugin) (ds : list string) (s : Registry) :
  exists g,
    for_each ds (fun dep =>
      s <- get_reg ;;
      let g := if JsMap.has (dependencyGraph s) dep then dependencyGraph s
               else JsMap.set (dependencyGraph s) dep [] in
      let cur := match JsMap.get g dep with Some d => d | None => [] end in
      put_reg {| plugins := plugins s;
                 dependencyGraph := JsMap.set g dep (set_add cur (name p));
                 heap := heap s |}) s
    = ({| plugins := plugins s; dependencyGraph := g; heap := heap s |}, inr tt) /\
    (forall k x, In x (getDependents s k) ->
       In x (getDependents {| plugins := plugins s; dependencyGraph := g; heap := heap s |} k)) /\
    (forall d, In d ds ->
       In (name p) (getDependents {| plugins := plugins s; dependencyGraph := g; heap := heap s |} d)).
Proof.
  revert s; induction ds as [|d ds IH]; intro s.
  - exists (dependencyGraph s). cbn. destruct s; split; [reflexivity | split; [auto | intros d []]].
  - cbn [for_each].
    set (g0 := if JsMap.has (dependencyGraph s) d then dependencyGraph s
               else JsMap.set (dependencyGraph s) d []).
    set (s1 := {| plugins := plugins s;
                  dependencyGraph := JsMap.set g0 d
                    (set_add (match JsMap.get g0 d with Some l => l | None => [] end) (name p));
                  heap := heap s |}).
    rewrite (bind_inr _ _ s s1 tt) by reflexivity.
    cbv beta. destruct (IH s1) as (g & Heq & Hmono & Hmem). exists g.
    destruct (graph_step (dependencyGraph s) d (name p)) as [Hs1 Hs2].
    split; [exact Heq | split].
    + intros k x Hx. apply Hmono. apply Hs1. exact Hx.
    + intros d' [<-|Hd']; [apply Hmono, Hs2 | apply Hmem, Hd'].
Qed.

(** [updateDependencyGraph] changes only the graph: every dependents set
    keeps its members, and the plugin joins the set of each of its
    dependencies. *)
Lemma updateDependencyGraph_spec (p : Plugin) (s : Registry) :
  exists g,
    updateDependencyGraph p s
      = ({| plugins := plugins s; dependencyGraph := g; heap := heap s |}, inr tt) /\
    (forall k x, In x (getDependents s k) ->
       In x (getDependents {| plugins := plugins s; dependencyGraph := g; heap := heap s |} k)) /\
    (forall d, In d (deps_or_nil (dependencies p)) ->
       In (name p) (getDependents {| plugins := plugins s; dependencyGraph := g; heap := heap s |} d)).
Proof.
  unfold updateDependencyGraph. destruct (dependencies p) as [ds|].
  - apply graph_loop.
  - exists (dependencyGraph s). destruct s; split; [reflexivity | split; [auto | intros d []]].
Qed.

Lemma lookup_plugin_objs (s : Registry) (n : string) (r : nat) (p : Plugin) :
  lookup_plugin s n = Some (r, p) ->
  JsMap.get (plugins s) n = Some r /\ objs (heap s) r = Some p.
Proof.
  unfold lookup_plugin. destruct (JsMap.get (plugins s) n) as [r'|]; [| discriminate].
  destruct (objs (heap s) r') as [p'|] eqn:E; [| discriminate].
  intro H; injection H as <- <-. split; [reflexivity | exact E].
Qed.

Lemma lookup_plugin_none (s : Registry) (n : string) :
  JsMap.get (plugins s) n = None -> lookup_plugin s n = None.
Proof. unfold lookup_plugin. intros ->. reflexivity. Qed.

(** The registry after [register] stored the copy of [p] and recorded its
    dependencies. *)
Definition registered_state (s : Registry) (p : Plugin) : Registry :=
  fst (updateDependencyGraph p
         {| plugins := JsMap.set (plugins s) (name p) (next (heap s));
            dependencyGraph := dependencyGraph s;
            heap := fst (heap_alloc (heap s) p) |}).

(** Rejection of an awaited callback inside a method, wrapped with [code]. *)
Definition callback_result (code : string) (c : option outcome) : error + unit :=
  match c with
  | Some (Throws m) => inl (SDKError code (Some (PluginThrew m)))
  | _ => inr tt
  end.

(** Everything [register(plugin)] can do, for the descriptor [p] at [r]. *)
Lemma register_spec (s : Registry) (r : nat) (p : Plugin) :
  objs (heap s) r = Some p ->
  register r s =
    if JsMap.has (plugins s) (name p)
    then (s, inl (wrapped "PLUGIN_REGISTRATION_FAILED" "PLUGIN_ALREADY_EXISTS"))
    else match snd (validateDependencies p s) with
         | inl e => (s, inl (SDKError "PLUGIN_REGISTRATION_FAILED" (Some e)))
         | inr _ =>
             (registered_state s p,
              if enabled p then callback_result "PLUGIN_REGISTRATION_FAILED" (initialize p)
              else inr tt)
         end.
Proof.
  intro Hp. unfold register, try_catch, bind, get_reg, ret, put_reg, throw.
  cbn beta iota zeta. rewrite Hp.
  destruct (JsMap.has (plugins s) (name p)); [reflexivity |].
  destruct (validateDependencies_spec p s) as (res & Hv & _). rewrite Hv. cbn [snd].
  destruct res as [e|[]]; [reflexivity |].
  unfold registered_state. cbn [heap_alloc fst].
  destruct (updateDependencyGraph_spec p
              {| plugins := JsMap.set (plugins s) (name p) (next (heap s));
                 dependencyGraph := dependencyGraph s;
                 heap := fst (heap_alloc (heap s) p) |}) as (g & Hu & _).
  cbn [heap_alloc fst] in Hu. rewrite Hu. cbn [fst].
  destruct (enabled p); [| reflexivity].
  rewrite run_callback_spec. destruct (initialize p) as [[|m]|]; reflexivity.
Qed.

(** A dependency that is registered and enabled. *)
Definition dep_enabled (s : Registry) (dep : string) : bool :=
  match lookup_plugin s dep with Some (_, q) => enabled q | None => false end.

(** The registry after the object at [r] has been overwritten with [p]. *)
Definition write_state (s : Registry) (r : nat) (p : Plugin) : Registry :=
  {| plugins := plugins s; dependencyGraph := dependencyGraph s;
     heap := heap_write (heap s) r p |}.

(** The registry after [unregister(n)] removed [n]. *)
Definition unregistered_state (s : Registry) (n : string) : Registry :=
  {| plugins := JsMap.delete (plugins s) n;
     dependencyGraph := JsMap.delete (dependencyGraph s) n;
     heap := heap s |}.

Lemma set_enabled_at_spec (s : Registry) (r : nat) (p : Plugin) (b : bool) :
  objs (heap s) r = Some p ->
  set_enabled_at r b s = (write_state s r (set_enabled p b), inr tt).
Proof.
  intro H. unfold set_enabled_at, write_plugin, bind, get_reg, put_reg.
  rewrite H. reflexivity.
Qed.

Lemma unregister_spec (s : Registry) (n : string) (r : nat) (p : Plugin) :
  lookup_plugin s n = Some (r, p) ->
  unregister n s =
    match getDependents s n with
    | _ :: _ => (s, inl (wrapped "PLUGIN_UNREGISTRATION_FAILED" "PLUGIN_HAS_DEPENDENTS"))
    | [] =>
        match (if enabled p then callback_result "PLUGIN_UNREGISTRATION_FAILED" (destroy p)
               else inr tt) with
        | inl e => (s, inl e)
        | inr _ => (unregistered_state s n, inr tt)
        end
    end.
Proof.
  intro Hl. unfold unregister, try_catch, bind, get_reg, ret, put_reg, throw.
  cbn beta iota zeta. rewrite Hl.
  destruct (getDependents s n); [| reflexivity].
  destruct (enabled p); [| reflexivity].
  rewrite run_callback_spec. destruct (destroy p) as [[|m]|]; reflexivity.
Qed.

Lemma enable_spec (s : Registry) (n : string) (r : nat) (p : Plugin) :
  lookup_plugin s n = Some (r, p) ->
  enable n s =
    if enabled p then (s, inr tt) else
    if forallb (dep_enabled s) (deps_or_nil (dependencies p)) then
      match callback_result "PLUGIN_ENABLE_FAILED" (initialize p) with
      | inl e => (s, inl e)
      | inr _ => (write_state s r (set_enabled p true), inr tt)
      end
    else (s, inl (wrapped "PLUGIN_ENABLE_FAILED" "DEPENDENCY_NOT_ENABLED")).
Proof.
  intro Hl. destruct (lookup_plugin_objs s n r p Hl) as [_ Hr].
  unfold enable, try_catch, bind, get_reg, ret, throw.
  cbn beta iota zeta. rewrite Hl.
  destruct (enabled p); [reflexivity |].
  destruct (dependencies p) as [ds|]; cbn [deps_or_nil forallb].
  - rewrite (for_each_check ds _ (dep_enabled s) (SDKError "DEPENDENCY_NOT_ENABLED" None) s).
    2: { intros d _. cbn beta iota zeta. unfold dep_enabled.
         destruct (lookup_plugin s d) as [[? q]|]; [destruct (enabled q)|]; reflexivity. }
    destruct (forallb (dep_enabled s) ds); [| reflexivity].
    rewrite run_callback_spec.
    destruct (initialize p) as [[|m]|]; cbn beta iota zeta; try reflexivity;
      rewrite (set_enabled_at_spec s r p true Hr); reflexivity.
  - rewrite run_callback_spec.
    destruct (initialize p) as [[|m]|]; cbn beta iota zeta; try reflexivity;
      rewrite (set_enabled_at_spec s r p true Hr); reflexivity.
Qed.

Lemma disable_spec (s : Registry) (n : string) (r : nat) (p : Plugin) :
  lookup_plugin s n = Some (r, p) ->
  disable n s =
    if negb (enabled p) then (s, inr tt) else
    match filter (dep_enabled s) (getDependents s n) with
    | _ :: _ => (s, inl (wrapped "PLUGIN_DISABLE_FAILED" "PLUGIN_HAS_ENABLED_DEPENDENTS"))
    | [] =>
        match callback_result "PLUGIN_DISABLE_FAILED" (destroy p) with
        | inl e => (s, inl e)
        | inr _ => (write_state s r (set_enabled p false), inr tt)
        end
    end.
Proof.
  intro Hl. destruct (lookup_plugin_objs s n r p Hl) as [_ Hr].
  unfold disable, try_catch, bind, get_reg, ret, throw.
  cbn beta iota zeta. rewrite Hl.
  destruct (negb (enabled p)); [reflexivity |].
  change (fun dep => match lookup_plugin s dep with
                     | Some (_, depPlugin) => enabled depPlugin
                     | None => false
                     end) with (dep_enabled s).
  destruct (filter (dep_enabled s) (getDependents s n)); [| reflexivity].
  rewrite run_callback_spec.
  destruct (destroy p) as [[|m]|]; cbn beta iota zeta; try reflexivity;
    rewrite (set_enabled_at_spec s r p false Hr); reflexivity.
Qed.

Lemma lookup_write_same (s : Registry) (n : string) (r : nat) (p p' : Plugin) :
  lookup_plugin s n = Some (r, p) -> lookup_plugin (write_state s r p') n = Some (r, p').
Proof.
  intro Hl. destruct (lookup_plugin_objs s n r p Hl) as [Hg _].
  unfold lookup_plugin, write_state; cbn. rewrite Hg. cbn. rewrite Nat.eqb_refl. reflexivity.
Qed.

(** ** Registry: further properties *)

(** X1.  When the name is new and the dependency checks pass, [register]
    appends a fresh shallow copy of the descriptor under its name (the
    other names keep their entries, the caller's object is untouched) and
    adds the plugin to the dependents of each of its dependencies; the copy
    stays registered even when the awaited [initialize] throws, the call
    then rejecting with [PLUGIN_REGISTRATION_FAILED]. *)
Theorem register_stores_fresh_copy (s : Registry) (r : nat) (p : Plugin)
    (Hp : objs (heap s) r = Some p) (Hr : r < next (heap s))
    (Hnew : JsMap.has (plugins s) (name p) = false)
    (Hval : snd (validateDependencies p s) = inr tt) :
  let '(s', res) := register r s in
  getAll s' = getAll s ++ [next (heap s)] /\
  lookup_plugin s' (name p) = Some (next (heap s), p) /\
  (forall k, k <> name p -> JsMap.get (plugins s') k = JsMap.get (plugins s) k) /\
  objs (heap s') r = Some p /\
  (forall d, In d (deps_or_nil (dependencies p)) -> In (name p) (getDependents s' d)) /\
  res = (if enabled p then callback_result "PLUGIN_REGISTRATION_FAILED" (initialize p)
         else inr tt).
Proof.
  rewrite (register_spec s r p Hp), Hnew, Hval.
  unfold registered_state.
  destruct (updateDependencyGraph_spec p
              {| plugins := JsMap.set (plugins s) (name p) (next (heap s));
                 dependencyGraph := dependencyGraph s;
                 heap := fst (heap_alloc (heap s) p) |}) as (g & Hu & _ & Hmem).
  rewrite Hu in *. cbn [fst] in *.
  rewrite set_absent in * by exact Hnew.
  assert (Hget : JsMap.get (plugins s) (name p) = None).
  { unfold JsMap.has in Hnew. destruct (JsMap.get (plugins s) (name p)); [discriminate | reflexivity]. }
  split; [| split; [| split; [| split; [| split]]]].
  - unfold getAll, JsMap.values. cbn. rewrite map_app. reflexivity.
  - unfold lookup_plugin. cbn. rewrite (get_app_none _ _ _ Hget). cbn.
    rewrite Nat.eqb_refl. reflexivity.
  - intros k Hk. cbn. apply get_app_other, Hk.
  - cbn. destruct (Nat.eqb r (next (heap s))) eqn:E; [apply Nat.eqb_eq in E; lia | exact Hp].
  - exact Hmem.
  - reflexivity.
Qed.

(** X2.  Registering a descriptor with a new name one of whose declared
    dependencies is not registered rejects with
    [PLUGIN_REGISTRATION_FAILED], whose [details] is the
    [DEPENDENCY_NOT_FOUND] error, and leaves the registry unchanged. *)
Theorem register_missing_dependency (s : Registry) (r : nat) (p : Plugin) (d : string)
    (Hp : objs (heap s) r = Some p)
    (Hnew : JsMap.has (plugins s) (name p) = false)
    (Hd : In d (deps_or_nil (dependencies p)))
    (Hmiss : JsMap.has (plugins s) d = false) :
  register r s = (s, inl (wrapped "PLUGIN_REGISTRATION_FAILED" "DEPENDENCY_NOT_FOUND")).
Proof.
  rewrite (register_spec s r p Hp), Hnew.
  destruct (validateDependencies_spec p s) as (res & Hv & _ & Hnf).
  rewrite Hv. cbn [snd]. rewrite Hnf by (exists d; split; assumption). reflexivity.
Qed.

(** X3.  [unregister], [enable] and [disable] of a name that is not
    registered reject with [PLUGIN_NOT_FOUND] itself (the check is made
    before their [try], so the error is not wrapped) and leave the
    registry unchanged. *)
Theorem unknown_name_rejected (s : Registry) (n : string)
    (Hn : JsMap.get (plugins s) n = None) :
  unregister n s = (s, inl (SDKError "PLUGIN_NOT_FOUND" None)) /\
  enable n s = (s, inl (SDKError "PLUGIN_NOT_FOUND" None)) /\
  disable n s = (s, inl (SDKError "PLUGIN_NOT_FOUND" None)).
Proof.
  unfold unregister, enable, disable, bind, get_reg.
  rewrite (lookup_plugin_none s n Hn). repeat split.
Qed.

(** X4.  [enable] and [disable] are idempotent: once [enable(n)] has
    resolved, a second [enable(n)] resolves at once without touching the
    registry (no second [initialize]), and likewise for [disable(n)]. *)
Theorem enable_disable_idempotent (s : Registry) (n : string) :
  (snd (enable n s) = inr tt -> enable n (fst (enable n s)) = (fst (enable n s), inr tt)) /\
  (snd (disable n s) = inr tt -> disable n (fst (disable n s)) = (fst (disable n s), inr tt)).
Proof.
  destruct (lookup_plugin s n) as [[r p]|] eqn:Hl.
  2: { unfold enable, disable, bind, get_reg. rewrite Hl. split; discriminate. }
  split.
  - rewrite (enable_spec s n r p Hl).
    destruct (enabled p) eqn:He; [intros _; cbn [fst]; rewrite (enable_spec s n r p Hl), He; reflexivity |].
    destruct (forallb _ _); [| discriminate].
    destruct (callback_result _ _); [discriminate |]. intros _. cbn [fst].
    rewrite (enable_spec _ n r _ (lookup_write_same s n r p _ Hl)). reflexivity.
  - rewrite (disable_spec s n r p Hl).
    destruct (enabled p) eqn:He; cbn [negb];
      [| intros _; cbn [fst]; rewrite (disable_spec s n r p Hl), He; reflexivity].
    destruct (filter _ _); [| discriminate].
    destruct (callback_result _ _); [discriminate |]. intros _. cbn [fst].
    rewrite (disable_spec _ n r _ (lookup_write_same s n r p _ Hl)). reflexivity.
Qed.

(** X5.  [disable(n)] of an enabled plugin is refused while one of the
    names recorded as its dependents is registered and enabled: it rejects
    with [PLUGIN_DISABLE_FAILED], whose [details] is the
    [PLUGIN_HAS_ENABLED_DEPENDENTS] error, and leaves the registry
    unchanged (no [destroy] call). *)
Theorem disable_blocked_by_enabled_dependent (s : Registry) (n : string) (r : nat)
    (p : Plugin) (d : string) (rd : nat) (pd : Plugin)
    (Hl : lookup_plugin s n = Some (r, p)) (Hen : enabled p = true)
    (Hd : In d (getDependents s n))
    (Hdl : lookup_plugin s d = Some (rd, pd)) (Hde : enabled pd = true) :
  disable n s = (s, inl (wrapped "PLUGIN_DISABLE_FAILED" "PLUGIN_HAS_ENABLED_DEPENDENTS")).
Proof.
  rewrite (disable_spec s n r p Hl), Hen. cbn [negb].
  destruct (filter (dep_enabled s) (getDependents s n)) eqn:E; [| reflexivity].
  exfalso. assert (Hin : In d (filter (dep_enabled s) (getDependents s n))).
  { apply filter_In. split; [exact Hd | unfold dep_enabled; rewrite Hdl; exact Hde]. }
  rewrite E in Hin. destruct Hin.
Qed.

(** X6.  [enable(n)] of a registered, disabled plugin whose declared
    dependencies are all registered and enabled awaits [initialize]; if it
    completes, the stored object (and only it) gets [enabled = true], the
    maps staying as they were; if it throws, the call rejects with
    [PLUGIN_ENABLE_FAILED] wrapping that error and the registry is
    unchanged. *)
Theorem enable_outcome (s : Registry) (n : string) (r : nat) (p : Plugin)
    (Hl : lookup_plugin s n = Some (r, p)) (Hdis : enabled p = false)
    (Hdeps : forall d, In d (deps_or_nil (dependencies p)) ->
             exists rd pd, lookup_plugin s d = Some (rd, pd) /\ enabled pd = true) :
  (forall m, initialize p = Some (Throws m) ->
     enable n s = (s, inl (SDKError "PLUGIN_ENABLE_FAILED" (Some (PluginThrew m))))) /\
  ((forall m, initialize p <> Some (Throws m)) ->
   let '(s', res) := enable n s in
   res = inr tt /\ lookup_plugin s' n = Some (r, set_enabled p true) /\
   plugins s' = plugins s /\ dependencyGraph s' = dependencyGraph s /\
   (forall r', r' <> r -> objs (heap s') r' = objs (heap s) r')).
Proof.
  assert (Hall : forallb (dep_enabled s) (deps_or_nil (dependencies p)) = true).
  { apply forallb_forall. intros d Hd. destruct (Hdeps d Hd) as (rd & pd & Hdl & Hde).
    unfold dep_enabled. rewrite Hdl. exact Hde. }
  rewrite (enable_spec s n r p Hl), Hdis, Hall. split.
  - intros m Hm. rewrite Hm. reflexivity.
  - intro Hok. destruct (callback_result "PLUGIN_ENABLE_FAILED" (initialize p)) eqn:E.
    + exfalso. unfold callback_result in E. destruct (initialize p) as [[|m]|] eqn:Ei;
        try discriminate. exact (Hok m eq_refl).
    + split; [reflexivity | split; [exact (lookup_write_same s n r p _ Hl) | split; [reflexivity | split; [reflexivity |]]]].
      intros r' Hr'. cbn. destruct (Nat.eqb r' r) eqn:Er; [apply Nat.eqb_eq in Er; contradiction | reflexivity].
Qed.

(** X7.  [disable(n)] of a registered, enabled plugin none of whose
    recorded dependents is registered and enabled awaits [destroy]; if it
    completes, the stored object (and only it) gets [enabled = false]; if
    it throws, the call rejects with [PLUGIN_DISABLE_FAILED] wrapping that
    error and the registry is unchanged. *)
Theorem disable_outcome (s : Registry) (n : string) (r : nat) (p : Plugin)
    (Hl : lookup_plugin s n = Some (r, p)) (Hen : enabled p = true)
    (Hfree : forall d rd pd, In d (getDependents s n) ->
             lookup_plugin s d = Some (rd, pd) -> enabled pd = false) :
  (forall m, destroy p = Some (Throws m) ->
     disable n s = (s, inl (SDKError "PLUGIN_DISABLE_FAILED" (Some (PluginThrew m))))) /\
  ((forall m, destroy p <> Some (Throws m)) ->
   let '(s', res) := disable n s in
   res = inr tt /\ lookup_plugin s' n = Some (r, set_enabled p false) /\
   plugins s' = plugins s /\ dependencyGraph s' = dependencyGraph s /\
   (forall r', r' <> r -> objs (heap s') r' = objs (heap s) r')).
Proof.
  assert (Hnone : filter (dep_enabled s) (getDependents s n) = []).
  { destruct (filter (dep_enabled s) (getDependents s n)) as [|d ds] eqn:E; [reflexivity |].
    exfalso. assert (Hin : In d (filter (dep_enabled s) (getDependents s n)))
      by (rewrite E; left; reflexivity).
    apply filter_In in Hin. destruct Hin as [Hd Hde]. unfold dep_enabled in Hde.
    destruct (lookup_plugin s d) as [[rd pd]|] eqn:Hdl; [| discriminate].
    rewrite (Hfree d rd pd Hd Hdl) in Hde. discriminate. }
  rewrite (disable_spec s n r p Hl), Hen, Hnone. cbn [negb]. split.
  - intros m Hm. rewrite Hm. reflexivity.
  - intro Hok. destruct (callback_result "PLUGIN_DISABLE_FAILED" (destroy p)) eqn:E.
    + exfalso. unfold callback_result in E. destruct (destroy p) as [[|m]|] eqn:Ei;
        try discriminate. exact (Hok m eq_refl).
    + split; [reflexivity | split; [exact (lookup_write_same s n r p _ Hl) | split; [reflexivity | split; [reflexivity |]]]].
      intros r' Hr'. cbn. destruct (Nat.eqb r' r) eqn:Er; [apply Nat.eqb_eq in Er; contradiction | reflexivity].
Qed.

(** X8.  [unregister(n)] of a registered plugin with no recorded dependents
    (its map having distinct keys) awaits [destroy] when the plugin is
    enabled; if that throws, the call rejects with
    [PLUGIN_UNREGISTRATION_FAILED] wrapping it and the registry is
    unchanged.  Otherwise it resolves: [n] is no longer registered, every
    other name keeps its entry in the plugin map and in the dependency
    graph (so [n] stays listed among the dependents of the plugins it
    depends on), and no object changes. *)
Theorem unregister_outcome (s : Registry) (n : string) (r : nat) (p : Plugin)
    (Hkeys : NoDup (map fst (plugins s)))
    (Hl : lookup_plugin s n = Some (r, p)) (Hnodeps : getDependents s n = []) :
  (forall m, enabled p = true -> destroy p = Some (Throws m) ->
     unregister n s = (s, inl (SDKError "PLUGIN_UNREGISTRATION_FAILED" (Some (PluginThrew m))))) /\
  ((enabled p = false \/ forall m, destroy p <> Some (Throws m)) ->
   let '(s', res) := unregister n s in
   res = inr tt /\ JsMap.get (plugins s') n = None /\ lookup_plugin s' n = None /\
   (forall k, k <> n -> JsMap.get (plugins s') k = JsMap.get (plugins s) k /\
                        JsMap.get (dependencyGraph s') k = JsMap.get (dependencyGraph s) k) /\
   heap s' = heap s).
Proof.
  rewrite (unregister_spec s n r p Hl), Hnodeps. split.
  - intros m He Hm. rewrite He, Hm. reflexivity.
  - intro Hok.
    assert (Hres : (if enabled p then callback_result "PLUGIN_UNREGISTRATION_FAILED" (destroy p)
                    else inr tt) = inr tt).
    { destruct (enabled p); [| reflexivity]. destruct Hok as [Hf|Hok]; [discriminate |].
      unfold callback_result. destruct (destroy p) as [[|m]|] eqn:Ed; try reflexivity.
      exfalso; exact (Hok m eq_refl). }
    rewrite Hres.
    assert (Hg : JsMap.get (plugins (unregistered_state s n)) n = None)
      by (apply get_delete_same, Hkeys).
    split; [reflexivity | split; [exact Hg | split; [| split]]].
    + unfold lookup_plugin. rewrite Hg. reflexivity.
    + intros k Hk. cbn. split; apply get_delete_other, Hk.
    + reflexivity.
Qed.

(** *** Invariants of every sequence of registry operations *)

Section Preservation.
Variable Inv : Registry -> Prop.

Definition preserves {A} (m : RM A) : Prop :=
  forall s, Inv s -> Inv (fst (m s)).

Lemma preserves_ret {A} (a : A) : preserves (ret a).
Proof. intros s H; exact H. Qed.

Lemma preserves_throw {A} (e : error) : preserves (@throw A e).
Proof. intros s H; exact H. Qed.

Lemma preserves_bind {A B} (m : RM A) (k : A -> RM B) :
  preserves m -> (forall a, preserves (k a)) -> preserves (bind m k).
Proof.
  intros Hm Hk s H. unfold bind.
  specialize (Hm s H). destruct (m s) as [s' [e|a]]; [exact Hm | apply Hk, Hm].
Qed.

Lemma preserves_get {B} (k : Registry -> RM B) :
  (forall s, preserves (k s)) -> preserves (bind get_reg k).
Proof. intros Hk s H. unfold bind, get_reg. apply Hk; assumption. Qed.

Lemma preserves_try {A} (m : RM A) (h : error -> RM A) :
  preserves m -> (forall e, preserves (h e)) -> preserves (try_catch m h).
Proof.
  intros Hm Hh s H. unfold try_catch.
  specialize (Hm s H). destruct (m s) as [s' [e|a]]; [apply Hh, Hm | exact Hm].
Qed.

Lemma preserves_for_each {A} (xs : list A) (f : A -> RM unit) :
  (forall x, preserves (f x)) -> preserves (for_each xs f).
Proof.
  intro Hf. induction xs as [|x xs IH]; cbn; [apply preserves_ret |].
  apply preserves_bind; [apply Hf | intros _; exact IH].
Qed.

Lemma preserves_run_callback (c : option outcome) : preserves (run_callback c).
Proof. destruct c as [[|m]|]; cbn; [apply preserves_ret | apply preserves_throw | apply preserves_ret]. Qed.

Hypothesis Hregister : forall r, preserves (register r).
Hypothesis Hunregister : forall n, preserves (unregister n).
Hypothesis Hdisable : forall n, preserves (disable n).
Hypothesis Henable : forall n, preserves (enable n).
Hypothesis Hset : forall r b, preserves (set_enabled_at r b).

Lemma preserves_destroy_plugins (allPlugins sortedPlugins : list nat) :
  preserves (destroy_plugins allPlugins sortedPlugins).
Proof.
  unfold destroy_plugins. apply preserves_bind; [| intros _].
  - apply preserves_for_each; intros r. apply preserves_get; intros s1.
    destruct (objs (heap s1) r) as [plugin|]; [| apply preserves_ret].
    destruct (enabled plugin); [| apply preserves_ret].
    apply preserves_try; [apply Hdisable | intros _].
    apply preserves_bind; [apply preserves_run_callback | intros _; apply Hset].
  - apply preserves_for_each; intros r. apply preserves_get; intros s1.
    destruct (objs (heap s1) r) as [plugin|]; [| apply preserves_ret].
    apply preserves_try; [apply Hunregister | intros _; apply preserves_ret].
Qed.

Lemma preserves_run_op (op : reg_op) : preserves (run_op op).
Proof.
  destruct op as [r|n|n|n|]; cbn [run_op];
    [apply Hregister | apply Hunregister | apply Henable | apply Hdisable |].
  apply preserves_get; intros s. apply preserves_destroy_plugins.
Qed.

Lemma preserves_run_ops (ops : list reg_op) (s : Registry) :
  Inv s -> Inv (run_ops ops s).
Proof.
  revert s; induction ops as [|op ops IH]; intros s H; cbn; [exact H |].
  apply IH, preserves_run_op, H.
Qed.
End Preservation.

(** The integrity of the registry: distinct names; each name maps to an
    allocated object whose [name] is that name; each declared dependency
    of a stored plugin is registered and lists the plugin among its
    dependents. *)
Definition integrity (s : Registry) : Prop :=
  NoDup (map fst (plugins s)) /\
  (forall k r, JsMap.get (plugins s) k = Some r ->
     r < next (heap s) /\ exists p, objs (heap s) r = Some p /\ name p = k) /\
  (forall k r p d, lookup_plugin s k = Some (r, p) -> In d (deps_or_nil (dependencies p)) ->
     JsMap.has (plugins s) d = true /\ In k (getDependents s d)).

Lemma has_app_l {V} (m : list (string * V)) (k d : string) (v : V) :
  JsMap.has m d = true -> JsMap.has (m ++ [(k, v)]) d = true.
Proof.
  rewrite !has_in_keys, map_app. intro H. apply in_or_app. left; exact H.
Qed.

Lemma has_delete_other {V} (m : list (string * V)) (k d : string) :
  d <> k -> JsMap.has (JsMap.delete m k) d = JsMap.has m d.
Proof. intro H. unfold JsMap.has. rewrite get_delete_other by exact H. reflexivity. Qed.

Lemma lookup_write_inv (s : Registry) (r : nat) (p : Plugin) (b : bool) (k : string)
    (r' : nat) (p' : Plugin) :
  objs (heap s) r = Some p ->
  lookup_plugin (write_state s r (set_enabled p b)) k = Some (r', p') ->
  exists p0, lookup_plugin s k = Some (r', p0) /\ name p0 = name p' /\
             dependencies p0 = dependencies p'.
Proof.
  intros Hp Hl. unfold lookup_plugin in *. cbn in Hl.
  destruct (JsMap.get (plugins s) k) as [n|]; [| discriminate].
  destruct (Nat.eqb n r) eqn:E.
  - apply Nat.eqb_eq in E; subst. injection Hl as <- <-. exists p. rewrite Hp. repeat split.
  - destruct (objs (heap s) n) as [q|]; [| discriminate]. injection Hl as <- <-.
    exists q. repeat split.
Qed.

Lemma integrity_write (s : Registry) (r : nat) (p : Plugin) (b : bool) :
  objs (heap s) r = Some p -> integrity s -> integrity (write_state s r (set_enabled p b)).
Proof.
  intros Hp (Hnd & Hrefs & Hdeps). split; [exact Hnd | split].
  - intros k r' Hg. destruct (Hrefs k r' Hg) as (Hlt & q & Hq & Hn).
    split; [exact Hlt |]. cbn. destruct (Nat.eqb r' r) eqn:E.
    + apply Nat.eqb_eq in E. rewrite E, Hp in Hq. injection Hq as <-.
      exists (set_enabled p b). split; [reflexivity | exact Hn].
    + exists q. split; [exact Hq | exact Hn].
  - intros k r' p' d Hl Hd.
    destruct (lookup_write_inv s r p b k r' p' Hp Hl) as (p0 & Hl0 & _ & Hdp).
    rewrite <- Hdp in Hd. exact (Hdeps k r' p0 d Hl0 Hd).
Qed.

Lemma integrity_registered (s : Registry) (p : Plugin) :
  integrity s -> JsMap.has (plugins s) (name p) = false ->
  (forall d, In d (deps_or_nil (dependencies p)) -> JsMap.has (plugins s) d = true) ->
  integrity (registered_state s p).
Proof.
  intros (Hnd & Hrefs & Hdeps) Hnew Hval.
  assert (Hget : JsMap.get (plugins s) (name p) = None).
  { unfold JsMap.has in Hnew. destruct (JsMap.get (plugins s) (name p)); [discriminate | reflexivity]. }
  unfold registered_state.
  destruct (updateDependencyGraph_spec p
              {| plugins := JsMap.set (plugins s) (name p) (next (heap s));
                 dependencyGraph := dependencyGraph s;
                 heap := fst (heap_alloc (heap s) p) |}) as (g & Hu & Hmono & Hmem).
  rewrite Hu. cbn [fst]. rewrite set_absent in * by exact Hnew.
  split; [| split].
  - apply nodup_app_key; [exact Hnd |]. intro Hin. apply has_in_keys in Hin. congruence.
  - intros k r' Hg. cbn [plugins heap] in Hg |- *.
    destruct (string_dec k (name p)) as [->|Hk].
    + rewrite (get_app_none _ _ _ Hget) in Hg. injection Hg as <-.
      cbn. split; [lia |]. exists p. rewrite Nat.eqb_refl. auto.
    + rewrite (get_app_other _ _ _ _ Hk) in Hg. destruct (Hrefs k r' Hg) as (Hlt & q & Hq & Hn).
      cbn. split; [lia |]. exists q.
      destruct (Nat.eqb r' (next (heap s))) eqn:E; [apply Nat.eqb_eq in E; lia | auto].
  - intros k r' p' d Hl Hd. unfold lookup_plugin in Hl. cbn [plugins heap] in Hl.
    destruct (string_dec k (name p)) as [->|Hk].
    + rewrite (get_app_none _ _ _ Hget) in Hl. cbn in Hl. rewrite Nat.eqb_refl in Hl.
      injection Hl as <- <-. split; [apply has_app_l, Hval, Hd | apply Hmem, Hd].
    + rewrite (get_app_other _ _ _ _ Hk) in Hl.
      destruct (JsMap.get (plugins s) k) as [n|] eqn:Hg; [| discriminate].
      destruct (Hrefs k n Hg) as (Hlt & _).
      cbn in Hl. destruct (Nat.eqb n (next (heap s))) eqn:E; [apply Nat.eqb_eq in E; lia |].
      assert (Hl0 : lookup_plugin s k = Some (r', p')).
      { unfold lookup_plugin. rewrite Hg. exact Hl. }
      destruct (Hdeps k r' p' d Hl0 Hd) as [Hh Hi].
      split; [apply has_app_l, Hh | apply Hmono, Hi].
Qed.

Lemma integrity_unregistered (s : Registry) (n : string) :
  integrity s -> getDependents s n = [] -> integrity (unregistered_state s n).
Proof.
  intros (Hnd & Hrefs & Hdeps) Hnone. split; [| split].
  - apply nodup_delete, Hnd.
  - intros k r Hg. cbn in Hg |- *. destruct (string_dec k n) as [->|Hk].
    + rewrite (get_delete_same _ _ Hnd) in Hg. discriminate.
    + rewrite (get_delete_other _ _ _ Hk) in Hg. exact (Hrefs k r Hg).
  - intros k r p d Hl Hd. unfold lookup_plugin in Hl. cbn [plugins heap unregistered_state] in Hl.
    destruct (string_dec k n) as [->|Hk].
    + rewrite (get_delete_same _ _ Hnd) in Hl. discriminate.
    + rewrite (get_delete_other _ _ _ Hk) in Hl.
      assert (Hl0 : lookup_plugin s k = Some (r, p)) by exact Hl.
      destruct (Hdeps k r p d Hl0 Hd) as [Hh Hi].
      assert (Hdn : d <> n) by (intros ->; rewrite Hnone in Hi; destruct Hi).
      split.
      * cbn. rewrite has_delete_other by exact Hdn. exact Hh.
      * unfold getDependents. cbn. rewrite get_delete_other by exact Hdn. exact Hi.
Qed.

Lemma integrity_set_enabled_at (r : nat) (b : bool) : preserves integrity (set_enabled_at r b).
Proof.
  intros s H. destruct (objs (heap s) r) as [p|] eqn:Hp.
  - rewrite (set_enabled_at_spec s r p b Hp). apply integrity_write; assumption.
  - unfold set_enabled_at, bind, get_reg, ret. cbn beta iota. rewrite Hp. exact H.
Qed.

Lemma integrity_register (r : nat) : preserves integrity (register r).
Proof.
  intros s H. destruct (objs (heap s) r) as [p|] eqn:Hp.
  - rewrite (register_spec s r p Hp).
    destruct (JsMap.has (plugins s) (name p)) eqn:Hn; [exact H |].
    destruct (validateDependencies_spec p s) as (res & Hv & Hok & _).
    rewrite Hv. cbn [snd]. destruct res as [e|[]]; [exact H |].
    apply integrity_registered; [exact H | exact Hn | apply Hok; reflexivity].
  - unfold register, bind, get_reg, throw. cbn beta iota. rewrite Hp. exact H.
Qed.

Lemma integrity_unregister (n : string) : preserves integrity (unregister n).
Proof.
  intros s H. destruct (lookup_plugin s n) as [[r p]|] eqn:Hl.
  - rewrite (unregister_spec s n r p Hl).
    destruct (getDependents s n) eqn:Hd; [| exact H].
    destruct (if enabled p then _ else _); [exact H |].
    apply integrity_unregistered; assumption.
  - unfold unregister, bind, get_reg, throw. cbn beta iota. rewrite Hl. exact H.
Qed.

Lemma integrity_enable (n : string) : preserves integrity (enable n).
Proof.
  intros s H. destruct (lookup_plugin s n) as [[r p]|] eqn:Hl.
  - destruct (lookup_plugin_objs s n r p Hl) as [_ Hp].
    rewrite (enable_spec s n r p Hl).
    destruct (enabled p); [exact H |]. destruct (forallb _ _); [| exact H].
    destruct (callback_result _ _); [exact H |]. apply integrity_write; assumption.
  - unfold enable, bind, get_reg, throw. cbn beta iota. rewrite Hl. exact H.
Qed.

Lemma integrity_disable (n : string) : preserves integrity (disable n).
Proof.
  intros s H. destruct (lookup_plugin s n) as [[r p]|] eqn:Hl.
  - destruct (lookup_plugin_objs s n r p Hl) as [_ Hp].
    rewrite (disable_spec s n r p Hl).
    destruct (negb (enabled p)); [exact H |]. destruct (filter _ _); [| exact H].
    destruct (callback_result _ _); [exact H |]. apply integrity_write; assumption.
  - unfold disable, bind, get_reg, throw. cbn beta iota. rewrite Hl. exact H.
Qed.

Lemma integrity_empty (h : Heap) : integrity (empty_registry h).
Proof.
  split; [constructor | split]; [intros k r H; discriminate |].
  intros k r p d H. unfold lookup_plugin in H. discriminate.
Qed.

Lemma integrity_reachable (h : Heap) (ops : list reg_op) :
  integrity (run_ops ops (empty_registry h)).
Proof.
  apply (preserves_run_ops integrity integrity_register integrity_unregister
           integrity_disable integrity_enable integrity_set_enabled_at),
        integrity_empty.
Qed.

(** X9.  Every registry reached from an empty one by any sequence of
    operations ([register], [unregister], [enable], [disable] and the
    plugin passes of [destroy()], failed ones included) has: distinct
    names; each name mapped to an allocated object carrying that name; and
    each declared dependency of a stored plugin registered, with the plugin
    listed among its dependents. *)
Theorem registry_integrity (h : Heap) (ops : list reg_op) :
  let s := run_ops ops (empty_registry h) in
  NoDup (map fst (plugins s)) /\
  (forall k r, JsMap.get (plugins s) k = Some r ->
     r < next (heap s) /\ exists p, objs (heap s) r = Some p /\ name p = k) /\
  (forall k r p d, lookup_plugin s k = Some (r, p) -> In d (deps_or_nil (dependencies p)) ->
     JsMap.has (plugins s) d = true /\ In k (getDependents s d)).
Proof. exact (integrity_reachable h ops). Qed.

(** *** The registry and [canUnloadPlugin] *)

Lemma fold_collect {A B} (f : A -> bool) (g : A -> B) (l : list A) (acc : list B) :
  fold_left (fun acc x => if f x then acc ++ [g x] else acc) l acc = acc ++ map g (filter f l).
Proof.
  revert acc; induction l as [|x l IH]; intro acc; cbn; [rewrite app_nil_r; reflexivity |].
  destruct (f x); rewrite IH; [rewrite <- app_assoc |]; reflexivity.
Qed.

Definition declares (n : string) (p : Plugin) : bool :=
  existsb (String.eqb n) (deps_or_nil (dependencies p)).

Lemma canUnloadPlugin_dependents (n : string) (ps : list Plugin) :
  PluginHelpers.dependents (PluginHelpers.canUnloadPlugin n ps)
    = map name (filter (declares n) ps).
Proof. exact (fold_collect (declares n) name ps []). Qed.

Lemma declares_in (n : string) (p : Plugin) :
  declares n p = true <-> In n (deps_or_nil (dependencies p)).
Proof.
  unfold declares. rewrite existsb_exists. split.
  - intros (x & Hx & E). apply String.eqb_eq in E. subst. exact Hx.
  - intro H. exists n. split; [exact H | apply String.eqb_refl].
Qed.

(** The stored objects, in registration order. *)
Definition stored_plugins (s : Registry) : list Plugin :=
  flat_map (fun r => match objs (heap s) r with Some p => [p] | None => [] end) (getAll s).

Lemma stored_plugins_lookup (s : Registry) (p : Plugin) :
  integrity s -> In p (stored_plugins s) -> exists r, lookup_plugin s (name p) = Some (r, p).
Proof.
  intros (Hnd & Hrefs & _) Hin. unfold stored_plugins in Hin. apply in_flat_map in Hin.
  destruct Hin as (r & Hr & Hp).
  destruct (objs (heap s) r) as [q|] eqn:Hq; [| destruct Hp]. destruct Hp as [<-|[]].
  unfold getAll, JsMap.values in Hr. apply in_map_iff in Hr. destruct Hr as ([k r'] & Eh & Hkr).
  cbn in Eh. subst r'. pose proof (in_get_nodup _ _ _ Hnd Hkr) as Hg.
  destruct (Hrefs k r Hg) as (_ & q' & Hq' & Hn). rewrite Hq in Hq'. injection Hq' as <-.
  exists r. subst k. unfold lookup_plugin. rewrite Hg, Hq. reflexivity.
Qed.

Lemma integrity_lookup_has (s : Registry) (n : string) :
  integrity s -> JsMap.has (plugins s) n = true -> exists r p, lookup_plugin s n = Some (r, p).
Proof.
  intros (_ & Hrefs & _) Hh. unfold JsMap.has in Hh.
  destruct (JsMap.get (plugins s) n) as [r|] eqn:Hg; [| discriminate].
  destruct (Hrefs n r Hg) as (_ & p & Hp & _). exists r, p.
  unfold lookup_plugin. rewrite Hg, Hp. reflexivity.
Qed.

(** X10.  On every reachable registry, when [canUnloadPlugin(n, ...)] over
    the stored plugins answers [canUnload = false], [unregister(n)] indeed
    rejects with [PLUGIN_UNREGISTRATION_FAILED], whose [details] is the
    [PLUGIN_HAS_DEPENDENTS] error, and leaves the registry unchanged. *)
Theorem canUnload_false_blocks_unregister (h : Heap) (ops : list reg_op) (n : string)
    (Hcan : PluginHelpers.canUnload
              (PluginHelpers.canUnloadPlugin n (stored_plugins (run_ops ops (empty_registry h))))
            = false) :
  let s := run_ops ops (empty_registry h) in
  unregister n s = (s, inl (wrapped "PLUGIN_UNREGISTRATION_FAILED" "PLUGIN_HAS_DEPENDENTS")).
Proof.
  cbv zeta. set (s := run_ops ops (empty_registry h)) in *.
  pose proof (integrity_reachable h ops) as Hi. fold s in Hi.
  unfold PluginHelpers.canUnload, PluginHelpers.canUnloadPlugin in Hcan.
  change (fold_left _ _ _) with (PluginHelpers.dependents (PluginHelpers.canUnloadPlugin n (stored_plugins s))) in Hcan.
  rewrite canUnloadPlugin_dependents in Hcan.
  destruct (filter (declares n) (stored_plugins s)) as [|p ps] eqn:Hf; [discriminate |].
  assert (Hp : In p (filter (declares n) (stored_plugins s))) by (rewrite Hf; left; reflexivity).
  apply filter_In in Hp. destruct Hp as [Hin Hdecl]. apply declares_in in Hdecl.
  destruct (stored_plugins_lookup s p Hi Hin) as (r & Hl).
  destruct Hi as (Hnd & Hrefs & Hdeps).
  destruct (Hdeps (name p) r p n Hl Hdecl) as [Hh Hdep].
  destruct (integrity_lookup_has s n (conj Hnd (conj Hrefs Hdeps)) Hh) as (rn & pn & Hln).
  rewrite (unregister_spec s n rn pn Hln).
  destruct (getDependents s n); [destruct Hdep | reflexivity].
Qed.

(** *** A recorded dependent pins its dependency *)

Definition pinned (a x : string) (s : Registry) : Prop :=
  In x (getDependents s a) /\ JsMap.has (plugins s) a = true.

Lemma pinned_write (a x : string) (s : Registry) (r : nat) (p : Plugin) :
  pinned a x s -> pinned a x (write_state s r p).
Proof. intro H; exact H. Qed.

Lemma pinned_register (a x : string) (r : nat) : preserves (pinned a x) (register r).
Proof.
  intros s [Hx Ha]. destruct (objs (heap s) r) as [p|] eqn:Hp.
  - rewrite (register_spec s r p Hp).
    destruct (JsMap.has (plugins s) (name p)) eqn:Hn; [split; assumption |].
    destruct (snd (validateDependencies p s)) as [e|[]]; [split; assumption |].
    cbn [fst]. unfold registered_state.
    destruct (updateDependencyGraph_spec p
                {| plugins := JsMap.set (plugins s) (name p) (next (heap s));
                   dependencyGraph := dependencyGraph s;
                   heap := fst (heap_alloc (heap s) p) |}) as (g & Hu & Hmono & _).
    rewrite Hu. cbn [fst]. split.
    + apply Hmono, Hx.
    + cbn [plugins]. rewrite set_absent by exact Hn. apply has_app_l, Ha.
  - unfold register, bind, get_reg, throw. cbn beta iota. rewrite Hp. split; assumption.
Qed.

Lemma pinned_unregister (a x n : string) : preserves (pinned a x) (unregister n).
Proof.
  intros s [Hx Ha]. destruct (lookup_plugin s n) as [[r p]|] eqn:Hl.
  - rewrite (unregister_spec s n r p Hl).
    destruct (getDependents s n) eqn:Hd; [| split; assumption].
    destruct (if enabled p then _ else _); [split; assumption |].
    assert (Han : a <> n) by (intros ->; rewrite Hd in Hx; destruct Hx).
    cbn [fst]. split.
    + unfold getDependents. cbn. rewrite get_delete_other by exact Han. exact Hx.
    + cbn. rewrite has_delete_other by exact Han. exact Ha.
  - unfold unregister, bind, get_reg, throw. cbn beta iota. rewrite Hl. split; assumption.
Qed.

Lemma pinned_enable (a x n : string) : preserves (pinned a x) (enable n).
Proof.
  intros s H. destruct (lookup_plugin s n) as [[r p]|] eqn:Hl.
  - rewrite (enable_spec s n r p Hl).
    destruct (enabled p); [exact H |]. destruct (forallb _ _); [| exact H].
    destruct (callback_result _ _); [exact H | exact H].
  - unfold enable, bind, get_reg, throw. cbn beta iota. rewrite Hl. exact H.
Qed.

Lemma pinned_disable (a x n : string) : preserves (pinned a x) (disable n).
Proof.
  intros s H. destruct (lookup_plugin s n) as [[r p]|] eqn:Hl.
  - rewrite (disable_spec s n r p Hl).
    destruct (negb (enabled p)); [exact H |]. destruct (filter _ _); [| exact H].
    destruct (callback_result _ _); [exact H | exact H].
  - unfold disable, bind, get_reg, throw. cbn beta iota. rewrite Hl. exact H.
Qed.

Lemma pinned_set_enabled_at (a x : string) (r : nat) (b : bool) :
  preserves (pinned a x) (set_enabled_at r b).
Proof.
  intros s H. destruct (objs (heap s) r) as [p|] eqn:Hp.
  - rewrite (set_enabled_at_spec s r p b Hp). exact H.
  - unfold set_enabled_at, bind, get_reg, ret. cbn beta iota. rewrite Hp. exact H.
Qed.

(** X11.  Once [x] is recorded among the dependents of a registered [a],
    every later sequence of registry operations keeps [a] registered with
    [x] recorded, even after [x] itself is unregistered (its name is never
    removed from [a]'s set); so [unregister(a)] never succeeds again: it
    rejects and leaves the registry unchanged. *)
Theorem dependent_pins_plugin (s : Registry) (ops : list reg_op) (a x : string)
    (Hx : In x (getDependents s a)) (Ha : JsMap.has (plugins s) a = true) :
  let s' := run_ops ops s in
  In x (getDependents s' a) /\ JsMap.has (plugins s') a = true /\
  exists e, unregister a s' = (s', inl e).
Proof.
  cbv zeta.
  destruct (preserves_run_ops (pinned a x) (pinned_register a x) (pinned_unregister a x)
              (pinned_disable a x) (pinned_enable a x) (pinned_set_enabled_at a x)
              ops s (conj Hx Ha)) as [Hx' Ha'].
  split; [exact Hx' | split; [exact Ha' |]].
  destruct (lookup_plugin (run_ops ops s) a) as [[r p]|] eqn:Hl.
  - rewrite (unregister_spec _ a r p Hl).
    destruct (getDependents (run_ops ops s) a); [destruct Hx' | eexists; reflexivity].
  - unfold unregister, bind, get_reg, throw. cbn beta iota. rewrite Hl. eexists; reflexivity.
Qed.

(** [register(A)] on an empty registry. *)
Definition registry_A (en : bool) : Registry :=
  fst (register 0 (empty_registry (heap_AB en))).

Lemma register_stores_fresh_copy_witness :
  let '(s', res) := register 1 (registry_A true) in
  getAll s' = getAll (registry_A true) ++ [next (heap (registry_A true))] /\
  lookup_plugin s' (name (plugin_B true)) = Some (next (heap (registry_A true)), plugin_B true) /\
  (forall k, k <> name (plugin_B true) ->
     JsMap.get (plugins s') k = JsMap.get (plugins (registry_A true)) k) /\
  objs (heap s') 1 = Some (plugin_B true) /\
  (forall d, In d (deps_or_nil (dependencies (plugin_B true))) ->
     In (name (plugin_B true)) (getDependents s' d)) /\
  res = (if enabled (plugin_B true)
         then callback_result "PLUGIN_REGISTRATION_FAILED" (initialize (plugin_B true))
         else inr tt).
Proof.
  apply (register_stores_fresh_copy (registry_A true) 1 (plugin_B true));
    [vm_compute; reflexivity | apply Nat.ltb_lt; vm_compute; reflexivity
    | vm_compute; reflexivity | vm_compute; reflexivity].
Defined.

Lemma register_missing_dependency_witness :
  register 1 (empty_registry (heap_AB true))
    = (empty_registry (heap_AB true),
       inl (wrapped "PLUGIN_REGISTRATION_FAILED" "DEPENDENCY_NOT_FOUND")).
Proof.
  apply (register_missing_dependency (empty_registry (heap_AB true)) 1 (plugin_B true) "A");
    [reflexivity | reflexivity | left; reflexivity | reflexivity].
Defined.

Lemma unknown_name_rejected_witness :
  unregister "C" (registry_AB true) = (registry_AB true, inl (SDKError "PLUGIN_NOT_FOUND" None)) /\
  enable "C" (registry_AB true) = (registry_AB true, inl (SDKError "PLUGIN_NOT_FOUND" None)) /\
  disable "C" (registry_AB true) = (registry_AB true, inl (SDKError "PLUGIN_NOT_FOUND" None)).
Proof. apply unknown_name_rejected. vm_compute. reflexivity. Defined.

Lemma enable_disable_idempotent_witness :
  snd (enable "A" (registry_AB false)) = inr tt /\
  enable "A" (fst (enable "A" (registry_AB false)))
    = (fst (enable "A" (registry_AB false)), inr tt).
Proof.
  split; [vm_compute; reflexivity |].
  apply (proj1 (enable_disable_idempotent (registry_AB false) "A")). vm_compute. reflexivity.
Defined.

Lemma disable_blocked_by_enabled_dependent_witness :
  disable "A" (registry_AB true)
    = (registry_AB true, inl (wrapped "PLUGIN_DISABLE_FAILED" "PLUGIN_HAS_ENABLED_DEPENDENTS")).
Proof.
  apply (disable_blocked_by_enabled_dependent (registry_AB true) "A" 2 (plugin_A true)
           "B" 3 (plugin_B true));
    [vm_compute; reflexivity | reflexivity | vm_compute; left; reflexivity
    | vm_compute; reflexivity | reflexivity].
Defined.

Lemma enable_outcome_witness :
  let s := fst (enable "A" (registry_AB false)) in
  (forall m, initialize (plugin_B false) = Some (Throws m) ->
     enable "B" s = (s, inl (SDKError "PLUGIN_ENABLE_FAILED" (Some (PluginThrew m))))) /\
  ((forall m, initialize (plugin_B false) <> Some (Throws m)) ->
   let '(s', res) := enable "B" s in
   res = inr tt /\ lookup_plugin s' "B" = Some (3, set_enabled (plugin_B false) true) /\
   plugins s' = plugins s /\ dependencyGraph s' = dependencyGraph s /\
   (forall r', r' <> 3 -> objs (heap s') r' = objs (heap s) r')).
Proof.
  apply (enable_outcome (fst (enable "A" (registry_AB false))) "B" 3 (plugin_B false));
    [vm_compute; reflexivity | reflexivity |].
  intros d Hd. cbn in Hd. destruct Hd as [<-|[]].
  exists 2, (plugin_A true). split; vm_compute; reflexivity.
Defined.

Lemma disable_outcome_witness :
  (forall m, destroy (plugin_B true) = Some (Throws m) ->
     disable "B" (registry_AB true)
       = (registry_AB true, inl (SDKError "PLUGIN_DISABLE_FAILED" (Some (PluginThrew m))))) /\
  ((forall m, destroy (plugin_B true) <> Some (Throws m)) ->
   let '(s', res) := disable "B" (registry_AB true) in
   res = inr tt /\ lookup_plugin s' "B" = Some (3, set_enabled (plugin_B true) false) /\
   plugins s' = plugins (registry_AB true) /\
   dependencyGraph s' = dependencyGraph (registry_AB true) /\
   (forall r', r' <> 3 -> objs (heap s') r' = objs (heap (registry_AB true)) r')).
Proof.
  apply (disable_outcome (registry_AB true) "B" 3 (plugin_B true));
    [vm_compute; reflexivity | reflexivity |].
  intros d rd pd Hd. vm_compute in Hd. destruct Hd.
Defined.

Lemma unregister_outcome_witness :
  (forall m, enabled (plugin_B true) = true -> destroy (plugin_B true) = Some (Throws m) ->
     unregister "B" (registry_AB true)
       = (registry_AB true,
          inl (SDKError "PLUGIN_UNREGISTRATION_FAILED" (Some (PluginThrew m))))) /\
  ((enabled (plugin_B true) = false \/ forall m, destroy (plugin_B true) <> Some (Throws m)) ->
   let '(s', res) := unregister "B" (registry_AB true) in
   res = inr tt /\ JsMap.get (plugins s') "B" = None /\ lookup_plugin s' "B" = None /\
   (forall k, k <> "B" ->
      JsMap.get (plugins s') k = JsMap.get (plugins (registry_AB true)) k /\
      JsMap.get (dependencyGraph s') k = JsMap.get (dependencyGraph (registry_AB true)) k) /\
   heap s' = heap (registry_AB true)).
Proof.
  apply (unregister_outcome (registry_AB true) "B" 3 (plugin_B true));
    [| vm_compute; reflexivity | vm_compute; reflexivity].
  vm_compute. apply NoDup_cons; [intros [H|[]]; discriminate |].
  apply NoDup_cons; [intros [] | apply NoDup_nil].
Defined.

Lemma canUnload_false_blocks_unregister_witness :
  let s := run_ops [OpRegister 0; OpRegister 1] (empty_registry (heap_AB true)) in
  unregister "A" s = (s, inl (wrapped "PLUGIN_UNREGISTRATION_FAILED" "PLUGIN_HAS_DEPENDENTS")).
Proof.
  apply (canUnload_false_blocks_unregister (heap_AB true) [OpRegister 0; OpRegister 1] "A").
  vm_compute. reflexivity.
Defined.

(** B unregistered: A stays pinned by the stale entry. *)
Lemma dependent_pins_plugin_witness :
  let s := fst (unregister "B" (registry_AB false)) in
  JsMap.has (plugins s) "B" = false /\
  (let s' := run_ops [OpEnable "A"; OpDestroyPasses] s in
   In "B" (getDependents s' "A") /\ JsMap.has (plugins s') "A" = true /\
   exists e, unregister "A" s' = (s', inl e)).
Proof.
  split; [vm_compute; reflexivity |].
  apply (dependent_pins_plugin (fst (unregister "B" (registry_AB false)))
           [OpEnable "A"; OpDestroyPasses] "A" "B");
    [vm_compute; left; reflexivity | vm_compute; reflexivity].
Defined.

(** ** The hook bus: further properties *)

Section JsMapSet.
Context {V : Type}.

Lemma replace_get_same (m : list (string * V)) (k : string) (v : V) :
  JsMap.get m k = Some v -> JsMap.replace m k v = m.
Proof.
  induction m as [|[k0 v0] m IH]; cbn; [discriminate |].
  destruct (String.eqb k k0) eqn:E.
  - intro H; injection H as ->. apply String.eqb_eq in E; subst. reflexivity.
  - intro H. rewrite IH by exact H. reflexivity.
Qed.

Lemma keys_replace (m : list (string * V)) (k : string) (v : V) :
  map fst (JsMap.replace m k v) = map fst m.
Proof.
  induction m as [|[k0 v0] m IH]; cbn; [reflexivity |].
  destruct (String.eqb k k0); cbn; [| rewrite IH]; reflexivity.
Qed.

Lemma nodup_set (m : list (string * V)) (k : string) (v : V) :
  NoDup (map fst m) -> NoDup (map fst (JsMap.set m k v)).
Proof.
  intro Hnd. unfold JsMap.set. destruct (JsMap.has m k) eqn:Hh.
  - rewrite keys_replace. exact Hnd.
  - apply nodup_app_key; [exact Hnd |]. intro Hin. apply has_in_keys in Hin. congruence.
Qed.

Lemma in_set (m : list (string * V)) (k k' : string) (v v' : V) :
  In (k', v') (JsMap.set m k v) -> In (k', v') m \/ (k' = k /\ v' = v).
Proof.
  unfold JsMap.set. destruct (JsMap.has m k).
  - clear. induction m as [|[k0 v0] m IH]; cbn; [tauto |].
    destruct (String.eqb k k0) eqn:E; cbn; intros [H|H].
    + injection H as <- <-. apply String.eqb_eq in E; subst. right; split; reflexivity.
    + left; right; exact H.
    + left; left; exact H.
    + destruct (IH H) as [H'|H']; [left; right; exact H' | right; exact H'].
  - intro H. apply in_app_or in H. destruct H as [H|[H|[]]]; [left; exact H |].
    injection H as <- <-. right; split; reflexivity.
Qed.
End JsMapSet.

Lemma cb_set_add_idem (c : list nat) (x : nat) : cb_set_add (cb_set_add c x) x = cb_set_add c x.
Proof.
  unfold cb_set_add. destruct (existsb (Nat.eqb x) c) eqn:E.
  - rewrite E. reflexivity.
  - rewrite existsb_app, E. cbn. rewrite Nat.eqb_refl. reflexivity.
Qed.

Lemma filter_keep_all {A} (f : A -> bool) (l : list A) :
  (forall x, In x l -> f x = true) -> filter f l = l.
Proof.
  induction l as [|x l IH]; intro H; cbn; [reflexivity |].
  rewrite (H x (or_introl eq_refl)), IH; [reflexivity |]. intros y Hy; apply H; right; exact Hy.
Qed.

Lemma cb_set_delete_add (c : list nat) (x : nat) :
  ~ In x c -> cb_set_delete (cb_set_add c x) x = c.
Proof.
  intro Hn. unfold cb_set_add.
  destruct (existsb (Nat.eqb x) c) eqn:E.
  - exfalso. apply existsb_exists in E. destruct E as (y & Hy & Ey).
    apply Nat.eqb_eq in Ey; subst. contradiction.
  - unfold cb_set_delete. rewrite filter_app. cbn. rewrite Nat.eqb_refl. cbn.
    rewrite app_nil_r. apply filter_keep_all. intros y Hy.
    destruct (Nat.eqb x y) eqn:Exy; [apply Nat.eqb_eq in Exy; subst; contradiction | reflexivity].
Qed.

Lemma on_cbs (h : string) (cb : nat) (b : Bus) :
  cbs_of (hooks (on h cb b)) h = cb_set_add (cbs_of (hooks b) h) cb.
Proof.
  unfold on, cbs_of. cbn [hooks]. rewrite get_set_same.
  destruct (JsMap.has (hooks b) h) eqn:Hh; [reflexivity |].
  rewrite get_set_same. unfold JsMap.has in Hh.
  destruct (JsMap.get (hooks b) h); [discriminate | reflexivity].
Qed.

Lemma on_other (h h' : string) (cb : nat) (b : Bus) :
  h' <> h -> JsMap.get (hooks (on h cb b)) h' = JsMap.get (hooks b) h'.
Proof.
  intro Hne. unfold on. cbn [hooks]. rewrite get_set_other by exact Hne.
  destruct (JsMap.has (hooks b) h); [reflexivity | apply get_set_other, Hne].
Qed.

Lemma off_cbs (h : string) (cb : nat) (b : Bus) :
  cbs_of (hooks (off h cb b)) h = cb_set_delete (cbs_of (hooks b) h) cb.
Proof.
  unfold off, cbs_of. destruct (JsMap.get (hooks b) h) as [cur|] eqn:Hg.
  - cbn [hooks]. rewrite get_set_same. reflexivity.
  - rewrite Hg. reflexivity.
Qed.

Lemma off_other (h h' : string) (cb : nat) (b : Bus) :
  h' <> h -> JsMap.get (hooks (off h cb b)) h' = JsMap.get (hooks b) h'.
Proof.
  intro Hne. unfold off. destruct (JsMap.get (hooks b) h); [| reflexivity].
  cbn [hooks]. apply get_set_other, Hne.
Qed.

Lemma on_idem (h : string) (cb : nat) (b : Bus) : on h cb (on h cb b) = on h cb b.
Proof.
  assert (Hg : JsMap.get (hooks (on h cb b)) h = Some (cb_set_add (cbs_of (hooks b) h) cb)).
  { rewrite <- on_cbs. unfold on, cbs_of. cbn [hooks]. rewrite get_set_same. reflexivity. }
  set (b1 := on h cb b) in *. clearbody b1.
  assert (Hh : JsMap.has (hooks b1) h = true) by (unfold JsMap.has; rewrite Hg; reflexivity).
  unfold on. cbv zeta. rewrite Hh, Hg, cb_set_add_idem.
  unfold JsMap.set. rewrite Hh, replace_get_same by exact Hg.
  destruct b1; reflexivity.
Qed.

(** X12.  [on(hook, cb)] is idempotent (a callback is kept once per hook);
    it adds [cb] at the end of [hook]'s callbacks unless already there, and
    [off(hook, cb)] removes it (doing nothing for a hook that is not a key);
    [off] after [on] of a callback not yet registered restores [hook]'s
    callbacks; neither touches the other hooks. *)
Theorem on_off_registration (b : Bus) (h : string) (cb : nat) :
  on h cb (on h cb b) = on h cb b /\
  cbs_of (hooks (on h cb b)) h = cb_set_add (cbs_of (hooks b) h) cb /\
  cbs_of (hooks (off h cb b)) h = cb_set_delete (cbs_of (hooks b) h) cb /\
  (JsMap.get (hooks b) h = None -> off h cb b = b) /\
  (~ In cb (cbs_of (hooks b) h) -> cbs_of (hooks (off h cb (on h cb b))) h = cbs_of (hooks b) h) /\
  (forall h', h' <> h -> JsMap.get (hooks (on h cb b)) h' = JsMap.get (hooks b) h' /\
                         JsMap.get (hooks (off h cb b)) h' = JsMap.get (hooks b) h').
Proof.
  split; [apply on_idem |]. split; [apply on_cbs |]. split; [apply off_cbs |].
  split; [intro H; unfold off; rewrite H; reflexivity |].
  split; [intro Hn; rewrite off_cbs, on_cbs; apply cb_set_delete_add, Hn |].
  intros h' Hne. split; [apply on_other, Hne | apply off_other, Hne].
Qed.

(** *** Reachable buses *)

Inductive bus_op : Type :=
| BOn (hook : string) (cb : nat)
| BOff (hook : string) (cb : nat)
| BClear (hook : option string)
| BEmit (hook : string) (args : list arg).

Definition run_bus_op (co : nat -> string -> list arg -> option error) (op : bus_op) (b : Bus)
  : Bus :=
  match op with
  | BOn h cb => on h cb b
  | BOff h cb => off h cb b
  | BClear o => clear o b
  | BEmit h args => fst (emit co h args b)
  end.

Fixpoint run_bus_ops (co : nat -> string -> list arg -> option error) (ops : list bus_op)
    (b : Bus) : Bus :=
  match ops with
  | [] => b
  | op :: ops' => run_bus_ops co ops' (run_bus_op co op b)
  end.

Definition bus_ok (b : Bus) : Prop :=
  NoDup (map fst (hooks b)) /\ (forall k c, In (k, c) (hooks b) -> NoDup c).

Lemma nodup_snoc (c : list nat) (x : nat) : NoDup c -> ~ In x c -> NoDup (c ++ [x]).
Proof.
  induction c as [|y c IH]; cbn; intros Hnd Hn; [constructor; [intros [] | constructor] |].
  inversion Hnd as [|? ? Hy Hnd']; subst. constructor.
  - rewrite in_app_iff. intros [H|[H|[]]]; [contradiction | apply Hn; left; symmetry; exact H].
  - apply IH; [exact Hnd' | intro H; apply Hn; right; exact H].
Qed.

Lemma nodup_cb_set_add (c : list nat) (x : nat) : NoDup c -> NoDup (cb_set_add c x).
Proof.
  intro Hnd. unfold cb_set_add. destruct (existsb (Nat.eqb x) c) eqn:E; [exact Hnd |].
  apply nodup_snoc; [exact Hnd |]. intro Hin.
  assert (existsb (Nat.eqb x) c = true) by (apply existsb_exists; exists x; split; [exact Hin | apply Nat.eqb_refl]).
  congruence.
Qed.

Lemma bus_ok_cbs (b : Bus) (h : string) : bus_ok b -> NoDup (cbs_of (hooks b) h).
Proof.
  intros [_ Hv]. unfold cbs_of. destruct (JsMap.get (hooks b) h) as [c|] eqn:Hg; [| constructor].
  exact (Hv h c (get_some_in _ _ _ Hg)).
Qed.

Lemma bus_ok_set (b : Bus) (h : string) (c : list nat) (cl : list call) :
  bus_ok b -> NoDup c -> bus_ok {| hooks := JsMap.set (hooks b) h c; calls := cl |}.
Proof.
  intros [Hnd Hv] Hc. split; cbn; [apply nodup_set, Hnd |].
  intros k c' Hin. destruct (in_set _ _ _ _ _ Hin) as [H|[_ ->]]; [exact (Hv k c' H) | exact Hc].
Qed.

Lemma initial_hooks_ok (cl : list call) : bus_ok {| hooks := initializeHooks []; calls := cl |}.
Proof.
  split; cbn.
  - repeat constructor; cbn; intros H; repeat destruct H as [H|H]; try discriminate; exact H.
  - intros k c H. repeat destruct H as [H|H]; try (injection H as _ <-; constructor); destruct H.
Qed.

Lemma bus_ok_step (co : nat -> string -> list arg -> option error) (op : bus_op) (b : Bus) :
  bus_ok b -> bus_ok (run_bus_op co op b).
Proof.
  intro H. destruct op as [h cb|h cb|[h|]|h args]; cbn [run_bus_op].
  - unfold on. set (m := if JsMap.has (hooks b) h then hooks b else JsMap.set (hooks b) h []).
    assert (Hm : bus_ok {| hooks := m; calls := calls b |}).
    { unfold m. destruct (JsMap.has (hooks b) h); [exact H |].
      apply bus_ok_set; [exact H | constructor]. }
    apply (bus_ok_set {| hooks := m; calls := calls b |}); [exact Hm |].
    apply nodup_cb_set_add. exact (bus_ok_cbs {| hooks := m; calls := calls b |} h Hm).
  - unfold off. destruct (JsMap.get (hooks b) h) as [cur|] eqn:Hg; [| exact H].
    apply bus_ok_set; [exact H |]. apply NoDup_filter.
    destruct H as [_ Hv]. exact (Hv h cur (get_some_in _ _ _ Hg)).
  - destruct H as [Hnd Hv]. split; cbn; [apply nodup_delete, Hnd |].
    intros k c Hin. exact (Hv k c (in_delete _ _ _ Hin)).
  - apply initial_hooks_ok.
  - rewrite emit_calls. exact H.
Qed.

Lemma nodup_keys_filter {V} (f : string * V -> bool) (m : list (string * V)) :
  NoDup (map fst m) -> NoDup (map fst (filter f m)).
Proof.
  induction m as [|[k v] m IH]; cbn; intro Hnd; [constructor |].
  inversion Hnd as [|? ? Hk Hnd']; subst.
  destruct (f (k, v)); cbn; [| apply IH, Hnd'].
  constructor; [| apply IH, Hnd'].
  intro Hin. apply Hk. apply in_map_iff in Hin. destruct Hin as (kv & <- & Hin).
  apply filter_In in Hin. apply in_map, Hin.
Qed.

(** X13.  On every bus reached from a new one by [on], [off], [clear] and
    [emit] calls: no hook is listed twice by [getRegisteredHooks()], it
    lists exactly the hooks for which [hasCallbacks] holds, and no hook
    holds a callback twice. *)
Theorem reachable_bus_registrations (co : nat -> string -> list arg -> option error)
    (ops : list bus_op) :
  let b := run_bus_ops co ops new_bus in
  NoDup (getRegisteredHooks b) /\
  (forall h, In h (getRegisteredHooks b) <-> hasCallbacks b h = true) /\
  (forall h, NoDup (cbs_of (hooks b) h)).
Proof.
  cbv zeta.
  assert (Hok : bus_ok (run_bus_ops co ops new_bus)).
  { assert (H0 : bus_ok new_bus) by apply initial_hooks_ok.
    revert H0. generalize new_bus. induction ops as [|op ops IH]; intros b Hb; cbn; [exact Hb |].
    apply IH, bus_ok_step, Hb. }
  set (b := run_bus_ops co ops new_bus) in *.
  split; [| split].
  - apply nodup_keys_filter, (proj1 Hok).
  - intro h. unfold getRegisteredHooks, hasCallbacks. split.
    + intro Hin. apply in_map_iff in Hin. destruct Hin as ([k c] & Hk & Hin). cbn in Hk; subst k.
      apply filter_In in Hin. destruct Hin as [Hin Hlen].
      rewrite (in_get_nodup _ _ _ (proj1 Hok) Hin). exact Hlen.
    + destruct (JsMap.get (hooks b) h) as [c|] eqn:Hg; [| discriminate]. intro Hlen.
      apply in_map_iff. exists (h, c). split; [reflexivity |].
      apply filter_In. split; [apply get_some_in, Hg | exact Hlen].
  - intro h. apply bus_ok_cbs, Hok.
Qed.

Lemma skipn_length_app {A} (l m : list A) : skipn (length l) (l ++ m) = m.
Proof. induction l as [|x l IH]; cbn; [reflexivity | exact IH]. Qed.

(** X14.  After [off(hook, cb)], an [emit(hook, ...)] never invokes [cb]
    for [hook] (with any arguments), whatever the callbacks do. *)
Theorem off_then_emit_skips (co : nat -> string -> list arg -> option error)
    (b : Bus) (h : string) (cb : nat) (args args' : list arg) :
  let b' := off h cb b in
  ~ In (Call cb h args') (skipn (length (calls b')) (calls (fst (emit co h args b')))).
Proof.
  cbv zeta. rewrite emit_calls. cbn [fst calls]. rewrite skipn_length_app.
  rewrite off_cbs. intro Hin. apply in_concat in Hin. destruct Hin as (l & Hl & Hin).
  apply in_map_iff in Hl. destruct Hl as (c & <- & Hc).
  unfold cb_set_delete in Hc. apply filter_In in Hc. destruct Hc as [_ Hc].
  unfold emit_step in Hin. destruct Hin as [E|Hin].
  - injection E as -> _. rewrite Nat.eqb_refl in Hc. discriminate.
  - destruct (co c h args) as [err|]; [| destruct Hin].
    destruct (String.eqb h "error") eqn:He; [destruct Hin |].
    apply in_map_iff in Hin. destruct Hin as (d & E & _). injection E as _ Eh _.
    subst h. rewrite String.eqb_refl in He. discriminate.
Qed.

(** ** The store: further properties *)

Definition is_entry (l : nat) (e : option nat) : bool :=
  match e with Some x => Nat.eqb x l | None => false end.

Lemma existsb_entry_live (ls : list (option nat)) (l : nat) :
  existsb (is_entry l) ls = true <-> In l (live ls).
Proof.
  induction ls as [|[x|] ls IH]; cbn; [split; [discriminate | tauto] | |].
  - rewrite orb_true_iff, IH, Nat.eqb_eq. split; intros [H|H]; auto.
  - exact IH.
Qed.

Lemma live_delete (ls : list (option nat)) (l : nat) :
  live (listeners_delete ls l) = filter (fun x => negb (Nat.eqb x l)) (live ls).
Proof.
  unfold live, listeners_delete.
  induction ls as [|[x|] ls IH]; cbn; [reflexivity | |].
  - destruct (Nat.eqb x l); cbn; rewrite IH; reflexivity.
  - exact IH.
Qed.

Lemma live_add (ls : list (option nat)) (l : nat) :
  live (listeners_add ls l) = if existsb (is_entry l) ls then live ls else live ls ++ [l].
Proof.
  unfold listeners_add. change (fun e => match e with Some x => Nat.eqb x l | None => false end)
    with (is_entry l).
  destruct (existsb (is_entry l) ls); [reflexivity |].
  unfold live. rewrite flat_map_app. reflexivity.
Qed.

Lemma listener_count_live (st : Store) : getListenerCount st = length (live (listeners st)).
Proof.
  unfold getListenerCount, live. induction (listeners st) as [|[x|] ls IH]; cbn; congruence.
Qed.

(** X15.  The closure returned by [subscribe(l)] removes exactly [l];
    subscribing [l] again then puts it last (a JavaScript [Set] appends a
    value that was deleted); [subscribe] is idempotent; and unsubscribing a
    listener just subscribed restores the count. *)
Theorem unsubscribe_spec (st : Store) (l : nat) :
  live (listeners (unsubscribe l st)) = filter (fun x => negb (Nat.eqb x l)) (live (listeners st)) /\
  live (listeners (subscribe l (unsubscribe l st)))
    = filter (fun x => negb (Nat.eqb x l)) (live (listeners st)) ++ [l] /\
  subscribe l (subscribe l st) = subscribe l st /\
  (~ In l (live (listeners st)) ->
   getListenerCount (unsubscribe l (subscribe l st)) = getListenerCount st).
Proof.
  split; [apply live_delete |]. split.
  - cbn. rewrite live_add, live_delete.
    destruct (existsb (is_entry l) (listeners_delete (listeners st) l)) eqn:E; [| reflexivity].
    exfalso. apply existsb_entry_live in E. rewrite live_delete in E.
    apply filter_In in E. destruct E as [_ E]. rewrite Nat.eqb_refl in E. discriminate.
  - split.
    + unfold subscribe, with_listeners. cbn. f_equal.
      unfold listeners_add at 1.
      change (fun e => match e with Some x => Nat.eqb x l | None => false end) with (is_entry l).
      assert (Hin : existsb (is_entry l) (listeners_add (listeners st) l) = true).
      { apply existsb_entry_live. rewrite live_add.
        destruct (existsb (is_entry l) (listeners st)) eqn:E.
        - apply existsb_entry_live, E.
        - apply in_or_app. right. left. reflexivity. }
      rewrite Hin. reflexivity.
    + intro Hn. rewrite !listener_count_live.
      unfold unsubscribe, subscribe, with_listeners; cbn [listeners]. rewrite live_delete, live_add.
      destruct (existsb (is_entry l) (listeners st)) eqn:E.
      * apply existsb_entry_live in E. contradiction.
      * rewrite filter_app. cbn. rewrite Nat.eqb_refl. cbn. rewrite app_nil_r.
        rewrite filter_keep_all; [reflexivity |]. intros x Hx.
        destruct (Nat.eqb x l) eqn:Ex; [apply Nat.eqb_eq in Ex; subst; contradiction | reflexivity].
Qed.

Lemma forEach_from_empty (la : nat -> list action) (fuel i stt prev : nat) (st : Store) :
  (forall e, In e (listeners st) -> e = None) -> forEach_from la fuel i stt prev st = st.
Proof.
  intro Hnone. revert i; induction fuel as [|fuel IH]; intro i; cbn; [reflexivity |].
  destruct (nth_error (listeners st) i) as [[l|]|] eqn:Hi; [| apply IH | reflexivity].
  apply nth_error_In in Hi. discriminate (Hnone _ Hi).
Qed.

Lemma notified_persistState (st : Store) : notified (persistState st) = notified st.
Proof.
  unfold persistState. destruct (persistKey st) as [k|]; [destruct (String.eqb k "")|]; reflexivity.
Qed.

(** X16.  After [clearListeners()] the count is 0, no [setState] notifies
    anyone (whatever the update), and a later [subscribe] counts again. *)
Theorem clearListeners_silences (la : nat -> list action) (fuel : nat) (st : Store)
    (u : update) (l : nat) :
  getListenerCount (clearListeners st) = 0 /\
  notified (setState la fuel u (clearListeners st)) = notified st /\
  getListenerCount (subscribe l (clearListeners st)) = 1.
Proof.
  assert (Hnone : forall e, In e (listeners (clearListeners st)) -> e = None).
  { intros e He. cbn in He. apply in_map_iff in He. destruct He as (_ & <- & _). reflexivity. }
  assert (Hlive : live (listeners (clearListeners st)) = []).
  { cbn. induction (listeners st); cbn; [reflexivity | exact IHl0]. }
  split; [rewrite listener_count_live, Hlive; reflexivity |]. split.
  - unfold setState.
    set (st1 := match u with
                | Functional f => _
                | Partial p => _
                end).
    assert (Hn1 : forall e, In e (listeners st1) -> e = None).
    { unfold st1. destruct u as [p|f]; [exact Hnone |].
      destruct (f _ _); exact Hnone. }
    assert (Hnt : notified st1 = notified st).
    { unfold st1. destruct u as [p|f]; [reflexivity |]. destruct (f _ _); reflexivity. }
    destruct (negb _); [| exact Hnt].
    unfold notifyListeners. rewrite forEach_from_empty by exact Hn1.
    destruct (persist st1); [rewrite notified_persistState |]; exact Hnt.
  - rewrite listener_count_live. cbn [subscribe listeners with_listeners].
    rewrite live_add. rewrite Hlive.
    destruct (existsb (is_entry l) (listeners (clearListeners st))) eqn:E; [| reflexivity].
    apply existsb_entry_live in E. rewrite Hlive in E. destruct E.
Qed.

(** X17.  [reset()] installs [initialState] and always runs the
    notification pass, even when the state already is [initialState]
    (unlike [setState]): with listeners that do not change the
    subscriptions, each present listener is called once with
    ([initialState], previous state); nothing is written to storage, and
    the key removed is [persistKey] exactly when persisting to a non-empty
    key. *)
Theorem reset_always_notifies (la : nat -> list action) (fuel initialState : nat) (st : Store)
    (Hpas : forall l, la l = []) (Hlen : length (listeners st) <= fuel) :
  let '(st', removed) := reset la fuel initialState st in
  state st' = initialState /\
  notified st' = notified st ++ map (fun l => (l, initialState, state st)) (live (listeners st)) /\
  writes st' = writes st /\ listeners st' = listeners st /\
  removed = (if persist st then
               match persistKey st with
               | Some k => if String.eqb k "" then None else Some k
               | None => None
               end
             else None).
Proof.
  unfold reset, notifyListeners. cbv zeta.
  rewrite (forEach_from_passive la Hpas) by (cbn; lia). cbn.
  repeat split; reflexivity.
Qed.

Lemma run_actions_writes (acts : list action) (st : Store) :
  writes (run_actions acts st) = writes st.
Proof. revert st; induction acts as [|[x|x|] acts IH]; intro st; cbn; try rewrite IH; reflexivity. Qed.

Lemma forEach_from_writes (la : nat -> list action) (fuel i stt prev : nat) (st : Store) :
  writes (forEach_from la fuel i stt prev st) = writes st.
Proof.
  revert i st; induction fuel as [|fuel IH]; intros i st; cbn; [reflexivity |].
  destruct (nth_error (listeners st) i) as [[l|]|]; rewrite ?IH; try reflexivity.
  unfold run_listener. rewrite run_actions_writes. reflexivity.
Qed.

(** X18.  An object-form [setState(partial)] on a store whose current
    object is allocated writes, when persisting to a non-empty key [k],
    exactly one entry: [k] with the merged object [{ ...state, ...partial }]
    (whatever the listeners do); when not persisting it writes nothing. *)
Theorem setState_partial_persists (la : nat -> list action) (fuel : nat) (st : Store)
    (p : fields) (Hwf : state st < snext st) :
  writes (setState la fuel (Partial p) st)
    = writes st ++
      (if persist st then
         match persistKey st with
         | Some k => if String.eqb k "" then [] else [(k, spread (deref_state st (state st)) p)]
         | None => []
         end
       else []).
Proof.
  unfold setState.
  assert (Hne : Nat.eqb (state (alloc_state st (spread (deref_state st (state st)) p))) (state st) = false)
    by (cbn; apply Nat.eqb_neq; lia).
  rewrite Hne; cbn [negb].
  set (st1 := alloc_state st (spread (deref_state st (state st)) p)).
  set (st2 := notifyListeners la fuel (state st1) (state st) st1).
  assert (H2 : same_value st1 st2) by apply forEach_from_same_value.
  destruct H2 as (Hs & Hh & _ & Hpe & Hpk).
  assert (Hw : writes st2 = writes st) by (unfold st2, notifyListeners; rewrite forEach_from_writes; reflexivity).
  rewrite Hpe. change (persist st1) with (persist st).
  destruct (persist st); [| rewrite app_nil_r; exact Hw].
  unfold persistState. rewrite Hpk. change (persistKey st1) with (persistKey st).
  destruct (persistKey st) as [k|]; [| rewrite app_nil_r; exact Hw].
  destruct (String.eqb k ""); [rewrite app_nil_r; exact Hw |].
  cbn [writes]. rewrite Hw. unfold deref_state at 1. rewrite Hs, Hh.
  cbn. rewrite Nat.eqb_refl. reflexivity.
Qed.

(** ** The coordinator: further properties *)

Lemma with_plugins_eq (m : RM unit) (sdk : SDK) :
  with_plugins m sdk =
    ({| reg := fst (m (reg sdk)); bus := bus sdk; store := store sdk;
        isInitialized := isInitialized sdk; isDestroyed := isDestroyed sdk |},
     snd (m (reg sdk))).
Proof. unfold with_plugins. destruct (m (reg sdk)); reflexivity. Qed.

Lemma clearListeners_count (st : Store) : getListenerCount (clearListeners st) = 0.
Proof.
  unfold getListenerCount, clearListeners, with_listeners. cbn [listeners].
  induction (listeners st); cbn; [reflexivity | exact IHl].
Qed.

Lemma emit_hooks (co : nat -> string -> list arg -> option error) (h : string)
    (args : list arg) (b : Bus) :
  hooks (fst (emit co h args b)) = hooks b /\ snd (emit co h args b) = None.
Proof. rewrite emit_calls. split; reflexivity. Qed.

Lemma destroy_sdk_spec (co : nat -> string -> list arg -> option error) (sdk : SDK) :
  isDestroyed sdk = false ->
  match destroy_sdk co sdk with
  | (sdk', inr _) =>
      isDestroyed sdk' = true /\ isInitialized sdk' = false /\
      getListenerCount (store sdk') = 0 /\ getRegisteredHooks (bus sdk') = [] /\
      destroy_sdk co sdk' = (sdk', inr tt)
  | (sdk', inl _) =>
      isDestroyed sdk' = false /\ isInitialized sdk' = isInitialized sdk /\
      store sdk' = store sdk
  end.
Proof.
  intro Hnd. unfold destroy_sdk. rewrite Hnd. cbv zeta. unfold emitAsync.
  rewrite emit_calls. rewrite with_plugins_eq.
  destruct (snd (destroy_plugins _ _ _)) as [e|[]].
  - rewrite emit_calls. cbn. repeat split; first [reflexivity | exact Hnd].
  - rewrite emit_calls. cbn [with_bus isDestroyed isInitialized store bus].
    split; [reflexivity | split; [reflexivity | split; [apply clearListeners_count | split]]].
    + reflexivity.
    + reflexivity.
Qed.

(** X19.  [destroy()] on a coordinator not yet destroyed either resolves,
    leaving it destroyed, not initialized, with no state listener and no
    hook holding a callback, a second [destroy()] then resolving at once
    without doing anything; or rejects (a plugin's [destroy] throwing in
    the forced-disable fallback), leaving the flags and the store as they
    were. *)
Theorem destroy_sdk_outcome (co : nat -> string -> list arg -> option error) (sdk : SDK)
    (Hnd : isDestroyed sdk = false) :
  match destroy_sdk co sdk with
  | (sdk', inr _) =>
      info_isDestroyed (getInfo sdk') = true /\ info_isInitialized (getInfo sdk') = false /\
      stateListenerCount (getInfo sdk') = 0 /\ registeredHooks (getInfo sdk') = [] /\
      destroy_sdk co sdk' = (sdk', inr tt)
  | (sdk', inl _) =>
      isDestroyed sdk' = false /\ isInitialized sdk' = isInitialized sdk /\
      store sdk' = store sdk
  end.
Proof.
  pose proof (destroy_sdk_spec co sdk Hnd) as H.
  destruct (destroy_sdk co sdk) as [sdk' [e|[]]]; exact H.
Qed.

Lemma initialize_sdk_spec (co : nat -> string -> list arg -> option error)
    (cfg : list nat) (sdk : SDK) :
  isInitialized sdk = false -> isDestroyed sdk = false ->
  match initialize_sdk co cfg sdk with
  | (sdk', inr _) => isInitialized sdk' = true /\ isDestroyed sdk' = false
  | (sdk', inl e) =>
      isInitialized sdk' = false /\ isDestroyed sdk' = false /\
      reg sdk' = fst (for_each cfg register (reg sdk)) /\ store sdk' = store sdk /\
      (forall c, In c (cbs_of (hooks (bus sdk')) "error") ->
         In (Call c "error" [AErr e; AStr "initialization"]) (calls (bus sdk')))
  end.
Proof.
  intros Hi Hd. unfold initialize_sdk. rewrite Hi, Hd. unfold emitAsync.
  rewrite emit_calls. rewrite with_plugins_eq. cbn [reg with_bus].
  destruct (snd (for_each cfg register (reg sdk))) as [e|[]].
  - unfold sdk_fail. rewrite emit_calls. cbn [with_bus isInitialized isDestroyed reg store bus hooks calls].
    split; [exact Hi | split; [exact Hd | split; [reflexivity | split; [reflexivity |]]]].
    intros c Hc. apply in_or_app. right. apply in_concat.
    eexists; split; [apply in_map, Hc | left; reflexivity].
  - rewrite emit_calls. cbn. split; [reflexivity | exact Hd].
Qed.

(** X20.  The coordinator's guards: after [initialize()] resolved, any
    further [initialize()] rejects with [ALREADY_INITIALIZED], changing
    nothing; after [destroy()] resolved, [initialize()] rejects with
    [SDK_DESTROYED] and [reset()] with [NOT_INITIALIZED], changing
    nothing. *)
Theorem sdk_lifecycle_guards (co : nat -> string -> list arg -> option error)
    (la : nat -> list action) (fuel initialState : nat) (cfg cfg' : list nat) (sdk : SDK) :
  (snd (initialize_sdk co cfg sdk) = inr tt ->
   initialize_sdk co cfg' (fst (initialize_sdk co cfg sdk))
     = (fst (initialize_sdk co cfg sdk), inl (SDKError "ALREADY_INITIALIZED" None))) /\
  (isDestroyed sdk = false -> snd (destroy_sdk co sdk) = inr tt ->
   initialize_sdk co cfg (fst (destroy_sdk co sdk))
     = (fst (destroy_sdk co sdk), inl (SDKError "SDK_DESTROYED" None)) /\
   reset_sdk co la fuel initialState (fst (destroy_sdk co sdk))
     = (fst (destroy_sdk co sdk), inl (SDKError "NOT_INITIALIZED" None))).
Proof.
  split.
  - intro Hok.
    destruct (isInitialized sdk) eqn:Hi.
    { unfold initialize_sdk in Hok. rewrite Hi in Hok. discriminate. }
    destruct (isDestroyed sdk) eqn:Hd.
    { unfold initialize_sdk in Hok. rewrite Hi, Hd in Hok. discriminate. }
    pose proof (initialize_sdk_spec co cfg sdk Hi Hd) as H.
    destruct (initialize_sdk co cfg sdk) as [sdk' [e|[]]]; [discriminate |].
    destruct H as [Hi' _]. cbn [fst]. unfold initialize_sdk at 1. rewrite Hi'. reflexivity.
  - intros Hnd Hok. pose proof (destroy_sdk_spec co sdk Hnd) as H.
    destruct (destroy_sdk co sdk) as [sdk' [e|[]]]; [discriminate |].
    destruct H as (Hd' & Hi' & _). cbn [fst]. split.
    + unfold initialize_sdk. rewrite Hi', Hd'. reflexivity.
    + unfold reset_sdk. rewrite Hi'. reflexivity.
Qed.

(** X21.  When [initialize()] of a fresh coordinator rejects, it stays not
    initialized; the registrations made before the failing one remain (the
    registry is the one left by the [register] loop); the store is
    untouched; and every ['error'] callback has been called with the
    rejected error and the context ["initialization"].  When it resolves,
    the coordinator is initialized. *)
Theorem initialize_failure_reported (co : nat -> string -> list arg -> option error)
    (cfg : list nat) (sdk : SDK)
    (Hi : isInitialized sdk = false) (Hd : isDestroyed sdk = false) :
  match initialize_sdk co cfg sdk with
  | (sdk', inr _) => isInitialized sdk' = true
  | (sdk', inl e) =>
      isInitialized sdk' = false /\ reg sdk' = fst (for_each cfg register (reg sdk)) /\
      store sdk' = store sdk /\
      (forall c, In c (cbs_of (hooks (bus sdk')) "error") ->
         In (Call c "error" [AErr e; AStr "initialization"]) (calls (bus sdk')))
  end.
Proof.
  pose proof (initialize_sdk_spec co cfg sdk Hi Hd) as H.
  destruct (initialize_sdk co cfg sdk) as [sdk' [e|[]]].
  - destruct H as (H1 & _ & H3 & H4 & H5). exact (conj H1 (conj H3 (conj H4 H5))).
  - exact (proj1 H).
Qed.

Lemma reset_state (la : nat -> list action) (fuel initialState : nat) (st : Store) :
  state (fst (reset la fuel initialState st)) = initialState.
Proof.
  unfold reset. cbv zeta. cbn [fst].
  destruct (forEach_from_same_value la fuel 0 initialState (state st)
              (with_state st (sheap st) (snext st) initialState)) as [Hs _].
  change (state (with_state st (sheap st) (snext st) initialState)) with initialState.
  unfold notifyListeners. rewrite Hs. reflexivity.
Qed.

(** X22.  [reset()] of an initialized coordinator whose first plugin (in
    registration order) is enabled and has an enabled dependent rejects
    with [PLUGIN_DISABLE_FAILED] (an [SDKError], so not wrapped in
    [RESET_FAILED]), whose [details] is [PLUGIN_HAS_ENABLED_DEPENDENTS]:
    its disable-then-enable pass runs in registration order, dependencies
    first.  The registry is unchanged and the store has already been reset
    to [initialState]. *)
Theorem reset_blocked_by_enabled_dependent (co : nat -> string -> list arg -> option error)
    (la : nat -> list action) (fuel initialState : nat) (sdk : SDK)
    (r : nat) (rs : list nat) (p : Plugin) (d : string) (rd : nat) (pd : Plugin)
    (Hi : isInitialized sdk = true) (Hall : getAll (reg sdk) = r :: rs)
    (Hl : lookup_plugin (reg sdk) (name p) = Some (r, p)) (Hen : enabled p = true)
    (Hd : In d (getDependents (reg sdk) (name p)))
    (Hdl : lookup_plugin (reg sdk) d = Some (rd, pd)) (Hde : enabled pd = true) :
  let '(sdk', res) := reset_sdk co la fuel initialState sdk in
  res = inl (wrapped "PLUGIN_DISABLE_FAILED" "PLUGIN_HAS_ENABLED_DEPENDENTS") /\
  reg sdk' = reg sdk /\ state (store sdk') = initialState /\ isInitialized sdk' = true.
Proof.
  destruct (lookup_plugin_objs (reg sdk) (name p) r p Hl) as [_ Hp].
  assert (Hdis : disable (name p) (reg sdk)
                 = (reg sdk, inl (wrapped "PLUGIN_DISABLE_FAILED" "PLUGIN_HAS_ENABLED_DEPENDENTS"))).
  { rewrite (disable_spec (reg sdk) (name p) r p Hl), Hen. cbn [negb].
    destruct (filter (dep_enabled (reg sdk)) (getDependents (reg sdk) (name p))) eqn:E;
      [| reflexivity].
    exfalso. assert (Hin : In d (filter (dep_enabled (reg sdk)) (getDependents (reg sdk) (name p)))).
    { apply filter_In. split; [exact Hd | unfold dep_enabled; rewrite Hdl; exact Hde]. }
    rewrite E in Hin. destruct Hin. }
  pose proof (reset_state la fuel initialState (store sdk)) as Hst.
  unfold reset_sdk. rewrite Hi. cbn [negb].
  destruct (reset la fuel initialState (store sdk)) as [st key]. cbn [fst] in Hst. cbv zeta.
  rewrite with_plugins_eq. cbn [reg]. rewrite Hall.
  match goal with
  | |- context [for_each (r :: rs) ?f (reg sdk)] =>
      assert (Hloop : for_each (r :: rs) f (reg sdk)
                      = (reg sdk, inl (wrapped "PLUGIN_DISABLE_FAILED" "PLUGIN_HAS_ENABLED_DEPENDENTS")))
  end.
  { cbn [for_each]. unfold bind, get_reg. cbv beta iota. rewrite Hp. cbv beta iota.
    rewrite Hen. rewrite Hdis. reflexivity. }
  rewrite Hloop. cbn [fst snd].
  unfold sdk_fail. rewrite emit_calls. cbn.
  repeat split; first [reflexivity | exact Hst | exact Hi].
Qed.

(** ** Facts about the plugin helpers *)
Module PluginHelpersFacts.
Import PluginHelpers.

(** [plugins.find(p => p.name === n)] misses exactly when no plugin has
    that name. *)
Lemma find_plugin_none (ps : list Plugin) (d : string) :
  find_plugin ps d = None <-> forall q, In q ps -> name q <> d.
Proof.
  unfold find_plugin. induction ps as [|q ps IH]; cbn; [tauto |].
  destruct (String.eqb (name q) d) eqn:E.
  - apply String.eqb_eq in E. split; [discriminate | intro H; exfalso; exact (H q (or_introl eq_refl) E)].
  - apply String.eqb_neq in E. rewrite IH. split.
    + intros H q' [<-|Hq]; [exact E | exact (H q' Hq)].
    + intros H q' Hq. exact (H q' (or_intror Hq)).
Qed.

Lemma find_plugin_some (ps : list Plugin) (d : string) (p : Plugin) :
  find_plugin ps d = Some p -> In p ps /\ name p = d.
Proof.
  unfold find_plugin. intro H. apply find_some in H. destruct H as [H1 H2].
  apply String.eqb_eq in H2. split; assumption.
Qed.

Lemma find_plugin_flag (ps : list Plugin) (d : string) :
  match find_plugin ps d with Some _ => false | None => true end
  = negb (existsb (fun q => String.eqb (name q) d) ps).
Proof.
  unfold find_plugin. induction ps as [|q ps IH]; cbn; [reflexivity |].
  destruct (String.eqb (name q) d); [reflexivity | exact IH].
Qed.

Lemma fold_missing (av : list Plugin) (ds acc : list string) :
  fold_left (fun acc dep =>
               match find_plugin av dep with
               | Some _ => acc
               | None => acc ++ [dep]
               end) ds acc
  = acc ++ filter (fun d => match find_plugin av d with Some _ => false | None => true end) ds.
Proof.
  revert acc; induction ds as [|d ds IH]; intro acc; cbn; [rewrite app_nil_r; reflexivity |].
  destruct (find_plugin av d); rewrite IH; [| rewrite <- app_assoc]; reflexivity.
Qed.

Lemma filter_nil_iff {A} (f : A -> bool) (l : list A) :
  filter f l = [] <-> forall x, In x l -> f x = false.
Proof.
  induction l as [|x l IH]; cbn; [tauto |].
  destruct (f x) eqn:E; split.
  - discriminate.
  - intro H. rewrite (H x (or_introl eq_refl)) in E. discriminate.
  - intros H y [<-|Hy]; [exact E | apply IH; assumption].
  - intro H. apply IH. intros y Hy. exact (H y (or_intror Hy)).
Qed.

Lemma set_delete_in (s : list string) (x y : string) :
  In y (set_delete s x) <-> In y s /\ y <> x.
Proof.
  unfold set_delete. rewrite filter_In, Bool.negb_true_iff, String.eqb_neq.
  split; intros [H1 H2]; split; congruence.
Qed.

Lemma nodup_snoc_name (c : list string) (x : string) :
  NoDup c -> ~ In x c -> NoDup (c ++ [x]).
Proof.
  intros Hc Hx. induction Hc as [|y c Hy Hc IH]; cbn.
  - constructor; [intros [] | constructor].
  - constructor.
    + rewrite in_app_iff. intros [H|[H|[]]]; [exact (Hy H) | subst; apply Hx; left; reflexivity].
    + apply IH. intro H. apply Hx. right. exact H.
Qed.

(** *** The inner loop of [sortPluginsByDependencies]'s [visit] *)

(** The [for (const depName of plugin.dependencies)] loop of [visit], for a
    given recursive [visit]; [sort_visit (S fuel)] runs it with
    [sort_visit fuel]. *)
Section SortDepsLoop.
Variable plugins : list Plugin.
Variable visit : Plugin -> list string -> list string -> list Plugin -> visit_result.

Fixpoint sort_deps_loop (ds : list string) (vd vg : list string) (so : list Plugin)
  : visit_result :=
  match ds with
  | [] => VOk vd vg so
  | depName :: ds' =>
      match find_plugin plugins depName with
      | Some depPlugin =>
          match visit depPlugin vd vg so with
          | VOk vd' vg' so' => sort_deps_loop ds' vd' vg' so'
          | res => res
          end
      | None => sort_deps_loop ds' vd vg so
      end
  end.
End SortDepsLoop.

Lemma sort_visit_S (fuel : nat) (ps : list Plugin) (p : Plugin)
    (vd vg : list string) (so : list Plugin) :
  sort_visit (S fuel) ps p vd vg so =
  if set_has vg (name p) then VCircular (name p)
  else if set_has vd (name p) then VOk vd vg so
  else match sort_deps_loop ps (sort_visit fuel ps) (deps_or_nil (dependencies p))
               vd (set_add vg (name p)) so with
       | VOk vd' vg' so' =>
           VOk (set_add vd' (name p)) (set_delete vg' (name p)) (so' ++ [p])
       | res => res
       end.
Proof. reflexivity. Qed.

(** Each plugin of [sorted] comes after every plugin that it depends on and
    that is present in [plugins]. *)
Definition deps_before (ps so : list Plugin) : Prop :=
  forall i q d, nth_error so i = Some q -> In d (deps_or_nil (dependencies q)) ->
    find_plugin ps d <> None ->
    exists j q', j < i /\ nth_error so j = Some q' /\ name q' = d.

(** What [visit] keeps true of [visited] and [sorted]. *)
Definition sort_good (ps : list Plugin) (vd : list string) (so : list Plugin) : Prop :=
  (forall x, In x vd <-> In x (map name so)) /\ NoDup (map name so) /\
  incl so ps /\ deps_before ps so.

Definition visit_post (ps : list Plugin) (p : Plugin) (vd vg : list string)
    (so : list Plugin) (r : visit_result) : Prop :=
  match r with
  | VOk vd' vg' so' =>
      sort_good ps vd' so' /\
      (forall x, In x vd' -> In x vd \/ ~ In x vg) /\
      (forall x, In x vg' <-> In x vg) /\
      In (name p) vd' /\ (forall x, In x vd -> In x vd')
  | _ => True
  end.

Lemma sort_good_nil (ps : list Plugin) : sort_good ps [] [].
Proof.
  repeat split; cbn; try tauto.
  - constructor.
  - intros x [].
  - intros [|i] q d H; discriminate.
Qed.

Lemma deps_before_snoc (ps so : list Plugin) (p : Plugin) :
  deps_before ps so ->
  (forall d, In d (deps_or_nil (dependencies p)) -> find_plugin ps d <> None ->
     In d (map name so)) ->
  deps_before ps (so ++ [p]).
Proof.
  intros Hb Hp i q d Hi Hd Hf.
  destruct (Nat.lt_ge_cases i (length so)) as [Hlt|Hge].
  - rewrite nth_error_app1 in Hi by exact Hlt.
    destruct (Hb i q d Hi Hd Hf) as (j & q' & Hj & Hq' & Hn).
    exists j, q'. repeat split; [exact Hj | | exact Hn].
    rewrite nth_error_app1; [exact Hq' |].
    lia.
  - rewrite nth_error_app2 in Hi by exact Hge.
    destruct (i - length so) as [|k] eqn:E; cbn in Hi; [| destruct k; discriminate].
    injection Hi as <-. specialize (Hp d Hd Hf).
    apply in_map_iff in Hp. destruct Hp as (q' & Hn & Hin).
    apply In_nth_error in Hin. destruct Hin as (j & Hj).
    exists j, q'. repeat split; [| | exact Hn].
    + assert (j < length so) by (apply nth_error_Some; rewrite Hj; discriminate). lia.
    + rewrite nth_error_app1; [exact Hj |]. apply nth_error_Some. rewrite Hj. discriminate.
Qed.

Section SortVisit.
Variable ps : list Plugin.

Lemma sort_deps_loop_post (f : nat)
    (IH : forall p vd vg so, In p ps -> sort_good ps vd so ->
          visit_post ps p vd vg so (sort_visit f ps p vd vg so))
    (ds vd vg : list string) (so : list Plugin) :
  sort_good ps vd so ->
  match sort_deps_loop ps (sort_visit f ps) ds vd vg so with
  | VOk vd' vg' so' =>
      sort_good ps vd' so' /\
      (forall x, In x vd' -> In x vd \/ ~ In x vg) /\
      (forall x, In x vg' <-> In x vg) /\
      (forall x, In x vd -> In x vd') /\
      (forall d, In d ds -> find_plugin ps d <> None -> In d vd')
  | _ => True
  end.
Proof.
  revert vd vg so; induction ds as [|d ds IHds]; intros vd vg so Hg; cbn [sort_deps_loop].
  - refine (conj Hg (conj _ (conj _ (conj _ _)))); try tauto. intros d [].
  - destruct (find_plugin ps d) as [dp|] eqn:F.
    + destruct (find_plugin_some ps d dp F) as [Hin Hn].
      specialize (IH dp vd vg so Hin Hg).
      destruct (sort_visit f ps dp vd vg so) as [vd1 vg1 so1| |] eqn:V; [| exact I | exact I].
      destruct IH as (Hg1 & Hnew1 & Hvg1 & Hdp1 & Hmono1).
      specialize (IHds vd1 vg1 so1 Hg1).
      destruct (sort_deps_loop ps (sort_visit f ps) ds vd1 vg1 so1) as [vd2 vg2 so2| |];
        [| exact I | exact I].
      destruct IHds as (Hg2 & Hnew2 & Hvg2 & Hmono2 & Hds2).
      refine (conj Hg2 (conj _ (conj _ (conj _ _)))).
      * intros x Hx. destruct (Hnew2 x Hx) as [H|H]; [exact (Hnew1 x H) |].
        right. rewrite <- Hvg1. exact H.
      * intro x. rewrite Hvg2. apply Hvg1.
      * intros x Hx. apply Hmono2, Hmono1, Hx.
      * intros d' [<-|Hd'] Hf; [rewrite <- Hn; apply Hmono2, Hdp1 | exact (Hds2 d' Hd' Hf)].
    + specialize (IHds vd vg so Hg).
      destruct (sort_deps_loop ps (sort_visit f ps) ds vd vg so) as [vd2 vg2 so2| |];
        [| exact I | exact I].
      destruct IHds as (Hg2 & Hnew2 & Hvg2 & Hmono2 & Hds2).
      refine (conj Hg2 (conj Hnew2 (conj Hvg2 (conj Hmono2 _)))).
      intros d' [<-|Hd'] Hf; [exfalso; exact (Hf F) | exact (Hds2 d' Hd' Hf)].
Qed.

Lemma sort_visit_post (f : nat) : forall p vd vg so, In p ps -> sort_good ps vd so ->
  visit_post ps p vd vg so (sort_visit f ps p vd vg so).
Proof.
  induction f as [|f IH]; intros p vd vg so Hp Hg; [exact I |].
  rewrite sort_visit_S.
  destruct (set_has vg (name p)) eqn:Hvg; [exact I |].
  destruct (set_has vd (name p)) eqn:Hvd.
  - refine (conj Hg (conj _ (conj _ (conj _ _)))); try tauto. apply set_has_in, Hvd.
  - pose proof (sort_deps_loop_post f IH (deps_or_nil (dependencies p))
                  vd (set_add vg (name p)) so Hg) as L.
    destruct (sort_deps_loop ps (sort_visit f ps) (deps_or_nil (dependencies p))
                vd (set_add vg (name p)) so) as [vd1 vg1 so1| |]; [| exact I | exact I].
    destruct L as ((Hmem & Hnd & Hincl & Hbef) & Hnew & Hvg1 & Hmono & Hds).
    assert (Hnvg : ~ In (name p) vg) by (rewrite <- set_has_in, Hvg; discriminate).
    assert (Hnvd : ~ In (name p) vd) by (rewrite <- set_has_in, Hvd; discriminate).
    assert (Hn1 : ~ In (name p) vd1).
    { intro H. destruct (Hnew _ H) as [H'|H']; [exact (Hnvd H') |].
      apply H', set_add_in. right; reflexivity. }
    refine (conj (conj _ (conj _ (conj _ _))) (conj _ (conj _ (conj _ _)))).
    + intro x. split; intro H.
      * apply set_add_in in H. rewrite map_app, in_app_iff. cbn.
      destruct H as [H| ->]; [left; apply Hmem, H | right; left; reflexivity].
      * rewrite map_app, in_app_iff in H. cbn in H. apply set_add_in.
      destruct H as [H|[<-|[]]]; [left; apply Hmem, H | right; reflexivity].
    + rewrite map_app. cbn. apply nodup_snoc_name; [exact Hnd |].
      rewrite <- Hmem. exact Hn1.
    + apply incl_app; [exact Hincl |]. intros q [<-|[]]. exact Hp.
    + apply deps_before_snoc; [exact Hbef |]. intros d Hd Hf. apply Hmem, Hds; assumption.
    + intros x Hx. apply set_add_in in Hx. destruct Hx as [Hx| ->]; [| right; exact Hnvg].
      destruct (Hnew x Hx) as [H|H]; [left; exact H |].
      right. intro H'. apply H, set_add_in. left; exact H'.
    + intro x. split; intro H.
      * apply set_delete_in in H. destruct H as [H Hne].
      apply Hvg1, set_add_in in H. destruct H as [H|H]; [exact H | contradiction].
      * apply set_delete_in. split.
        -- apply Hvg1, set_add_in. left; exact H.
        -- intros ->. exact (Hnvg H).
    + apply set_add_in; right; reflexivity.
    + intros x Hx. apply set_add_in. left. apply Hmono, Hx.
Qed.

Lemma sort_loop_post (f : nat) (qs : list Plugin) : forall vd vg so,
  incl qs ps -> sort_good ps vd so ->
  match sort_loop f ps qs vd vg so with
  | VOk vd' _ so' =>
      sort_good ps vd' so' /\ (forall q, In q qs -> In (name q) vd') /\
      (forall x, In x vd -> In x vd')
  | _ => True
  end.
Proof.
  induction qs as [|q qs IH]; intros vd vg so Hi Hg; cbn [sort_loop].
  - refine (conj Hg (conj _ _)); [intros q [] | tauto].
  - pose proof (sort_visit_post f q vd vg so (Hi q (or_introl eq_refl)) Hg) as V.
    destruct (sort_visit f ps q vd vg so) as [vd1 vg1 so1| |]; [| exact I | exact I].
    destruct V as (Hg1 & _ & _ & Hq1 & Hmono1).
    assert (Hi' : incl qs ps) by (intros x Hx; apply Hi; right; exact Hx).
    specialize (IH vd1 vg1 so1 Hi' Hg1).
    destruct (sort_loop f ps qs vd1 vg1 so1) as [vd2 vg2 so2| |]; [| exact I | exact I].
    destruct IH as (Hg2 & Hqs2 & Hmono2). refine (conj Hg2 (conj _ _)).
    + intros q' [<-|Hq']; [apply Hmono2, Hq1 | exact (Hqs2 q' Hq')].
    + intros x Hx. apply Hmono2, Hmono1, Hx.
Qed.

(** What a sorted result of [sortPluginsByDependencies] satisfies. *)
Lemma sorted_props (l : list Plugin) :
  sortPluginsByDependencies ps = Sorted l ->
  NoDup (map name l) /\ incl l ps /\ (forall p, In p ps -> In (name p) (map name l)) /\
  deps_before ps l.
Proof.
  unfold sortPluginsByDependencies. intro H.
  pose proof (sort_loop_post (S (length ps)) ps [] [] [] (incl_refl ps) (sort_good_nil ps)) as L.
  destruct (sort_loop (S (length ps)) ps ps [] [] []) as [vd vg so| |]; try discriminate.
  injection H as <-. destruct L as ((Hmem & Hnd & Hincl & Hbef) & Hall & _).
  refine (conj Hnd (conj Hincl (conj _ Hbef))).
  intros p Hp. apply Hmem, Hall, Hp.
Qed.
Lemma set_delete_absent (s : list string) (x : string) :
  ~ In x s -> set_delete s x = s.
Proof.
  unfold set_delete. induction s as [|y s IH]; intro H; cbn; [reflexivity |].
  destruct (String.eqb x y) eqn:E.
  - apply String.eqb_eq in E. subst. exfalso. apply H. left; reflexivity.
  - cbn. rewrite IH; [reflexivity |]. intro H'. apply H. right; exact H'.
Qed.

(** [visit] leaves [visiting] as it found it. *)
Lemma sort_visit_vg (f : nat) : forall p vd vg so,
  match sort_visit f ps p vd vg so with VOk _ vg' _ => vg' = vg | _ => True end.
Proof.
  induction f as [|f IH]; intros p vd vg so; [exact I |].
  rewrite sort_visit_S.
  destruct (set_has vg (name p)) eqn:Hvg; [exact I |].
  destruct (set_has vd (name p)); [reflexivity |].
  assert (L : forall ds vd vg so,
    match sort_deps_loop ps (sort_visit f ps) ds vd vg so with
    | VOk _ vg' _ => vg' = vg | _ => True end).
  { induction ds as [|d ds IHds]; intros vd' vg' so'; cbn [sort_deps_loop]; [reflexivity |].
    destruct (find_plugin ps d) as [dp|]; [| apply IHds].
    specialize (IH dp vd' vg' so').
    destruct (sort_visit f ps dp vd' vg' so') as [vd1 vg1 so1| |]; [| exact I | exact I].
    subst vg1. apply IHds. }
  specialize (L (deps_or_nil (dependencies p)) vd (set_add vg (name p)) so).
  destruct (sort_deps_loop ps (sort_visit f ps) (deps_or_nil (dependencies p)) vd
              (set_add vg (name p)) so) as [vd1 vg1 so1| |]; [| exact I | exact I].
  subst vg1. unfold set_add. unfold set_has in Hvg. rewrite Hvg.
  assert (Hn : ~ In (name p) vg) by (rewrite <- set_has_in; unfold set_has; rewrite Hvg; discriminate).
  unfold set_delete. rewrite filter_app. cbn. rewrite String.eqb_refl. cbn.
  rewrite app_nil_r. exact (set_delete_absent vg (name p) Hn).
Qed.

(** The nesting of [visit] calls never exceeds the fuel. *)
Lemma sort_visit_fuel (f : nat) : forall p vd vg so,
  In p ps -> NoDup vg -> incl vg (map name ps) -> length ps < f + length vg ->
  sort_visit f ps p vd vg so <> VOutOfFuel.
Proof.
  induction f as [|f IH]; intros p vd vg so Hp Hnd Hi Hlt.
  - exfalso. pose proof (NoDup_incl_length Hnd Hi) as H. rewrite length_map in H. lia.
  - rewrite sort_visit_S.
    destruct (set_has vg (name p)) eqn:Hvg; [discriminate |].
    destruct (set_has vd (name p)); [discriminate |].
    assert (Hn : ~ In (name p) vg) by (rewrite <- set_has_in, Hvg; discriminate).
    assert (Eadd : set_add vg (name p) = vg ++ [name p])
      by (unfold set_add; unfold set_has in Hvg; rewrite Hvg; reflexivity).
    set (vg' := set_add vg (name p)).
    assert (Hnd' : NoDup vg') by (unfold vg'; rewrite Eadd; apply nodup_snoc_name; assumption).
    assert (Hi' : incl vg' (map name ps)).
    { unfold vg'; rewrite Eadd. apply incl_app; [exact Hi |].
      intros x [<-|[]]. apply in_map, Hp. }
    assert (Hlt' : length ps < f + length vg')
      by (unfold vg'; rewrite Eadd, length_app; cbn; lia).
    assert (L : forall ds vd so, sort_deps_loop ps (sort_visit f ps) ds vd vg' so <> VOutOfFuel).
    { induction ds as [|d ds IHds]; intros vd1 so1; cbn [sort_deps_loop]; [discriminate |].
      destruct (find_plugin ps d) as [dp|] eqn:F; [| apply IHds].
      pose proof (IH dp vd1 vg' so1 (proj1 (find_plugin_some ps d dp F)) Hnd' Hi' Hlt') as N.
      pose proof (sort_visit_vg f dp vd1 vg' so1) as V.
      destruct (sort_visit f ps dp vd1 vg' so1) as [vd2 vg2 so2|n|]; [| discriminate | contradiction].
      subst vg2. apply IHds. }
    specialize (L (deps_or_nil (dependencies p)) vd so).
    destruct (sort_deps_loop ps (sort_visit f ps) (deps_or_nil (dependencies p)) vd vg' so);
      [discriminate | discriminate | contradiction].
Qed.

Lemma sort_loop_fuel (qs : list Plugin) : forall vd so,
  incl qs ps -> sort_loop (S (length ps)) ps qs vd [] so <> VOutOfFuel.
Proof.
  induction qs as [|q qs IH]; intros vd so Hi; cbn [sort_loop]; [discriminate |].
  assert (N : sort_visit (S (length ps)) ps q vd [] so <> VOutOfFuel).
  { apply sort_visit_fuel; [apply Hi; left; reflexivity | constructor | intros x [] | cbn; lia]. }
  pose proof (sort_visit_vg (S (length ps)) q vd [] so) as V.
  destruct (sort_visit (S (length ps)) ps q vd [] so) as [vd1 vg1 so1| |];
    [| discriminate | contradiction].
  subst vg1. apply IH. intros x Hx. apply Hi. right; exact Hx.
Qed.

Lemma sort_not_out_of_fuel : sortPluginsByDependencies ps <> SortOutOfFuel.
Proof.
  unfold sortPluginsByDependencies.
  pose proof (sort_loop_fuel ps [] [] (incl_refl ps)) as N.
  destruct (sort_loop (S (length ps)) ps ps [] [] []); [discriminate | discriminate | contradiction].
Qed.
End SortVisit.

(** *** The inner loop of [getPluginDependencyChain]'s [visit] *)

(** The [for (const dep of plugin.dependencies)] loop of [visit], for a
    given recursive [visit]; [chain_visit (S fuel)] runs it with
    [chain_visit fuel]. *)
Section ChainDepsLoop.
Variable visit : string -> list string -> list string -> list string * list string.

Fixpoint chain_deps_loop (ds : list string) (vd ch : list string) : list string * list string :=
  match ds with
  | [] => (vd, ch)
  | dep :: ds' =>
      let '(vd', ch') := visit dep vd ch in
      chain_deps_loop ds' vd' (ch' ++ [dep])
  end.
End ChainDepsLoop.

Lemma chain_visit_S (fuel : nat) (ps : list Plugin) (n : string) (vd ch : list string) :
  chain_visit (S fuel) ps n vd ch =
  if set_has vd n then (vd, ch) else
  match find_plugin ps n with
  | Some plugin =>
      match dependencies plugin with
      | Some ds => chain_deps_loop (chain_visit fuel ps) ds (set_add vd n) ch
      | None => (set_add vd n, ch)
      end
  | None => (set_add vd n, ch)
  end.
Proof. reflexivity. Qed.

(** [a] declares [b] among its dependencies, the [a] being the first
    plugin of that name. *)
Definition chain_edge (ps : list Plugin) (a b : string) : Prop :=
  exists p, find_plugin ps a = Some p /\ In b (deps_or_nil (dependencies p)).

Section ChainVisit.
Variable ps : list Plugin.

Lemma chain_visit_sound (f : nat) : forall n vd ch x,
  In x (snd (chain_visit f ps n vd ch)) -> In x ch \/ clos_trans _ (chain_edge ps) n x.
Proof.
  induction f as [|f IH]; intros n vd ch x Hx; [left; exact Hx |].
  rewrite chain_visit_S in Hx.
  destruct (set_has vd n); [left; exact Hx |].
  destruct (find_plugin ps n) as [p|] eqn:F; [| left; exact Hx].
  destruct (dependencies p) as [ds|] eqn:D; [| left; exact Hx].
  assert (L : forall ds' vd' ch', incl ds' ds ->
     In x (snd (chain_deps_loop (chain_visit f ps) ds' vd' ch')) ->
     In x ch' \/ clos_trans _ (chain_edge ps) n x).
  { induction ds' as [|d ds' IHds]; intros vd' ch' Hsub Hin; cbn [chain_deps_loop] in Hin;
      [left; exact Hin |].
    pose proof (IH d vd' ch' x) as Hd.
    destruct (chain_visit f ps d vd' ch') as [vd1 ch1] eqn:E. cbn [snd] in Hd.
    assert (He : chain_edge ps n d).
    { exists p. split; [exact F |]. rewrite D. apply Hsub. left; reflexivity. }
    destruct (IHds vd1 (ch1 ++ [d]) (fun y Hy => Hsub y (or_intror Hy)) Hin) as [H|H];
      [| right; exact H].
    apply in_app_iff in H. destruct H as [H|[<-|[]]].
    - destruct (Hd H) as [H'|H']; [left; exact H' |].
      right. exact (t_trans _ _ n d x (t_step _ _ n d He) H').
    - right. apply t_step, He. }
  exact (L ds (set_add vd n) ch (incl_refl ds) Hx).
Qed.

(** The names [visit] can mark, with the start name [n0] first. *)
Variable n0 : string.
Definition chain_names : list string :=
  n0 :: flat_map (fun p => deps_or_nil (dependencies p)) ps.

(** Every dependency of a marked plugin has been both marked and pushed. *)
Definition chain_complete (vd ch : list string) (v : string) : Prop :=
  forall p ds, find_plugin ps v = Some p -> dependencies p = Some ds ->
    forall d, In d ds -> In d vd /\ In d ch.

Lemma chain_complete_mono (vd ch vd' ch' : list string) (v : string) :
  incl vd vd' -> incl ch ch' -> chain_complete vd ch v -> chain_complete vd' ch' v.
Proof.
  intros H1 H2 Hc p ds F D d Hd. destruct (Hc p ds F D d Hd). split; auto.
Qed.

Definition chain_post (n : string) (vd ch vd' ch' : list string) : Prop :=
  In n vd' /\ incl vd vd' /\ incl ch ch' /\
  (forall v, In v vd' -> ~ In v vd -> chain_complete vd' ch' v) /\
  NoDup vd' /\ incl vd' chain_names.

Lemma dep_in_names (p : Plugin) (ds : list string) (d : string) :
  In p ps -> dependencies p = Some ds -> In d ds -> In d chain_names.
Proof.
  intros Hp D Hd. right. apply in_flat_map. exists p. rewrite D. split; assumption.
Qed.

Lemma chain_visit_complete (f : nat) : forall n vd ch,
  In n chain_names -> NoDup vd -> incl vd chain_names ->
  length chain_names < f + length vd ->
  let '(vd', ch') := chain_visit f ps n vd ch in chain_post n vd ch vd' ch'.
Proof.
  induction f as [|f IH]; intros n vd ch Hn Hnd Hi Hlt.
  - exfalso. pose proof (NoDup_incl_length Hnd Hi). lia.
  - rewrite chain_visit_S.
    destruct (set_has vd n) eqn:Hvd.
    { refine (conj (proj1 (set_has_in vd n) Hvd) (conj (incl_refl _) (conj (incl_refl _)
        (conj _ (conj Hnd Hi))))). intros v Hv Hv'; contradiction. }
    assert (Hnn : ~ In n vd) by (rewrite <- set_has_in, Hvd; discriminate).
    assert (Eadd : set_add vd n = vd ++ [n])
      by (unfold set_add; unfold set_has in Hvd; rewrite Hvd; reflexivity).
    assert (Hnd1 : NoDup (set_add vd n)) by (rewrite Eadd; apply nodup_snoc_name; assumption).
    assert (Hi1 : incl (set_add vd n) chain_names).
    { rewrite Eadd. apply incl_app; [exact Hi |]. intros y [<-|[]]. exact Hn. }
    assert (Hn1 : In n (set_add vd n)) by (apply set_add_in; right; reflexivity).
    assert (Hsub1 : incl vd (set_add vd n)) by (intros y Hy; apply set_add_in; left; exact Hy).
    assert (Hlen1 : length (set_add vd n) = S (length vd)) by (rewrite Eadd, length_app; cbn; lia).
    assert (Hnew1 : forall v, In v (set_add vd n) -> ~ In v vd -> v = n).
    { intros v Hv Hv'. apply set_add_in in Hv. destruct Hv; [contradiction | assumption]. }
    destruct (find_plugin ps n) as [p|] eqn:F.
    2: { refine (conj Hn1 (conj Hsub1 (conj (incl_refl _) (conj _ (conj Hnd1 Hi1))))).
         intros v Hv Hv'. rewrite (Hnew1 v Hv Hv'). intros p' ds F'. rewrite F in F'. discriminate. }
    destruct (dependencies p) as [ds|] eqn:D.
    2: { refine (conj Hn1 (conj Hsub1 (conj (incl_refl _) (conj _ (conj Hnd1 Hi1))))).
         intros v Hv Hv'. rewrite (Hnew1 v Hv Hv'). intros p' ds F' D'.
         rewrite F in F'. injection F' as <-. rewrite D in D'. discriminate. }
    assert (Hp : In p ps) by exact (proj1 (find_plugin_some ps n p F)).
    assert (L : forall ds' vd1 ch1, incl ds' ds -> incl (set_add vd n) vd1 -> NoDup vd1 ->
      incl vd1 chain_names ->
      let '(vd2, ch2) := chain_deps_loop (chain_visit f ps) ds' vd1 ch1 in
      incl vd1 vd2 /\ incl ch1 ch2 /\ (forall d, In d ds' -> In d vd2 /\ In d ch2) /\
      (forall v, In v vd2 -> ~ In v vd1 -> chain_complete vd2 ch2 v) /\
      NoDup vd2 /\ incl vd2 chain_names).
    { induction ds' as [|d ds' IHds]; intros vd1 ch1 Hs Hb Hnd2 Hi2; cbn [chain_deps_loop].
      - refine (conj (incl_refl _) (conj (incl_refl _) (conj _ (conj _ (conj Hnd2 Hi2))))).
        + intros d [].
        + intros v Hv Hv'; contradiction.
      - assert (Hd : In d chain_names) by exact (dep_in_names p ds d Hp D (Hs d (or_introl eq_refl))).
        assert (Hlt2 : length chain_names < f + length vd1).
        { pose proof (NoDup_incl_length Hnd1 Hb). lia. }
        pose proof (IH d vd1 ch1 Hd Hnd2 Hi2 Hlt2) as V.
        destruct (chain_visit f ps d vd1 ch1) as [vd3 ch3].
        destruct V as (Hd3 & Hs3 & Hc3 & Hcomp3 & Hnd3 & Hi3).
        assert (Hb3 : incl (set_add vd n) vd3) by (intros y Hy; apply Hs3, Hb, Hy).
        pose proof (IHds vd3 (ch3 ++ [d]) (fun y Hy => Hs y (or_intror Hy)) Hb3 Hnd3 Hi3) as W.
        destruct (chain_deps_loop (chain_visit f ps) ds' vd3 (ch3 ++ [d])) as [vd4 ch4].
        destruct W as (Hs4 & Hc4 & Hall4 & Hcomp4 & Hnd4 & Hi4).
        refine (conj (fun y Hy => Hs4 y (Hs3 y Hy)) (conj _ (conj _ (conj _ (conj Hnd4 Hi4))))).
        + intros y Hy. apply Hc4, in_app_iff. left. apply Hc3, Hy.
        + intros d' [<-|Hd'].
          * split; [apply Hs4, Hd3 | apply Hc4, in_app_iff; right; left; reflexivity].
          * exact (Hall4 d' Hd').
        + intros v Hv Hv'. destruct (in_dec String.string_dec v vd3) as [H3|H3].
          * apply (chain_complete_mono vd3 (ch3 ++ [d])); [exact Hs4 | exact Hc4 |].
            apply (chain_complete_mono vd3 ch3); [apply incl_refl | intros y Hy; apply in_app_iff; left; exact Hy |].
            exact (Hcomp3 v H3 Hv').
          * exact (Hcomp4 v Hv H3). }
    pose proof (L ds (set_add vd n) ch (incl_refl ds) (incl_refl _) Hnd1 Hi1) as W.
    destruct (chain_deps_loop (chain_visit f ps) ds (set_add vd n) ch) as [vd2 ch2].
    destruct W as (Hs2 & Hc2 & Hall2 & Hcomp2 & Hnd2 & Hi2).
    refine (conj (Hs2 n Hn1) (conj (fun y Hy => Hs2 y (Hsub1 y Hy)) (conj Hc2 (conj _ (conj Hnd2 Hi2))))).
    intros v Hv Hv'. destruct (in_dec String.string_dec v (set_add vd n)) as [H1|H1].
    + rewrite (Hnew1 v H1 Hv'). intros p' ds' F' D' d Hd.
      rewrite F in F'. injection F' as <-. rewrite D in D'. injection D' as <-.
      exact (Hall2 d Hd).
    + exact (Hcomp2 v Hv H1).
Qed.
End ChainVisit.

Lemma compat_missing (p : Plugin) (av : list Plugin) :
  missingDependencies (checkPluginCompatibility p av)
  = filter (fun d => negb (existsb (fun q => String.eqb (name q) d) av))
           (deps_or_nil (dependencies p)).
Proof.
  unfold checkPluginCompatibility; cbn [missingDependencies].
  destruct (dependencies p) as [ds|]; [| reflexivity]. cbn [deps_or_nil].
  rewrite fold_missing. cbn [app]. apply filter_ext. intro d. apply find_plugin_flag.
Qed.

Lemma find_plugin_nodup (ps : list Plugin) (q : Plugin) :
  NoDup (map name ps) -> In q ps -> find_plugin ps (name q) = Some q.
Proof.
  unfold find_plugin. induction ps as [|q0 ps IH]; intros Hnd Hq; [destruct Hq |].
  cbn in Hnd |- *. inversion Hnd as [|x l Hx Hnd' Ex]; subst.
  destruct Hq as [<-|Hq]; [rewrite String.eqb_refl; reflexivity |].
  destruct (String.eqb (name q0) (name q)) eqn:E.
  - apply String.eqb_eq in E. exfalso. apply Hx. rewrite E. apply in_map, Hq.
  - exact (IH Hnd' Hq).
Qed.

(** [a] depends on [b], both present in [plugins], [a]'s entry being the
    first plugin of that name. *)
Definition depends_edge (ps : list Plugin) (a b : string) : Prop :=
  exists p, find_plugin ps a = Some p /\ In b (deps_or_nil (dependencies p)) /\
            find_plugin ps b <> None.

Definition position (l : list Plugin) (x : string) (i : nat) : Prop :=
  exists q, nth_error l i = Some q /\ name q = x.

Lemma position_unique (l : list Plugin) (x : string) (i j : nat) :
  NoDup (map name l) -> position l x i -> position l x j -> i = j.
Proof.
  intros Hnd (q & Hi & Hq) (q' & Hj & Hq').
  apply (proj1 (NoDup_nth_error (map name l)) Hnd).
  - rewrite length_map. apply nth_error_Some. rewrite Hi. discriminate.
  - rewrite !nth_error_map, Hi, Hj. cbn. congruence.
Qed.

Lemma sorted_edges_lower (ps l : list Plugin) :
  NoDup (map name ps) -> incl l ps -> deps_before ps l ->
  forall a b, clos_trans _ (depends_edge ps) a b ->
  forall i, position l a i -> exists j, j < i /\ position l b j.
Proof.
  intros Hnd Hincl Hbef a b Hab. induction Hab as [a b (p & F & Hd & Hf)|a b c _ IH1 _ IH2];
    intros i (q & Hi & Hq).
  - assert (Hql : In q l) by exact (nth_error_In l i Hi).
    pose proof (find_plugin_nodup ps q Hnd (Hincl q Hql)) as Fq.
    rewrite Hq, F in Fq. injection Fq as ->.
    destruct (Hbef i q b Hi Hd Hf) as (j & q' & Hj & Hj' & Hn).
    exists j. split; [exact Hj |]. exists q'. split; assumption.
  - destruct (IH1 i (ex_intro _ q (conj Hi Hq))) as (j & Hj & Pj).
    destruct (IH2 j Pj) as (k & Hk & Pk). exists k. split; [lia | exact Pk].
Qed.

Lemma edge_source_found (ps : list Plugin) (a b : string) :
  clos_trans _ (depends_edge ps) a b -> exists p, find_plugin ps a = Some p.
Proof.
  intro H. induction H as [a b (p & F & _)|a b c _ IH _ _]; [exists p; exact F | exact IH].
Qed.

(** A test descriptor with declared dependencies. *)
Definition plugin_dep (n : string) (ds : list string) : Plugin :=
  {| name := n; version := "1.0.0"; enabled := true; dependencies := Some ds;
     initialize := None; destroy := None |}.

(** X23. [checkPluginCompatibility] lists as missing, in declaration order
    and with repeats, the declared dependencies that no available plugin
    has as its name, and it is compatible exactly when every declared
    dependency is the name of some available plugin. *)
Theorem checkPluginCompatibility_spec (p : Plugin) (av : list Plugin) :
  missingDependencies (checkPluginCompatibility p av)
    = filter (fun d => negb (existsb (fun q => String.eqb (name q) d) av))
             (deps_or_nil (dependencies p)) /\
  (compatible (checkPluginCompatibility p av) = true <->
   forall d, In d (deps_or_nil (dependencies p)) -> exists q, In q av /\ name q = d).
Proof.
  split; [exact (compat_missing p av) |].
  change (compatible (checkPluginCompatibility p av))
    with (Nat.eqb (length (missingDependencies (checkPluginCompatibility p av))) 0).
  rewrite compat_missing, Nat.eqb_eq, length_zero_iff_nil, filter_nil_iff.
  split; intros H d Hd; specialize (H d Hd).
  - rewrite Bool.negb_false_iff, existsb_exists in H. destruct H as (q & Hq & E).
    exists q. split; [exact Hq | apply String.eqb_eq, E].
  - rewrite Bool.negb_false_iff, existsb_exists. destruct H as (q & Hq & E).
    exists q. split; [exact Hq | apply String.eqb_eq, E].
Qed.

(** X24. [canUnloadPlugin(n, plugins)] lists as dependents, in order, the
    names of the plugins that declare [n] as a dependency, and allows the
    unload exactly when no plugin declares it. *)
Theorem canUnloadPlugin_spec (n : string) (ps : list Plugin) :
  dependents (canUnloadPlugin n ps) = map name (filter (declares n) ps) /\
  (canUnload (canUnloadPlugin n ps) = true <->
   forall p, In p ps -> ~ In n (deps_or_nil (dependencies p))).
Proof.
  split; [exact (canUnloadPlugin_dependents n ps) |].
  change (canUnload (canUnloadPlugin n ps))
    with (Nat.eqb (length (dependents (canUnloadPlugin n ps))) 0).
  rewrite canUnloadPlugin_dependents, length_map, Nat.eqb_eq, length_zero_iff_nil,
    filter_nil_iff.
  split; intros H p Hp; specialize (H p Hp).
  - rewrite <- declares_in, H. discriminate.
  - apply Bool.not_true_iff_false. rewrite declares_in. exact H.
Qed.

(** X25. [sortPluginsByDependencies] always ends in a list or in the
    [Circular dependency detected] error, and a list it returns holds each
    name once, only plugins of the input, a plugin of every name of the
    input, and every plugin after each of its dependencies that is present
    in the input. *)
Theorem sortPluginsByDependencies_sorted (ps : list Plugin) :
  sortPluginsByDependencies ps <> SortOutOfFuel /\
  forall l, sortPluginsByDependencies ps = Sorted l ->
  NoDup (map name l) /\ incl l ps /\ (forall p, In p ps -> In (name p) (map name l)) /\
  deps_before ps l.
Proof.
  split; [exact (sort_not_out_of_fuel ps) | intro l; exact (sorted_props ps l)].
Qed.

(** X26. When the names of the input are distinct and some plugin depends
    on itself through a chain of present dependencies,
    [sortPluginsByDependencies] throws [Circular dependency detected]. *)
Theorem sortPluginsByDependencies_cycle (ps : list Plugin) (a : string)
    (Hnd : NoDup (map name ps)) (Hc : clos_trans _ (depends_edge ps) a a) :
  exists n, sortPluginsByDependencies ps = CircularDependency n.
Proof.
  destruct (sortPluginsByDependencies ps) as [l|n|] eqn:E.
  - exfalso. destruct (sorted_props ps l E) as (Hndl & Hincl & Hall & Hbef).
    destruct (edge_source_found ps a a Hc) as (p & F).
    destruct (find_plugin_some ps a p F) as [Hp Hn].
    pose proof (Hall p Hp) as Hin. apply in_map_iff in Hin. destruct Hin as (q & Hq & Hql).
    apply In_nth_error in Hql. destruct Hql as (i & Hi).
    assert (Pi : position l a i) by (exists q; split; [exact Hi | congruence]).
    destruct (sorted_edges_lower ps l Hnd Hincl Hbef a a Hc i Pi) as (j & Hj & Pj).
    pose proof (position_unique l a i j Hndl Pi Pj). lia.
  - exists n. reflexivity.
  - exfalso. exact (sort_not_out_of_fuel ps E).
Qed.

(** X27. [getPluginDependencyChain(n, plugins)] holds exactly the names
    reachable from [n] by following declared dependencies, each step from
    the first plugin of a name. *)
Theorem getPluginDependencyChain_spec (n x : string) (ps : list Plugin) :
  In x (getPluginDependencyChain n ps) <-> clos_trans _ (chain_edge ps) n x.
Proof.
  unfold getPluginDependencyChain. split.
  - intro H. destruct (chain_visit_sound ps _ n [] [] x H) as [[]|H']. exact H'.
  - intro H.
    pose proof (chain_visit_complete ps n
                  (S (S (length (flat_map (fun p => deps_or_nil (dependencies p)) ps))))
                  n [] [] (or_introl eq_refl) (NoDup_nil _) (fun y (Hy : In y []) => match Hy with end)
                  ltac:(unfold chain_names; cbn; lia)) as V.
    destruct (chain_visit _ ps n [] []) as [vd ch]. cbn [snd].
    destruct V as (Hn & _ & _ & Hcomp & _ & _).
    assert (R : forall y, clos_trans _ (chain_edge ps) n y -> In y vd /\ In y ch).
    { intros y Hy. apply clos_trans_tn1 in Hy.
      induction Hy as [y (p & F & Hd)|y z (p & F & Hd) _ IH].
      - destruct (dependencies p) as [ds|] eqn:D; [| destruct Hd].
        exact (Hcomp n Hn (fun H' => H') p ds F D y Hd).
      - destruct (dependencies p) as [ds|] eqn:D; [| destruct Hd].
        exact (Hcomp y (proj1 IH) (fun H' => H') p ds F D z Hd). }
    exact (proj2 (R x H)).
Qed.
End PluginHelpersFacts.

(** ** Witnesses *)

(** A coordinator after [initialize()] registered A and B (both enabled,
    B depending on A). *)
Definition sdk_init_AB : SDK := fst (initialize_sdk no_throw [0; 1] (new_sdk (heap_AB true))).

(** A store that persists under the key ["k"], with one listener. *)
Definition store_P : Store :=
  {| sheap := fun q => if Nat.eqb q 0 then Some [] else None;
     snext := 1; state := 0; listeners := [Some 0];
     persist := true; persistKey := Some "k"; notified := []; writes := [] |}.

Lemma off_then_emit_skips_witness :
  In (Call 0 "error" [])
     (skipn (length (calls (on "error" 0 new_bus)))
            (calls (fst (emit no_throw "error" [] (on "error" 0 new_bus))))) /\
  (let b' := off "error" 0 (on "error" 0 new_bus) in
   ~ In (Call 0 "error" []) (skipn (length (calls b'))
                               (calls (fst (emit no_throw "error" [] b'))))).
Proof.
  split; [vm_compute; left; reflexivity |].
  exact (off_then_emit_skips no_throw (on "error" 0 new_bus) "error" 0 [] []).
Defined.

Lemma reset_always_notifies_witness :
  snd (reset (fun _ => []) 1 5 store_P) = Some "k" /\
  let '(st', removed) := reset (fun _ => []) 1 5 store_P in
  state st' = 5 /\
  notified st' = notified store_P ++ map (fun l => (l, 5, state store_P)) (live (listeners store_P)) /\
  writes st' = writes store_P /\ listeners st' = listeners store_P /\
  removed = (if persist store_P then
               match persistKey store_P with
               | Some k => if String.eqb k "" then None else Some k
               | None => None
               end
             else None).
Proof.
  split; [vm_compute; reflexivity |].
  apply (reset_always_notifies (fun _ => []) 1 5 store_P); [intro l; reflexivity | cbn; lia].
Defined.

Lemma setState_partial_persists_witness :
  writes (setState (fun _ => []) 1 (Partial [("x", 1)]) store_P) = [("k", [("x", 1)])] /\
  writes (setState (fun _ => []) 1 (Partial [("x", 1)]) store_P)
    = writes store_P ++
      (if persist store_P then
         match persistKey store_P with
         | Some k => if String.eqb k "" then []
                     else [(k, spread (deref_state store_P (state store_P)) [("x", 1)])]
         | None => []
         end
       else []).
Proof.
  split; [vm_compute; reflexivity |].
  apply (setState_partial_persists (fun _ => []) 1 store_P [("x", 1)]). cbn. lia.
Defined.

Lemma destroy_sdk_outcome_witness :
  snd (destroy_sdk no_throw sdk_init_AB) = inr tt /\
  match destroy_sdk no_throw sdk_init_AB with
  | (sdk', inr _) =>
      info_isDestroyed (getInfo sdk') = true /\ info_isInitialized (getInfo sdk') = false /\
      stateListenerCount (getInfo sdk') = 0 /\ registeredHooks (getInfo sdk') = [] /\
      destroy_sdk no_throw sdk' = (sdk', inr tt)
  | (sdk', inl _) =>
      isDestroyed sdk' = false /\ isInitialized sdk' = isInitialized sdk_init_AB /\
      store sdk' = store sdk_init_AB
  end.
Proof.
  split; [vm_compute; reflexivity |].
  apply (destroy_sdk_outcome no_throw sdk_init_AB). vm_compute. reflexivity.
Defined.

Lemma initialize_failure_reported_witness :
  snd (initialize_sdk no_throw [0; 1; 5] (new_sdk (heap_AB true)))
    = inl (SDKError "INITIALIZATION_FAILED" (Some JsTypeError)) /\
  match initialize_sdk no_throw [0; 1; 5] (new_sdk (heap_AB true)) with
  | (sdk', inr _) => isInitialized sdk' = true
  | (sdk', inl e) =>
      isInitialized sdk' = false /\
      reg sdk' = fst (for_each [0; 1; 5] register (reg (new_sdk (heap_AB true)))) /\
      store sdk' = store (new_sdk (heap_AB true)) /\
      (forall c, In c (cbs_of (hooks (bus sdk')) "error") ->
         In (Call c "error" [AErr e; AStr "initialization"]) (calls (bus sdk')))
  end.
Proof.
  split; [vm_compute; reflexivity |].
  apply (initialize_failure_reported no_throw [0; 1; 5] (new_sdk (heap_AB true)));
    reflexivity.
Defined.

Lemma reset_blocked_by_enabled_dependent_witness :
  let '(sdk', res) := reset_sdk no_throw (fun _ => []) 1 0 sdk_init_AB in
  res = inl (wrapped "PLUGIN_DISABLE_FAILED" "PLUGIN_HAS_ENABLED_DEPENDENTS") /\
  reg sdk' = reg sdk_init_AB /\ state (store sdk') = 0 /\ isInitialized sdk' = true.
Proof.
  apply (reset_blocked_by_enabled_dependent no_throw (fun _ => []) 1 0 sdk_init_AB
           2 [3] (plugin_A true) "B" 3 (plugin_B true));
    [vm_compute; reflexivity | vm_compute; reflexivity | vm_compute; reflexivity
    | reflexivity | vm_compute; left; reflexivity | vm_compute; reflexivity | reflexivity].
Defined.

Lemma sortPluginsByDependencies_cycle_witness :
  PluginHelpers.sortPluginsByDependencies
    [PluginHelpersFacts.plugin_dep "C" ["D"]; PluginHelpersFacts.plugin_dep "D" ["C"]]
    = PluginHelpers.CircularDependency "C" /\
  exists n, PluginHelpers.sortPluginsByDependencies
    [PluginHelpersFacts.plugin_dep "C" ["D"]; PluginHelpersFacts.plugin_dep "D" ["C"]]
    = PluginHelpers.CircularDependency n.
Proof.
  split; [vm_compute; reflexivity |].
  apply (PluginHelpersFacts.sortPluginsByDependencies_cycle _ "C").
  - cbn. apply NoDup_cons; [intros [H|[]]; discriminate |].
    apply NoDup_cons; [intros [] | apply NoDup_nil].
  - apply t_trans with "D"; apply t_step; eexists;
      (split; [reflexivity | split; [left; reflexivity | vm_compute; discriminate]]).
Defined.
